(** * theorydb_py: request compilation, cursors, encryption, leases

    A shallow embedding of the Python client [theorydb_py] (package
    [src/py/src/theorydb_py]).  Python values are the inductive [pyval];
    a Python [str] is held as its UTF-8 byte sequence in a Rocq [string],
    and so is a Python [bytes] value; [str.encode("utf-8")] and
    [bytes.decode("utf-8")] are therefore the identity here (a token that is
    not valid UTF-8 is not told apart from one that is).  Exceptions are the
    constructors of [py_error]; a computation that may raise returns a
    [result]. *)

From Stdlib Require Import String Ascii List ZArith QArith Bool Lia ZifyNat Permutation.
From Stdlib Require Import Numbers.DecimalString Numbers.DecimalZ.
Import ListNotations.

Open Scope string_scope.
Open Scope nat_scope.
Set Warnings "-register-all -abstract-large-number".


(* ================================================================== *)
(** ** Python values, exceptions, dicts *)

Inductive pyval : Type :=
| PNone
| PBool (b : bool)
| PInt (z : Z)
| PFloat (q : Q)
| PStr (s : string)
| PBytes (b : string)
| PList (l : list pyval)
| PTuple (l : list pyval)
| PSet (l : list pyval)
| PDict (d : list (string * pyval)).

(** The exceptions raised by the modelled code ([errors.py] and the
    built-in ones that reach callers). *)
Inductive py_error : Type :=
| ValueError (msg : string)
| TypeError (msg : string)
| ValidationError (msg : string)
| ConditionFailedError (msg : string)
| NotFoundError (msg : string)
| BatchRetryExceededError (operation : string) (unprocessed_count : nat)
| TransactionCanceledError (msg : string) (reason_codes : list string)
| EncryptionNotConfiguredError (msg : string)
| AwsError (code : string) (msg : string)
| LeaseHeldError (msg : string)
| LeaseNotOwnedError (msg : string).

Inductive result (A : Type) : Type :=
| Ok (a : A)
| Err (e : py_error).
Arguments Ok {A} a.
Arguments Err {A} e.

Definition bind {A B} (r : result A) (k : A -> result B) : result B :=
  match r with Ok a => k a | Err e => Err e end.

Notation "x <- r ;; k" := (bind r (fun x => k))
  (at level 61, r at next level, right associativity).

Definition of_option {A} (e : py_error) (o : option A) : result A :=
  match o with Some a => Ok a | None => Err e end.

(** Characters that cannot be written inside a string literal. *)
Definition dq : ascii := ascii_of_nat 34.
Definition bsl : ascii := ascii_of_nat 92.

(** A Python dict with string keys, in insertion order. *)
Definition dict (A : Type) := list (string * A).

Fixpoint dict_get {A} (d : dict A) (k : string) : option A :=
  match d with
  | [] => None
  | (k', v) :: r => if String.eqb k k' then Some v else dict_get r k
  end.

(** [d[k] = v]: an existing key keeps its position, a new one goes last. *)
Fixpoint dict_set {A} (d : dict A) (k : string) (v : A) : dict A :=
  match d with
  | [] => [(k, v)]
  | (k', v') :: r =>
      if String.eqb k k' then (k', v) :: r else (k', v') :: dict_set r k v
  end.

Definition dict_keys {A} (d : dict A) : list string := map fst d.

(** [sorted(...)] on the keys of a dict: a stable insertion sort on the
    byte order of the keys (UTF-8 byte order is code-point order). *)
Fixpoint insert_item {A} (x : string * A) (l : dict A) : dict A :=
  match l with
  | [] => [x]
  | y :: r => if String.leb (fst x) (fst y) then x :: y :: r else y :: insert_item x r
  end.

Fixpoint sort_items {A} (l : dict A) : dict A :=
  match l with
  | [] => []
  | x :: r => insert_item x (sort_items r)
  end.

(** Truth value of a Python object ([bool(v)]). *)
Definition py_truthy (v : pyval) : bool :=
  match v with
  | PNone => false
  | PBool b => b
  | PInt z => negb (Z.eqb z 0)
  | PFloat q => negb (Qeq_bool q 0)
  | PStr s | PBytes s => negb (String.eqb s "")
  | PList l | PTuple l | PSet l => match l with [] => false | _ => true end
  | PDict d => match d with [] => false | _ => true end
  end.

(** [str(z)] for a Python int. *)
Definition str_of_Z (z : Z) : string := NilZero.string_of_int (Z.to_int z).

(** Python [==] between values whose dicts have distinct keys: dicts are
    compared as maps, so two values are equal when their forms with every
    dict ordered by key coincide (sets are compared as listed, which only
    makes [py_eq] finer than [==]). *)
Fixpoint canon (v : pyval) : pyval :=
  match v with
  | PList l => PList (map canon l)
  | PTuple l => PTuple (map canon l)
  | PSet l => PSet (map canon l)
  | PDict d =>
      PDict (sort_items ((fix go (d : dict pyval) : dict pyval :=
                            match d with
                            | [] => []
                            | (k, x) :: r => (k, canon x) :: go r
                            end) d))
  | _ => v
  end.

Definition py_eq (a b : pyval) : Prop := canon a = canon b.

(** Every dict inside a value has distinct keys (true of every Python dict). *)
Fixpoint dicts_nodup (v : pyval) : Prop :=
  match v with
  | PList l | PTuple l | PSet l =>
      (fix go (l : list pyval) : Prop :=
         match l with [] => True | x :: r => dicts_nodup x /\ go r end) l
  | PDict d =>
      NoDup (dict_keys d) /\
      (fix go (d : dict pyval) : Prop :=
         match d with [] => True | (_, x) :: r => dicts_nodup x /\ go r end) d
  | _ => True
  end.

(* ================================================================== *)
(** ** [json.dumps(v, separators=(",", ":"), ensure_ascii=False)] *)

Definition hex_digit (n : nat) : ascii :=
  if n <? 10 then ascii_of_nat (48 + n) else ascii_of_nat (87 + n).

(** [ESCAPE_DCT] of [json.encoder] (lower-case [\u00XX] for the other
    control characters); every other character is written as it is. *)
Definition escape_char (c : ascii) : string :=
  let n := nat_of_ascii c in
  if Ascii.eqb c dq then String bsl (String dq EmptyString)
  else if Ascii.eqb c bsl then String bsl (String bsl EmptyString)
  else if n =? 10 then String bsl "n"
  else if n =? 13 then String bsl "r"
  else if n =? 9 then String bsl "t"
  else if n =? 8 then String bsl "b"
  else if n =? 12 then String bsl "f"
  else if n <? 32 then
    String bsl ("u00" ++ String (hex_digit (n / 16)) (String (hex_digit (n mod 16)) EmptyString))
  else String c EmptyString.

Fixpoint escape (s : string) : string :=
  match s with
  | EmptyString => EmptyString
  | String c r => escape_char c ++ escape r
  end.

Definition dumps_str (s : string) : string := String dq (escape s ++ String dq EmptyString).

(** [float.__repr__] is not modelled: no modelled caller dumps a float. *)
Fixpoint dumps (v : pyval) : option string :=
  match v with
  | PNone => Some "null"
  | PBool true => Some "true"
  | PBool false => Some "false"
  | PInt z => Some (str_of_Z z)
  | PFloat _ => None
  | PStr s => Some (dumps_str s)
  | PBytes _ | PSet _ => None
  | PList l | PTuple l =>
      match (fix go (l : list pyval) : option (list string) :=
               match l with
               | [] => Some []
               | x :: r =>
                   match dumps x, go r with
                   | Some a, Some b => Some (a :: b)
                   | _, _ => None
                   end
               end) l with
      | Some parts => Some ("[" ++ String.concat "," parts ++ "]")
      | None => None
      end
  | PDict d =>
      match (fix go (d : dict pyval) : option (list string) :=
               match d with
               | [] => Some []
               | (k, x) :: r =>
                   match dumps x, go r with
                   | Some a, Some b => Some ((dumps_str k ++ ":" ++ a) :: b)
                   | _, _ => None
                   end
               end) d with
      | Some parts => Some ("{" ++ String.concat "," parts ++ "}")
      | None => None
      end
  end.

(* ================================================================== *)
(** ** [json.loads] (the C scanner of CPython's [_json], strict mode) *)

Definition is_ws (c : ascii) : bool :=
  let n := nat_of_ascii c in (n =? 32) || (n =? 9) || (n =? 10) || (n =? 13).

Fixpoint skip_ws (s : string) : string :=
  match s with
  | String c r => if is_ws c then skip_ws r else s
  | EmptyString => s
  end.

Definition hex_value (c : ascii) : option nat :=
  let n := nat_of_ascii c in
  if (48 <=? n) && (n <=? 57) then Some (n - 48)
  else if (97 <=? n) && (n <=? 102) then Some (n - 87)
  else if (65 <=? n) && (n <=? 70) then Some (n - 55)
  else None.

Definition hex4 (a b c d : ascii) : option nat :=
  match hex_value a, hex_value b, hex_value c, hex_value d with
  | Some w, Some x, Some y, Some z => Some (((w * 16 + x) * 16 + y) * 16 + z)
  | _, _, _, _ => None
  end.

(** The UTF-8 bytes of a code point (a lone surrogate gets three bytes). *)
Definition utf8_encode (cp : nat) : string :=
  if cp <? 128 then String (ascii_of_nat cp) EmptyString
  else if cp <? 2048 then
    String (ascii_of_nat (192 + cp / 64)) (String (ascii_of_nat (128 + cp mod 64)) EmptyString)
  else if cp <? 65536 then
    String (ascii_of_nat (224 + cp / 4096))
      (String (ascii_of_nat (128 + (cp / 64) mod 64))
         (String (ascii_of_nat (128 + cp mod 64)) EmptyString))
  else
    String (ascii_of_nat (240 + cp / 262144))
      (String (ascii_of_nat (128 + (cp / 4096) mod 64))
         (String (ascii_of_nat (128 + (cp / 64) mod 64))
            (String (ascii_of_nat (128 + cp mod 64)) EmptyString))).

(** The one-character escapes: quote, backslash, slash, b, f, n, r, t. *)
Definition simple_escape (e : ascii) : option ascii :=
  let n := nat_of_ascii e in
  if n =? 34 then Some dq
  else if n =? 92 then Some bsl
  else if n =? 47 then Some e
  else if n =? 98 then Some (ascii_of_nat 8)
  else if n =? 102 then Some (ascii_of_nat 12)
  else if n =? 110 then Some (ascii_of_nat 10)
  else if n =? 114 then Some (ascii_of_nat 13)
  else if n =? 116 then Some (ascii_of_nat 9)
  else None.

Definition cons_chunk (chunk : string) (o : option (string * string)) : option (string * string) :=
  match o with
  | Some (t, rest) => Some (chunk ++ t, rest)
  | None => None
  end.

(** [scanstring]: the body of a JSON string after its opening quote;
    returns the decoded text and what follows the closing quote. *)
Fixpoint scan_string (s : string) : option (string * string) :=
  match s with
  | EmptyString => None
  | String c r =>
      if Ascii.eqb c dq then Some (EmptyString, r)
      else if Ascii.eqb c bsl then
        match r with
        | EmptyString => None
        | String e r1 =>
            if Ascii.eqb e "u"%char then
              match r1 with
              | String h1 (String h2 (String h3 (String h4 r2))) =>
                  match hex4 h1 h2 h3 h4 with
                  | None => None
                  | Some u =>
                      if (55296 <=? u) && (u <=? 56319) then
                        match r2 with
                        | String b (String u' (String l1 (String l2 (String l3 (String l4 r3))))) =>
                            match r3 with
                            | EmptyString => cons_chunk (utf8_encode u) (scan_string r2)
                            | String _ _ =>
                                if Ascii.eqb b bsl && Ascii.eqb u' "u"%char then
                                  match hex4 l1 l2 l3 l4 with
                                  | None => None
                                  | Some lo =>
                                      if (56320 <=? lo) && (lo <=? 57343) then
                                        cons_chunk (utf8_encode (65536 + (u - 55296) * 1024 + (lo - 56320)))
                                          (scan_string r3)
                                      else cons_chunk (utf8_encode u) (scan_string r2)
                                  end
                                else cons_chunk (utf8_encode u) (scan_string r2)
                            end
                        | _ => cons_chunk (utf8_encode u) (scan_string r2)
                        end
                      else cons_chunk (utf8_encode u) (scan_string r2)
                  end
              | _ => None
              end
            else
              match simple_escape e with
              | Some ch => cons_chunk (String ch EmptyString) (scan_string r1)
              | None => None
              end
        end
      else if nat_of_ascii c <? 32 then None
      else cons_chunk (String c EmptyString) (scan_string r)
  end.

Definition is_digit (c : ascii) : bool :=
  let n := nat_of_ascii c in (48 <=? n) && (n <=? 57).

Fixpoint take_digits (s : string) : string * string :=
  match s with
  | String c r =>
      if is_digit c then let (d, rest) := take_digits r in (String c d, rest)
      else (EmptyString, s)
  | EmptyString => (EmptyString, EmptyString)
  end.

Fixpoint Z_of_digits_acc (acc : Z) (d : string) : Z :=
  match d with
  | String c r => Z_of_digits_acc (acc * 10 + Z.of_nat (nat_of_ascii c - 48))%Z r
  | EmptyString => acc
  end.

Definition Z_of_digits (d : string) : Z := Z_of_digits_acc 0 d.

(** [_match_number_unicode]: an optional minus sign, [0] or a non-zero digit
    followed by digits, an optional fraction, an optional exponent.
    A float is kept as the exact rational it denotes (the rounding to a
    double is not modelled). *)
Definition parse_number (s : string) : option (pyval * string) :=
  let '(neg, s1) := match s with
                    | String c r => if Ascii.eqb c "-"%char then (true, r) else (false, s)
                    | EmptyString => (false, s)
                    end in
  let int_part :=
    match s1 with
    | String c r =>
        if Ascii.eqb c "0"%char then Some ("0", r)
        else if is_digit c then let (d, rest) := take_digits r in Some (String c d, rest)
        else None
    | EmptyString => None
    end in
  match int_part with
  | None => None
  | Some (idig, s2) =>
      let '(fdig, s3) :=
        match s2 with
        | String c (String c' r) =>
            if Ascii.eqb c "."%char && is_digit c' then take_digits (String c' r)
            else (EmptyString, s2)
        | _ => (EmptyString, s2)
        end in
      let is_frac := negb (String.eqb fdig "") in
      let '(exp, s4, is_exp) :=
        match s3 with
        | String c r =>
            if Ascii.eqb c "e"%char || Ascii.eqb c "E"%char then
              let '(eneg, r1) :=
                match r with
                | String c2 r2 =>
                    if Ascii.eqb c2 "-"%char then (true, r2)
                    else if Ascii.eqb c2 "+"%char then (false, r2)
                    else (false, r)
                | EmptyString => (false, r)
                end in
              let (edig, r3) := take_digits r1 in
              if String.eqb edig "" then (0%Z, s3, false)
              else ((if eneg then - Z_of_digits edig else Z_of_digits edig)%Z, r3, true)
            else (0%Z, s3, false)
        | EmptyString => (0%Z, s3, false)
        end in
      let sign := if neg then (-1)%Z else 1%Z in
      if is_frac || is_exp then
        let m := (sign * Z_of_digits (idig ++ fdig))%Z in
        let e := (exp - Z.of_nat (String.length fdig))%Z in
        let q := if (0 <=? e)%Z then inject_Z (m * 10 ^ e)
                 else Qmake m (Z.to_pos (10 ^ (- e))) in
        Some (PFloat q, s4)
      else Some (PInt (sign * Z_of_digits idig)%Z, s4)
  end.

(** [scan_once], [JSONObject], [JSONArray].  The fuel only bounds the
    recursion; [json_loads] gives one unit per input character, more than
    any parse uses.  [NaN] and [Infinity] are not modelled (no rational
    stands for them): they are refused. *)
Fixpoint parse_value (fuel : nat) (s : string) {struct fuel} : option (pyval * string) :=
  match fuel with
  | O => None
  | S f =>
      match s with
      | EmptyString => None
      | String c r =>
          if Ascii.eqb c dq then
            match scan_string r with
            | Some (t, r') => Some (PStr t, r')
            | None => None
            end
          else if Ascii.eqb c "{"%char then
            match skip_ws r with
            | String c' r' =>
                if Ascii.eqb c' "}"%char then Some (PDict [], r')
                else parse_members f [] (String c' r')
            | EmptyString => None
            end
          else if Ascii.eqb c "["%char then
            match skip_ws r with
            | String c' r' =>
                if Ascii.eqb c' "]"%char then Some (PList [], r')
                else parse_elements f [] (String c' r')
            | EmptyString => None
            end
          else if String.prefix "null" s then Some (PNone, String.substring 4 (String.length s - 4) s)
          else if String.prefix "true" s then Some (PBool true, String.substring 4 (String.length s - 4) s)
          else if String.prefix "false" s then Some (PBool false, String.substring 5 (String.length s - 5) s)
          else parse_number s
      end
  end
with parse_members (fuel : nat) (acc : dict pyval) (s : string) {struct fuel} : option (pyval * string) :=
  match fuel with
  | O => None
  | S f =>
      match s with
      | String c r =>
          if Ascii.eqb c dq then
            match scan_string r with
            | Some (k, r1) =>
                match skip_ws r1 with
                | String c1 r2 =>
                    if Ascii.eqb c1 ":"%char then
                      match parse_value f (skip_ws r2) with
                      | Some (v, r3) =>
                          match skip_ws r3 with
                          | String c2 r4 =>
                              if Ascii.eqb c2 "}"%char then Some (PDict (dict_set acc k v), r4)
                              else if Ascii.eqb c2 ","%char then
                                parse_members f (dict_set acc k v) (skip_ws r4)
                              else None
                          | EmptyString => None
                          end
                      | None => None
                      end
                    else None
                | EmptyString => None
                end
            | None => None
            end
          else None
      | EmptyString => None
      end
  end
with parse_elements (fuel : nat) (acc : list pyval) (s : string) {struct fuel} : option (pyval * string) :=
  match fuel with
  | O => None
  | S f =>
      match parse_value f s with
      | Some (v, r) =>
          match skip_ws r with
          | String c r' =>
              if Ascii.eqb c "]"%char then Some (PList (acc ++ [v]), r')
              else if Ascii.eqb c ","%char then parse_elements f (acc ++ [v]) (skip_ws r')
              else None
          | EmptyString => None
          end
      | None => None
      end
  end.

Definition json_loads (s : string) : option pyval :=
  let s0 := skip_ws s in
  match parse_value (S (String.length s0)) s0 with
  | Some (v, r) => match skip_ws r with EmptyString => Some v | String _ _ => None end
  | None => None
  end.

(* ================================================================== *)
(** ** [base64] ([binascii.b2a_base64] / [a2b_base64], non-strict) *)

Definition b64_alphabet : string :=
  "ABCDEFGHIJKLMNOPQRSTUVWXYZabcdefghijklmnopqrstuvwxyz0123456789+/".

Definition b64_char (n : nat) : ascii :=
  match String.get n b64_alphabet with Some c => c | None => "A"%char end.

(** Three bytes give four characters; a final group of one or two bytes is
    padded with [=]. *)
Fixpoint b2a_base64 (s : string) : string :=
  match s with
  | String a (String b (String c r)) =>
      let x := nat_of_ascii a in
      let y := nat_of_ascii b in
      let z := nat_of_ascii c in
      String (b64_char (x / 4))
        (String (b64_char ((x mod 4) * 16 + y / 16))
           (String (b64_char ((y mod 16) * 4 + z / 64))
              (String (b64_char (z mod 64)) (b2a_base64 r))))
  | String a (String b EmptyString) =>
      let x := nat_of_ascii a in
      let y := nat_of_ascii b in
      String (b64_char (x / 4))
        (String (b64_char ((x mod 4) * 16 + y / 16))
           (String (b64_char ((y mod 16) * 4)) "="))
  | String a EmptyString =>
      let x := nat_of_ascii a in
      String (b64_char (x / 4)) (String (b64_char ((x mod 4) * 16)) "==")
  | EmptyString => EmptyString
  end.

Definition b64_index (c : ascii) : option nat :=
  let n := nat_of_ascii c in
  if (65 <=? n) && (n <=? 90) then Some (n - 65)
  else if (97 <=? n) && (n <=? 122) then Some (n - 71)
  else if (48 <=? n) && (n <=? 57) then Some (n + 4)
  else if n =? 43 then Some 62
  else if n =? 47 then Some 63
  else None.

Definition cons_byte (b : nat) (o : option string) : option string :=
  match o with Some t => Some (String (ascii_of_nat b) t) | None => None end.

(** The decoding loop of [a2b_base64] with [strict_mode=False]: characters
    outside the alphabet are skipped, a pad sequence completing a quad ends
    the input, and a quad left incomplete is an error. *)
Fixpoint a2b_loop (quad_pos leftchar pads : nat) (s : string) : option string :=
  match s with
  | EmptyString => if quad_pos =? 0 then Some EmptyString else None
  | String c r =>
      if Ascii.eqb c "="%char then
        if 2 <=? quad_pos then
          if 4 <=? quad_pos + S pads then Some EmptyString
          else a2b_loop quad_pos leftchar (S pads) r
        else a2b_loop quad_pos leftchar pads r
      else
        match b64_index c with
        | None => a2b_loop quad_pos leftchar pads r
        | Some d =>
            match quad_pos with
            | 0 => a2b_loop 1 d 0 r
            | 1 => cons_byte ((leftchar * 4 + d / 16) mod 256) (a2b_loop 2 (d mod 16) 0 r)
            | 2 => cons_byte ((leftchar * 16 + d / 4) mod 256) (a2b_loop 3 (d mod 4) 0 r)
            | _ => cons_byte ((leftchar * 64 + d) mod 256) (a2b_loop 0 0 0 r)
            end
        end
  end.

Fixpoint map_string (f : ascii -> ascii) (s : string) : string :=
  match s with
  | EmptyString => EmptyString
  | String c r => String (f c) (map_string f r)
  end.

Fixpoint is_ascii_str (s : string) : bool :=
  match s with
  | EmptyString => true
  | String c r => (nat_of_ascii c <? 128) && is_ascii_str r
  end.

Definition swap_char (from to : ascii) (c : ascii) : ascii :=
  if Ascii.eqb c from then to else c.

(** [base64.b64encode] / [b64decode(s)] on a [str] (which must be ASCII). *)
Definition b64encode (b : string) : string := b2a_base64 b.

Definition b64decode (s : string) : option string :=
  if is_ascii_str s then a2b_loop 0 0 0 s else None.

(** [base64.urlsafe_b64encode] / [urlsafe_b64decode]: [+/] become [-_]. *)
Definition urlsafe_b64encode (b : string) : string :=
  map_string (fun c => swap_char "/"%char "_"%char (swap_char "+"%char "-"%char c)) (b64encode b).

Definition urlsafe_b64decode (s : string) : option string :=
  if is_ascii_str s then
    b64decode (map_string (fun c => swap_char "_"%char "/"%char (swap_char "-"%char "+"%char c)) s)
  else None.

(* ================================================================== *)
(** ** The cursor protocol ([query.py]) *)

Record Cursor : Type := mkCursor {
  last_key : dict pyval;
  index : option string;
  sort : option string
}.

(** [_ensure_single_key_map] *)
Definition ensure_single_key_map (v : pyval) : option (string * pyval) :=
  match v with
  | PDict [(k, inner)] => Some (k, inner)
  | _ => None
  end.

Definition is_pstr (v : pyval) : bool := match v with PStr _ => true | _ => false end.
Definition is_pbytes (v : pyval) : bool := match v with PBytes _ => true | _ => false end.

(** Convert every value of a dict, failing if one fails. *)
Fixpoint map_items {A B} (f : A -> option B) (d : dict A) : option (dict B) :=
  match d with
  | [] => Some []
  | (k, x) :: r =>
      match f x, map_items f r with
      | Some y, Some r' => Some ((k, y) :: r')
      | _, _ => None
      end
  end.

Fixpoint map_opt {A B} (f : A -> option B) (l : list A) : option (list B) :=
  match l with
  | [] => Some []
  | x :: r =>
      match f x, map_opt f r with
      | Some y, Some r' => Some (y :: r')
      | _, _ => None
      end
  end.

(** [_av_to_json]; [None] is the [ValueError] of a malformed value.  For a
    map, every entry is converted and the result ordered by key; with
    distinct keys this is the dict the source builds by converting in
    sorted key order. *)
Fixpoint av_to_json (av : pyval) : option pyval :=
  match av with
  | PDict [(kind, value)] =>
      if String.eqb kind "S" || String.eqb kind "N" then
        if is_pstr value then Some (PDict [(kind, value)]) else None
      else if String.eqb kind "B" then
        match value with PBytes b => Some (PDict [("B", PStr (b64encode b))]) | _ => None end
      else if String.eqb kind "BOOL" then
        match value with PBool _ => Some (PDict [("BOOL", value)]) | _ => None end
      else if String.eqb kind "NULL" then
        match value with PBool true => Some (PDict [("NULL", PBool true)]) | _ => None end
      else if String.eqb kind "SS" || String.eqb kind "NS" then
        match value with
        | PList l => if forallb is_pstr l then Some (PDict [(kind, value)]) else None
        | _ => None
        end
      else if String.eqb kind "BS" then
        match value with
        | PList l =>
            if forallb is_pbytes l then
              Some (PDict [("BS", PList (map (fun x => match x with
                                                       | PBytes b => PStr (b64encode b)
                                                       | _ => x
                                                       end) l))])
            else None
        | _ => None
        end
      else if String.eqb kind "L" then
        match value with
        | PList l =>
            match (fix go (l : list pyval) : option (list pyval) :=
                     match l with
                     | [] => Some []
                     | x :: r => match av_to_json x, go r with
                                 | Some y, Some r' => Some (y :: r')
                                 | _, _ => None
                                 end
                     end) l with
            | Some l' => Some (PDict [("L", PList l')])
            | None => None
            end
        | _ => None
        end
      else if String.eqb kind "M" then
        match value with
        | PDict d =>
            match (fix go (d : dict pyval) : option (dict pyval) :=
                     match d with
                     | [] => Some []
                     | (k, x) :: r => match av_to_json x, go r with
                                      | Some y, Some r' => Some ((k, y) :: r')
                                      | _, _ => None
                                      end
                     end) d with
            | Some d' => Some (PDict [("M", PDict (sort_items d'))])
            | None => None
            end
        | _ => None
        end
      else None
  | _ => None
  end.

(** [_av_from_json] *)
Fixpoint av_from_json (enc : pyval) : option pyval :=
  match enc with
  | PDict [(kind, value)] =>
      if String.eqb kind "S" || String.eqb kind "N" then
        if is_pstr value then Some (PDict [(kind, value)]) else None
      else if String.eqb kind "B" then
        match value with
        | PStr s => match b64decode s with Some b => Some (PDict [("B", PBytes b)]) | None => None end
        | _ => None
        end
      else if String.eqb kind "BOOL" then
        match value with PBool _ => Some (PDict [("BOOL", value)]) | _ => None end
      else if String.eqb kind "NULL" then
        match value with PBool true => Some (PDict [("NULL", PBool true)]) | _ => None end
      else if String.eqb kind "SS" || String.eqb kind "NS" then
        match value with
        | PList l => if forallb is_pstr l then Some (PDict [(kind, value)]) else None
        | _ => None
        end
      else if String.eqb kind "BS" then
        match value with
        | PList l =>
            if forallb is_pstr l then
              match map_opt (fun x => match x with
                                      | PStr s => match b64decode s with
                                                  | Some b => Some (PBytes b)
                                                  | None => None
                                                  end
                                      | _ => None
                                      end) l with
              | Some l' => Some (PDict [("BS", PList l')])
              | None => None
              end
            else None
        | _ => None
        end
      else if String.eqb kind "L" then
        match value with
        | PList l =>
            match (fix go (l : list pyval) : option (list pyval) :=
                     match l with
                     | [] => Some []
                     | x :: r => match av_from_json x, go r with
                                 | Some y, Some r' => Some (y :: r')
                                 | _, _ => None
                                 end
                     end) l with
            | Some l' => Some (PDict [("L", PList l')])
            | None => None
            end
        | _ => None
        end
      else if String.eqb kind "M" then
        match value with
        | PDict d =>
            match (fix go (d : dict pyval) : option (dict pyval) :=
                     match d with
                     | [] => Some []
                     | (k, x) :: r => match av_from_json x, go r with
                                      | Some y, Some r' => Some ((k, y) :: r')
                                      | _, _ => None
                                      end
                     end) d with
            | Some d' => Some (PDict [("M", PDict (sort_items d'))])
            | None => None
            end
        | _ => None
        end
      else None
  | _ => None
  end.

Definition lastkey_field : string := String dq ("lastKey" ++ String dq ":").
Definition index_field : string := String dq ("index" ++ String dq ":").
Definition sort_field : string := String dq ("sort" ++ String dq ":").

(** [encode_cursor(last_key, index=..., sort=...)] *)
Definition encode_cursor (last_key : pyval) (index sort : option string) : result string :=
  if negb (py_truthy last_key) then Ok EmptyString
  else
    match last_key with
    | PDict d =>
        lk <- of_option (ValueError "attribute value") (map_items av_to_json d) ;;
        dumped <- of_option (TypeError "json.dumps") (dumps (PDict (sort_items lk))) ;;
        let parts :=
          app [lastkey_field ++ dumped]
            (app (match index with Some i => [index_field ++ dumps_str i] | None => [] end)
                 (match sort with Some s => [sort_field ++ dumps_str s] | None => [] end)) in
        let payload := "{" ++ String.concat "," parts ++ "}" in
        Ok (urlsafe_b64encode payload)
    | _ => Err (ValueError "last_key must be a map")
    end.

(** [str.strip()] removes, at both ends, the characters for which
    [str.isspace()] holds: [\t\n\x0b\x0c\r], [\x1c]-[\x1f], space,
    U+0085, U+00A0, U+1680, U+2000-U+200A, U+2028, U+2029, U+202F, U+205F
    and U+3000.  A [str] is held as its UTF-8 bytes, so that these characters
    are the one-byte, two-byte and three-byte sequences below. *)
Definition is_py_space (c : ascii) : bool :=
  let n := nat_of_ascii c in ((9 <=? n) && (n <=? 13)) || ((28 <=? n) && (n <=? 32)).

(** U+0085 and U+00A0. *)
Definition is_py_space2 (c1 c2 : ascii) : bool :=
  (nat_of_ascii c1 =? 194) && ((nat_of_ascii c2 =? 133) || (nat_of_ascii c2 =? 160)).

(** U+1680, U+2000-U+200A, U+2028, U+2029, U+202F, U+205F and U+3000. *)
Definition is_py_space3 (c1 c2 c3 : ascii) : bool :=
  let n1 := nat_of_ascii c1 in
  let n2 := nat_of_ascii c2 in
  let n3 := nat_of_ascii c3 in
  ((n1 =? 225) && (n2 =? 154) && (n3 =? 128))
  || ((n1 =? 226) && (n2 =? 128)
      && (((128 <=? n3) && (n3 <=? 138)) || (n3 =? 168) || (n3 =? 169) || (n3 =? 175)))
  || ((n1 =? 226) && (n2 =? 129) && (n3 =? 159))
  || ((n1 =? 227) && (n2 =? 128) && (n3 =? 128)).

(** Drops the whitespace at the front of a byte string, the multi-byte
    characters recognised by [sp2] and [sp3]. *)
Fixpoint lstrip_with (sp2 : ascii -> ascii -> bool) (sp3 : ascii -> ascii -> ascii -> bool)
    (s : string) : string :=
  match s with
  | String c r =>
      if is_py_space c then lstrip_with sp2 sp3 r
      else match r with
           | String c2 r2 =>
               if sp2 c c2 then lstrip_with sp2 sp3 r2
               else match r2 with
                    | String c3 r3 => if sp3 c c2 c3 then lstrip_with sp2 sp3 r3 else s
                    | EmptyString => s
                    end
           | EmptyString => s
           end
  | EmptyString => s
  end.

Definition lstrip (s : string) : string := lstrip_with is_py_space2 is_py_space3 s.

(** The same on the bytes of a string in reverse order, where a multi-byte
    character appears with its bytes reversed. *)
Definition lstrip_rev (s : string) : string :=
  lstrip_with (fun c1 c2 => is_py_space2 c2 c1) (fun c1 c2 c3 => is_py_space3 c3 c2 c1) s.

Fixpoint rev_str (s : string) (acc : string) : string :=
  match s with
  | String c r => rev_str r (String c acc)
  | EmptyString => acc
  end.

Definition strip (s : string) : string :=
  rev_str (lstrip_rev (rev_str (lstrip s) EmptyString)) EmptyString.

(** The code points of the characters [str.strip()] removes, and the UTF-8
    bytes of a [str] given by its code points (below U+10000). *)
Definition py_whitespace : list Z :=
  [9; 10; 11; 12; 13; 28; 29; 30; 31; 32; 133; 160; 5760;
   8192; 8193; 8194; 8195; 8196; 8197; 8198; 8199; 8200; 8201; 8202;
   8232; 8233; 8239; 8287; 12288]%Z.

Definition utf8_char (cp : Z) : string :=
  let byte (z : Z) := ascii_of_nat (Z.to_nat z) in
  if (cp <? 128)%Z then String (byte cp) EmptyString
  else if (cp <? 2048)%Z then
    String (byte (192 + cp / 64)%Z) (String (byte (128 + cp mod 64)%Z) EmptyString)
  else
    String (byte (224 + cp / 4096)%Z)
      (String (byte (128 + (cp / 64) mod 64)%Z) (String (byte (128 + cp mod 64)%Z) EmptyString)).

Fixpoint utf8_str (cps : list Z) : string :=
  match cps with
  | [] => EmptyString
  | cp :: r => utf8_char cp ++ utf8_str r
  end.

Fixpoint repeat_char (c : ascii) (n : nat) : string :=
  match n with O => EmptyString | S k => String c (repeat_char c k) end.

(** [decode_cursor(cursor)] *)
Definition decode_cursor (cursor : string) : result Cursor :=
  let raw := strip cursor in
  if String.eqb raw "" then Err (ValueError "cursor is empty")
  else
    let padding := repeat_char "="%char ((4 - String.length raw mod 4) mod 4) in
    data <- of_option (ValueError "invalid base64") (urlsafe_b64decode (raw ++ padding)) ;;
    parsed <- of_option (ValueError "invalid json") (json_loads data) ;;
    match parsed with
    | PDict p =>
        match dict_get p "lastKey" with
        | Some (PDict lk) =>
            items <- of_option (ValueError "attribute value") (map_items av_from_json lk) ;;
            let idx := match dict_get p "index" with Some (PStr i) => Some i | _ => None end in
            srt <- match dict_get p "sort" with
                   | Some (PStr s) =>
                       Ok (if String.eqb s "ASC" || String.eqb s "DESC" then Some s else None)
                   | Some (PList _) | Some (PDict _) => Err (TypeError "unhashable type")
                   | _ => Ok None
                   end ;;
            Ok (mkCursor (sort_items items) idx srt)
        | _ => Err (ValueError "cursor lastKey is invalid")
        end
    | _ => Err (ValueError "cursor must decode to an object")
    end.

(* ================================================================== *)
(** ** Encrypted attributes ([encryption.py]) *)

(** [_aad(attr_name)] *)
Definition aad (attr_name : string) : string := "theorydb:encrypted:v1|attr=" ++ attr_name.

(** [str(x)] for the values whose text the modelled code prints (the
    [repr] of a container is not modelled). *)
Definition py_str (v : pyval) : string :=
  match v with
  | PNone => "None"
  | PBool true => "True"
  | PBool false => "False"
  | PInt z => str_of_Z z
  | PStr s => s
  | _ => "<object>"
  end.

(** [int(x)]: an int, a bool, a float or Decimal (truncated toward zero),
    or a str holding an optionally signed run of decimal digits between
    whitespace (digit separators [_] are not modelled); [None] is the
    exception [int] raises. *)
Definition int_of_str (s : string) : option Z :=
  let t := strip s in
  let '(neg, d) := match t with
                   | String c r =>
                       if Ascii.eqb c "-"%char then (true, r)
                       else if Ascii.eqb c "+"%char then (false, r)
                       else (false, t)
                   | EmptyString => (false, t)
                   end in
  let (digits, rest) := take_digits d in
  if String.eqb digits "" || negb (String.eqb rest "") then None
  else Some (if neg then (- Z_of_digits digits)%Z else Z_of_digits digits).

Definition py_int (v : pyval) : option Z :=
  match v with
  | PInt z => Some z
  | PBool b => Some (if b then 1%Z else 0%Z)
  | PFloat q => Some (Z.quot (Qnum q) (Zpos (Qden q)))
  | PStr s => int_of_str s
  | _ => None
  end.

Definition map_result {A B} (f : A -> result B) : list A -> result (list B) :=
  fix go (l : list A) : result (list B) :=
    match l with
    | [] => Ok []
    | x :: r => y <- f x ;; r' <- go r ;; Ok (y :: r')
    end.

(** The values of a dict in key order, stopping at the first failure: the
    dict comprehension [{k: f(value[k]) for k in sorted(value.keys())}]. *)
Definition sequence_items {A} (d : dict (result A)) : result (dict A) :=
  map_result (fun '(k, r) => x <- r ;; Ok (k, x)) (sort_items d).

(** [marshal_attribute_value_json] *)
Fixpoint marshal (av : pyval) : result pyval :=
  match av with
  | PDict [(kind, value)] =>
      if String.eqb kind "S" then
        match value with PStr _ => Ok (PDict [("t", PStr "S"); ("s", value)])
                    | _ => Err (ValidationError "marshal: S must be a string") end
      else if String.eqb kind "N" then
        match value with PStr _ => Ok (PDict [("t", PStr "N"); ("n", value)])
                    | _ => Err (ValidationError "marshal: N must be a string") end
      else if String.eqb kind "B" then
        match value with PBytes b => Ok (PDict [("t", PStr "B"); ("b", PStr (b64encode b))])
                    | _ => Err (ValidationError "marshal: B must be bytes") end
      else if String.eqb kind "BOOL" then
        match value with PBool _ => Ok (PDict [("t", PStr "BOOL"); ("bool", value)])
                    | _ => Err (ValidationError "marshal: BOOL must be bool") end
      else if String.eqb kind "NULL" then
        match value with PBool true => Ok (PDict [("t", PStr "NULL"); ("null", PBool true)])
                    | _ => Err (ValidationError "marshal: NULL must be true") end
      else if String.eqb kind "SS" then
        match value with
        | PList l => if forallb is_pstr l then Ok (PDict [("t", PStr "SS"); ("ss", value)])
                     else Err (ValidationError "marshal: SS must be list[str]")
        | _ => Err (ValidationError "marshal: SS must be list[str]")
        end
      else if String.eqb kind "NS" then
        match value with
        | PList l => if forallb is_pstr l then Ok (PDict [("t", PStr "NS"); ("ns", value)])
                     else Err (ValidationError "marshal: NS must be list[str]")
        | _ => Err (ValidationError "marshal: NS must be list[str]")
        end
      else if String.eqb kind "BS" then
        match value with
        | PList l =>
            if forallb is_pbytes l then
              Ok (PDict [("t", PStr "BS");
                         ("bs", PList (map (fun x => match x with
                                                     | PBytes b => PStr (b64encode b)
                                                     | _ => x
                                                     end) l))])
            else Err (ValidationError "marshal: BS must be list[bytes]")
        | _ => Err (ValidationError "marshal: BS must be list[bytes]")
        end
      else if String.eqb kind "L" then
        match value with
        | PList l =>
            l' <- (fix go (l : list pyval) : result (list pyval) :=
                     match l with
                     | [] => Ok []
                     | x :: r => y <- marshal x ;; r' <- go r ;; Ok (y :: r')
                     end) l ;;
            Ok (PDict [("t", PStr "L"); ("l", PList l')])
        | _ => Err (ValidationError "marshal: L must be list")
        end
      else if String.eqb kind "M" then
        match value with
        | PDict d =>
            d' <- sequence_items ((fix go (d : dict pyval) : dict (result pyval) :=
                                     match d with
                                     | [] => []
                                     | (k, x) :: r => (k, marshal x) :: go r
                                     end) d) ;;
            Ok (PDict [("t", PStr "M"); ("m", PDict d')])
        | _ => Err (ValidationError "marshal: M must be map")
        end
      else Err (ValidationError ("marshal: unsupported attribute value type: " ++ kind))
  | _ => Err (ValidationError "marshal: attribute value must be a single-key map")
  end.

(** [unmarshal_attribute_value_json].  A nested value is found by key
    lookup, not as a syntactic subterm, so the recursion runs on a depth
    bound; [decrypt_attribute_value] gives the length of the JSON text,
    which exceeds the nesting depth of any value parsed from it. *)
Fixpoint unmarshal (depth : nat) (enc : pyval) : result pyval :=
  match depth with
  | O => Err (ValueError "maximum recursion depth exceeded")
  | S depth =>
  match enc with
  | PDict e =>
      match dict_get e "t" with
      | None => Err (ValidationError "unmarshal: encoded attribute value must be a map with t")
      | Some kind =>
          let field f := match dict_get e f with Some x => x | None => PNone end in
          match kind with
          | PStr "S" =>
              match field "s" with PStr s => Ok (PDict [("S", PStr s)])
                              | _ => Err (ValidationError "unmarshal: S must be a string") end
          | PStr "N" =>
              match field "n" with PStr s => Ok (PDict [("N", PStr s)])
                              | _ => Err (ValidationError "unmarshal: N must be a string") end
          | PStr "B" =>
              match field "b" with
              | PStr s => match b64decode s with
                          | Some b => Ok (PDict [("B", PBytes b)])
                          | None => Err (ValidationError "unmarshal: invalid base64 in B")
                          end
              | _ => Err (ValidationError "unmarshal: B must be base64 string")
              end
          | PStr "BOOL" =>
              match field "bool" with PBool b => Ok (PDict [("BOOL", PBool b)])
                                 | _ => Err (ValidationError "unmarshal: BOOL must be bool") end
          | PStr "NULL" =>
              match field "null" with PBool true => Ok (PDict [("NULL", PBool true)])
                                 | _ => Err (ValidationError "unmarshal: NULL must be true") end
          | PStr "SS" =>
              match field "ss" with
              | PList l => if forallb is_pstr l then Ok (PDict [("SS", PList l)])
                           else Err (ValidationError "unmarshal: SS must be list[str]")
              | _ => Err (ValidationError "unmarshal: SS must be list[str]")
              end
          | PStr "NS" =>
              match field "ns" with
              | PList l => if forallb is_pstr l then Ok (PDict [("NS", PList l)])
                           else Err (ValidationError "unmarshal: NS must be list[str]")
              | _ => Err (ValidationError "unmarshal: NS must be list[str]")
              end
          | PStr "BS" =>
              match field "bs" with
              | PList l =>
                  if forallb is_pstr l then
                    match map_opt (fun x => match x with
                                            | PStr s => match b64decode s with
                                                        | Some b => Some (PBytes b)
                                                        | None => None
                                                        end
                                            | _ => None
                                            end) l with
                    | Some l' => Ok (PDict [("BS", PList l')])
                    | None => Err (ValidationError "unmarshal: invalid base64 in BS")
                    end
                  else Err (ValidationError "unmarshal: BS must be list[str]")
              | _ => Err (ValidationError "unmarshal: BS must be list[str]")
              end
          | PStr "L" =>
              match field "l" with
              | PList l =>
                  l' <- (fix go (l : list pyval) : result (list pyval) :=
                           match l with
                           | [] => Ok []
                           | x :: r => y <- unmarshal depth x ;; r' <- go r ;; Ok (y :: r')
                           end) l ;;
                  Ok (PDict [("L", PList l')])
              | _ => Err (ValidationError "unmarshal: L must be list")
              end
          | PStr "M" =>
              match field "m" with
              | PDict d =>
                  d' <- sequence_items ((fix go (d : dict pyval) : dict (result pyval) :=
                                           match d with
                                           | [] => []
                                           | (k, x) :: r => (k, unmarshal depth x) :: go r
                                           end) d) ;;
                  Ok (PDict [("M", PDict d')])
              | _ => Err (ValidationError "unmarshal: M must be map")
              end
          | _ => Err (ValidationError ("unmarshal: unsupported encoded attribute value type: " ++ py_str kind))
          end
      end
  | _ => Err (ValidationError "unmarshal: encoded attribute value must be a map with t")
  end
  end.

(** A botocore [ClientError]: the [Error] map of its response, the
    [CancellationReasons] list of a cancelled transaction, and the name of
    the operation that failed. *)
Record ClientError : Type := mkClientError {
  error_code : string;
  error_message : string;
  cancellation_reasons : list pyval;
  operation_name : string
}.

(** [str(err)] of a [ClientError]. *)
Definition client_error_str (err : ClientError) : string :=
  "An error occurred (" ++ (if String.eqb (error_code err) "" then "Unknown" else error_code err)
  ++ ") when calling the " ++ operation_name err ++ " operation: "
  ++ (if String.eqb (error_message err) "" then "Unknown" else error_message err).

(** The replies of the KMS client. *)
Inductive kms_generate_reply : Type :=
| KmsDataKey (plaintext ciphertext_blob : pyval)
| KmsGenerateFailed (err : ClientError).

Inductive kms_decrypt_reply : Type :=
| KmsPlaintext (plaintext : pyval)
| KmsDecryptFailed (err : ClientError).

Section Encryption.
(** The KMS client, the random source and AES-GCM.  [aesgcm_encrypt key
    nonce data aad] is [None] when [AESGCM(key)] refuses the key;
    [aesgcm_decrypt] is [None] when [AESGCM(key).decrypt] raises (a bad key
    or a failed authentication, [InvalidTag]). *)
Variable kms_generate_data_key : string -> kms_generate_reply.
Variable kms_decrypt : string -> string -> kms_decrypt_reply.
Variable rand_bytes : nat -> string.
Variable aesgcm_encrypt : string -> string -> string -> string -> option string.
Variable aesgcm_decrypt : string -> string -> string -> string -> option string.

Definition kms_error (default : string) (err : ClientError) : py_error :=
  AwsError (if String.eqb (error_code err) "" then default else error_code err)
           (if String.eqb (error_message err) "" then client_error_str err else error_message err).

(** [encrypt_attribute_value(av, attr_name=..., kms_key_arn=...)]; the
    envelope is returned as a dict. *)
Definition encrypt_attribute_value (av : pyval) (attr_name kms_key_arn : string) : result (dict pyval) :=
  match kms_generate_data_key kms_key_arn with
  | KmsGenerateFailed err => Err (kms_error "KMSGenerateDataKeyError" err)
  | KmsDataKey (PBytes dek) (PBytes edk) =>
      m <- marshal av ;;
      plaintext <- of_option (TypeError "json.dumps") (dumps m) ;;
      let nonce := rand_bytes 12 in
      ct <- of_option (ValueError "AESGCM key must be 128, 192, or 256 bits.")
              (aesgcm_encrypt dek nonce plaintext (aad attr_name)) ;;
      Ok [("v", PInt 1); ("edk", PBytes edk); ("nonce", PBytes nonce); ("ct", PBytes ct)]
  | KmsDataKey _ _ => Err (ValidationError "kms GenerateDataKey returned invalid key types")
  end.

(** [_as_bytes(value, field=...)] ([Binary] is held as bytes). *)
Definition as_bytes (value : option pyval) (field : string) : result string :=
  match value with
  | Some (PBytes b) => Ok b
  | _ => Err (ValidationError ("encrypted envelope field is not bytes: " ++ field))
  end.

(** [decrypt_attribute_value(envelope, attr_name=..., kms_key_arn=...)] *)
Definition decrypt_attribute_value (envelope : dict pyval) (attr_name kms_key_arn : string) : result pyval :=
  version_int <- match dict_get envelope "v" with
                 | None | Some PNone => Err (ValidationError "encrypted envelope is missing v")
                 | Some version => of_option (ValidationError "encrypted envelope is missing v") (py_int version)
                 end ;;
  if negb (Z.eqb version_int 1) then
    Err (ValidationError ("unsupported encrypted envelope version: " ++ str_of_Z version_int))
  else
    edk <- as_bytes (dict_get envelope "edk") "edk" ;;
    nonce <- as_bytes (dict_get envelope "nonce") "nonce" ;;
    ct <- as_bytes (dict_get envelope "ct") "ct" ;;
    match kms_decrypt edk kms_key_arn with
    | KmsDecryptFailed err => Err (kms_error "KMSDecryptError" err)
    | KmsPlaintext (PBytes dek) =>
        match aesgcm_decrypt dek nonce ct (aad attr_name) with
        | None => Err (ValidationError "failed to decrypt encrypted envelope")
        | Some plaintext =>
            match json_loads plaintext with
            | None => Err (ValidationError "failed to parse decrypted attribute payload")
            | Some enc => unmarshal (String.length plaintext) enc
            end
        end
    | KmsPlaintext _ => Err (ValidationError "kms Decrypt returned invalid key types")
    end.

End Encryption.

(* ================================================================== *)
(** ** Errors of the AWS client ([aws_errors.py]) *)

(** [map_client_error(err)] *)
Definition map_client_error (err : ClientError) : py_error :=
  let code := error_code err in
  let message := error_message err in
  if String.eqb code "ConditionalCheckFailedException" then ConditionFailedError message
  else if String.eqb code "ValidationException" then ValidationError message
  else if String.eqb code "ResourceNotFoundException" then NotFoundError message
  else AwsError (if String.eqb code "" then "UnknownError" else code)
                (if String.eqb message "" then client_error_str err else message).

(** [needle in haystack] on strings. *)
Fixpoint str_contains (needle hay : string) : bool :=
  String.prefix needle hay ||
  match hay with
  | EmptyString => false
  | String _ r => str_contains needle r
  end.

(** The [reason_codes] of a cancellation: [str(reason.get("Code"))] of every
    reason that is a dict with a truthy [Code]. *)
Definition reason_codes (reasons : list pyval) : list string :=
  flat_map (fun reason =>
              match reason with
              | PDict d =>
                  match dict_get d "Code" with
                  | Some c => if py_truthy c then [py_str c] else []
                  | None => []
                  end
              | _ => []
              end) reasons.

(** [map_transaction_error(err)] *)
Definition map_transaction_error (err : ClientError) : py_error :=
  let code := error_code err in
  let message := error_message err in
  if String.eqb code "TransactionCanceledException" then
    let codes := reason_codes (cancellation_reasons err) in
    if existsb (fun rc => String.eqb rc "ConditionalCheckFailed") codes
       || str_contains "ConditionalCheckFailed" message then
      ConditionFailedError (if String.eqb message "" then "transaction canceled: ConditionalCheckFailed" else message)
    else TransactionCanceledError (if String.eqb message "" then "transaction canceled" else message) codes
  else map_client_error err.

(* ================================================================== *)
(** ** Models ([model.py]) and item conversion ([table.py]) *)

Record AttributeDefinition : Type := mkAttributeDefinition {
  python_name : string;
  attribute_name : string;
  roles : list string;
  omitempty : bool;
  set : bool;
  json : bool;
  binary : bool;
  encrypted : bool
}.

(** [attributes] maps each dataclass field name to its definition, in field
    order. *)
Record ModelDefinition : Type := mkModelDefinition {
  model_table_name : option string;
  pk : AttributeDefinition;
  sk : option AttributeDefinition;
  attributes : dict AttributeDefinition
}.

(** [_is_empty(value)]; [value == 0] holds of [False], [0] and [0.0]. *)
Definition is_empty (value : pyval) : bool :=
  match value with
  | PNone => true
  | PBool false => true
  | _ =>
      if match value with
         | PBool b => negb b
         | PInt z => Z.eqb z 0
         | PFloat q => Qeq_bool q 0
         | _ => false
         end then true
      else match value with
           | PStr s | PBytes s => String.eqb s ""
           | PList l | PTuple l | PSet l => match l with [] => true | _ => false end
           | PDict d => match d with [] => true | _ => false end
           | _ => false
           end
  end.

(** A dataclass instance: the value of each field ([getattr(item, f)]). *)
Definition Item : Type := string -> pyval.

Section TableOps.
(** The table's model and name, and the serializers it uses:
    [_serialize_attr_value] (converters, JSON fields, encryption, and
    boto3's [TypeSerializer]) and [TypeSerializer().serialize]. *)
Variable model : ModelDefinition.
Variable table_name : string.
Variable serialize_attr_value : AttributeDefinition -> pyval -> result pyval.
Variable serialize : pyval -> result pyval.

Fixpoint to_item_loop (attrs : dict AttributeDefinition) (item : Item) (out : dict pyval) : result (dict pyval) :=
  match attrs with
  | [] => Ok out
  | (field_name, attr_def) :: rest =>
      let value := item field_name in
      if omitempty attr_def && is_empty value then to_item_loop rest item out
      else av <- serialize_attr_value attr_def value ;;
           to_item_loop rest item (dict_set out (attribute_name attr_def) av)
  end.

(** [Table._to_item(item)] *)
Definition to_item (item : Item) : result (dict pyval) :=
  out <- to_item_loop (attributes model) item [] ;;
  match dict_get out (attribute_name (pk model)) with
  | None => Err (ValidationError "missing pk")
  | Some _ =>
      match sk model with
      | Some s => match dict_get out (attribute_name s) with
                  | None => Err (ValidationError "missing sk")
                  | Some _ => Ok out
                  end
      | None => Ok out
      end
  end.

(** [Table._to_key(pk, sk)]; [PNone] is an absent sort key. *)
Definition to_key (pk_value sk_value : pyval) : result (dict pyval) :=
  match pk_value with
  | PNone => Err (ValidationError "pk is required")
  | _ =>
      match sk model, sk_value with
      | None, PNone =>
          a <- serialize_attr_value (pk model) pk_value ;; Ok [(attribute_name (pk model), a)]
      | None, _ => Err (ValidationError "model does not define sk")
      | Some _, PNone => Err (ValidationError "sk is required")
      | Some s, _ =>
          a <- serialize_attr_value (pk model) pk_value ;;
          b <- serialize_attr_value s sk_value ;;
          Ok (dict_set [(attribute_name (pk model), a)] (attribute_name s) b)
      end
  end.

(** [Table._serialize_values(values)] *)
Definition serialize_values (values : dict pyval) : result (dict pyval) :=
  map_result (fun '(k, v) => x <- serialize v ;; Ok (k, x)) values.

Definition is_key_field (field_name : string) : bool :=
  String.eqb field_name (python_name (pk model))
  || match sk model with Some s => String.eqb field_name (python_name s) | None => false end.

(** An UpdateItem request. *)
Record UpdateRequest : Type := mkUpdateRequest {
  ur_table_name : string;
  ur_key : dict pyval;
  ur_update_expression : string;
  ur_names : dict string;
  ur_values : option (dict pyval);
  ur_return_values : option string;
  ur_condition_expression : option string
}.

Definition truthy_str (s : option string) : option string :=
  match s with Some x => if String.eqb x "" then None else Some x | None => None end.

(** The [for field_name, value in updates.items()] loop of
    [Table._build_update_request]. *)
Fixpoint build_update_loop (updates : dict pyval) (update_names : dict string) (update_values : dict pyval)
    (set_parts remove_parts : list string) : result (dict string * dict pyval * list string * list string) :=
  match updates with
  | [] => Ok (update_names, update_values, set_parts, remove_parts)
  | (field_name, value) :: rest =>
      match dict_get (attributes model) field_name with
      | None => Err (ValidationError ("unknown field: " ++ field_name))
      | Some attr_def =>
          if is_key_field field_name then Err (ValidationError ("cannot update key field: " ++ field_name))
          else
            let name_ref := "#d_" ++ field_name in
            let update_names := dict_set update_names name_ref (attribute_name attr_def) in
            match value with
            | PNone => build_update_loop rest update_names update_values set_parts (app remove_parts [name_ref])
            | _ =>
                let value_ref := ":d_" ++ field_name in
                av <- serialize_attr_value attr_def value ;;
                build_update_loop rest update_names (dict_set update_values value_ref av)
                  (app set_parts [name_ref ++ " = " ++ value_ref]) remove_parts
            end
      end
  end.

(** Add caller-supplied names (or values) to a request's, refusing a key
    already present. *)
Fixpoint merge_new {A} (what : string) (acc : dict A) (extra : dict A) : result (dict A) :=
  match extra with
  | [] => Ok acc
  | (k, v) :: rest =>
      match dict_get acc k with
      | Some _ => Err (ValidationError ("expression attribute " ++ what ++ " collision: " ++ k))
      | None => merge_new what (dict_set acc k v) rest
      end
  end.

(** [Table._build_update_request(pk, sk, updates, ...)] *)
Definition build_update_request (pk_value sk_value : pyval) (updates : dict pyval)
    (condition_expression : option string) (expression_attribute_names : dict string)
    (expression_attribute_values : dict pyval) (return_values : option string) : result UpdateRequest :=
  key <- to_key pk_value sk_value ;;
  loop <- build_update_loop updates [] [] [] [] ;;
  let '(update_names, update_values, set_parts, remove_parts) := loop in
  let expr_parts :=
    app (match set_parts with [] => [] | _ => ["SET " ++ String.concat ", " set_parts] end)
        (match remove_parts with [] => [] | _ => ["REMOVE " ++ String.concat ", " remove_parts] end) in
  match expr_parts with
  | [] => Err (ValidationError "no updates provided")
  | _ =>
      names <- merge_new "name" update_names expression_attribute_names ;;
      values <- match expression_attribute_values with
                | [] => Ok (match update_values with [] => None | _ => Some update_values end)
                | _ => serialized <- serialize_values expression_attribute_values ;;
                       v <- merge_new "value" update_values serialized ;; Ok (Some v)
                end ;;
      Ok (mkUpdateRequest table_name key (String.concat " " expr_parts) names values
            return_values (truthy_str condition_expression))
  end.

(** The reply of [UpdateItem]: the response dict, or a [ClientError]. *)
Inductive update_reply : Type :=
| UpdateOk (resp : dict pyval)
| UpdateFailed (err : ClientError).

(** The item type of the model and [Table._from_item]. *)
Variable T : Type.
Variable from_item : pyval -> result T.

(** [Table.update(pk, sk, updates, ...)] against the client's
    [update_item]. *)
Definition table_update (update_item : UpdateRequest -> update_reply) (pk_value sk_value : pyval)
    (updates : dict pyval) (condition_expression : option string)
    (expression_attribute_names : dict string) (expression_attribute_values : dict pyval) : result T :=
  req <- build_update_request pk_value sk_value updates condition_expression
           expression_attribute_names expression_attribute_values (Some "ALL_NEW") ;;
  match update_item req with
  | UpdateFailed err => Err (map_client_error err)
  | UpdateOk resp =>
      match dict_get resp "Attributes" with
      | Some attrs => if py_truthy attrs then from_item attrs
                      else Err (ValidationError "update did not return Attributes")
      | None => Err (ValidationError "update did not return Attributes")
      end
  end.

(* ------------------------------------------------------------------ *)
(** *** [UpdateBuilder] ([update_builder.py]) *)

(** The entries of [self._updates], one constructor per kind. *)
Inductive update_op : Type :=
| OpSet (field : string) (value : pyval)
| OpSetIfNotExists (field : string) (default_value : pyval)
| OpAdd (field : string) (value : pyval)
| OpRemove (field : string)
| OpDelete (field : string) (value : pyval)
| OpAppendList (field : string) (values : list pyval)
| OpPrependList (field : string) (values : list pyval)
| OpRemoveListAt (field : string) (index : pyval)
| OpSetListElement (field : string) (index : pyval) (value : pyval).

(** The builder's state: key, [_return_values], [_updates] and
    [_conditions] (each condition is [(logic, field, operator, value)]). *)
Record UpdateBuilder : Type := mkUpdateBuilder {
  ub_pk : pyval;
  ub_sk : pyval;
  ub_return_values : string;
  ub_updates : list update_op;
  ub_conditions : list (string * string * string * pyval)
}.

(** [table.update_builder(pk, sk)] *)
Definition update_builder (pk_value sk_value : pyval) : UpdateBuilder :=
  mkUpdateBuilder pk_value sk_value "NONE" [] [].

Definition push_update (b : UpdateBuilder) (op : update_op) : UpdateBuilder :=
  mkUpdateBuilder (ub_pk b) (ub_sk b) (ub_return_values b) (app (ub_updates b) [op]) (ub_conditions b).

Definition push_condition (b : UpdateBuilder) (c : string * string * string * pyval) : UpdateBuilder :=
  mkUpdateBuilder (ub_pk b) (ub_sk b) (ub_return_values b) (ub_updates b) (app (ub_conditions b) [c]).

Definition ub_set (b : UpdateBuilder) (field : string) (value : pyval) := push_update b (OpSet field value).
Definition ub_set_if_not_exists (b : UpdateBuilder) (field : string) (_value default_value : pyval) :=
  push_update b (OpSetIfNotExists field default_value).
Definition ub_add (b : UpdateBuilder) (field : string) (value : pyval) := push_update b (OpAdd field value).
Definition ub_increment (b : UpdateBuilder) (field : string) := ub_add b field (PInt 1).
Definition ub_decrement (b : UpdateBuilder) (field : string) := ub_add b field (PInt (-1)).
Definition ub_remove (b : UpdateBuilder) (field : string) := push_update b (OpRemove field).
Definition ub_delete (b : UpdateBuilder) (field : string) (value : pyval) := push_update b (OpDelete field value).
Definition ub_append_to_list (b : UpdateBuilder) (field : string) (values : list pyval) :=
  push_update b (OpAppendList field values).
Definition ub_prepend_to_list (b : UpdateBuilder) (field : string) (values : list pyval) :=
  push_update b (OpPrependList field values).
Definition ub_remove_from_list_at (b : UpdateBuilder) (field : string) (index : pyval) :=
  push_update b (OpRemoveListAt field index).
Definition ub_set_list_element (b : UpdateBuilder) (field : string) (index value : pyval) :=
  push_update b (OpSetListElement field index value).
Definition ub_condition (b : UpdateBuilder) (field operator : string) (value : pyval) :=
  push_condition b ("AND", field, operator, value).
Definition ub_or_condition (b : UpdateBuilder) (field operator : string) (value : pyval) :=
  push_condition b ("OR", field, operator, value).
Definition ub_condition_exists (b : UpdateBuilder) (field : string) := ub_condition b field "attribute_exists" PNone.
Definition ub_condition_not_exists (b : UpdateBuilder) (field : string) :=
  ub_condition b field "attribute_not_exists" PNone.
Definition ub_return_values_set (b : UpdateBuilder) (option : string) : UpdateBuilder :=
  mkUpdateBuilder (ub_pk b) (ub_sk b) option (ub_updates b) (ub_conditions b).

(** The local state of [_build_request]: [names], [update_values],
    [condition_values], the four clause lists and the two counters. *)
Record build_state : Type := mkBuildState {
  st_names : dict string;
  st_update_values : dict pyval;
  st_condition_values : dict pyval;
  st_set_parts : list string;
  st_remove_parts : list string;
  st_add_parts : list string;
  st_delete_parts : list string;
  st_update_counter : nat;
  st_condition_counter : nat
}.

Definition St (A : Type) : Type := build_state -> result (A * build_state).
Definition st_ret {A} (a : A) : St A := fun s => Ok (a, s).
Definition st_bind {A B} (m : St A) (k : A -> St B) : St B :=
  fun s => match m s with Ok (a, s') => k a s' | Err e => Err e end.
Definition st_raise {A} (e : py_error) : St A := fun _ => Err e.
Definition st_lift {A} (r : result A) : St A :=
  fun s => match r with Ok a => Ok (a, s) | Err e => Err e end.
Definition st_get : St build_state := fun s => Ok (s, s).
Definition st_modify (f : build_state -> build_state) : St unit := fun s => Ok (tt, f s).

Notation "x <-- m ;;; k" := (st_bind m (fun x => k))
  (at level 61, m at next level, right associativity).

Definition names_setdefault (k v : string) : St unit :=
  st_modify (fun s => match dict_get (st_names s) k with
                      | Some _ => s
                      | None => mkBuildState (dict_set (st_names s) k v) (st_update_values s)
                                  (st_condition_values s) (st_set_parts s) (st_remove_parts s)
                                  (st_add_parts s) (st_delete_parts s) (st_update_counter s)
                                  (st_condition_counter s)
                      end).

Definition push_set (p : string) : St unit :=
  st_modify (fun s => mkBuildState (st_names s) (st_update_values s) (st_condition_values s)
                        (app (st_set_parts s) [p]) (st_remove_parts s) (st_add_parts s)
                        (st_delete_parts s) (st_update_counter s) (st_condition_counter s)).
Definition push_remove (p : string) : St unit :=
  st_modify (fun s => mkBuildState (st_names s) (st_update_values s) (st_condition_values s)
                        (st_set_parts s) (app (st_remove_parts s) [p]) (st_add_parts s)
                        (st_delete_parts s) (st_update_counter s) (st_condition_counter s)).
Definition push_add (p : string) : St unit :=
  st_modify (fun s => mkBuildState (st_names s) (st_update_values s) (st_condition_values s)
                        (st_set_parts s) (st_remove_parts s) (app (st_add_parts s) [p])
                        (st_delete_parts s) (st_update_counter s) (st_condition_counter s)).
Definition push_delete (p : string) : St unit :=
  st_modify (fun s => mkBuildState (st_names s) (st_update_values s) (st_condition_values s)
                        (st_set_parts s) (st_remove_parts s) (st_add_parts s)
                        (app (st_delete_parts s) [p]) (st_update_counter s) (st_condition_counter s)).

Definition nat_str (n : nat) : string := str_of_Z (Z.of_nat n).

(** [update_name_ref(field_name)] *)
Definition update_name_ref (field_name : string) : St (string * AttributeDefinition) :=
  match dict_get (attributes model) field_name with
  | None => st_raise (ValidationError ("unknown field: " ++ field_name))
  | Some attr_def =>
      if is_key_field field_name then st_raise (ValidationError ("cannot update key field: " ++ field_name))
      else let ref := "#u_" ++ field_name in
           _ <-- names_setdefault ref (attribute_name attr_def) ;;; st_ret (ref, attr_def)
  end.

(** [condition_name_ref(field_name)] *)
Definition condition_name_ref (field_name : string) : St (string * AttributeDefinition) :=
  match dict_get (attributes model) field_name with
  | None => st_raise (ValidationError ("unknown field: " ++ field_name))
  | Some attr_def =>
      if encrypted attr_def then
        st_raise (ValidationError ("encrypted fields cannot be used in conditions: " ++ field_name))
      else let ref := "#c_" ++ field_name in
           _ <-- names_setdefault ref (attribute_name attr_def) ;;; st_ret (ref, attr_def)
  end.

(** [update_value_ref] and [raw_value_ref]: the next [:uN] bound to a
    serialized value. *)
Definition new_update_value (serialized : result pyval) : St string :=
  fun s =>
    let n := S (st_update_counter s) in
    let ref := ":u" ++ nat_str n in
    match serialized with
    | Err e => Err e
    | Ok av => Ok (ref, mkBuildState (st_names s) (dict_set (st_update_values s) ref av)
                          (st_condition_values s) (st_set_parts s) (st_remove_parts s)
                          (st_add_parts s) (st_delete_parts s) n (st_condition_counter s))
    end.

Definition update_value_ref (attr_def : AttributeDefinition) (value : pyval) : St string :=
  new_update_value (serialize_attr_value attr_def value).

Definition raw_value_ref (value : pyval) : St string := new_update_value (serialize value).

(** [condition_value_ref(attr_def, value)]: the next [:cN]. *)
Definition condition_value_ref (attr_def : AttributeDefinition) (value : pyval) : St string :=
  fun s =>
    let n := S (st_condition_counter s) in
    let ref := ":c" ++ nat_str n in
    match serialize_attr_value attr_def value with
    | Err e => Err e
    | Ok av => Ok (ref, mkBuildState (st_names s) (st_update_values s)
                          (dict_set (st_condition_values s) ref av) (st_set_parts s)
                          (st_remove_parts s) (st_add_parts s) (st_delete_parts s)
                          (st_update_counter s) n)
    end.

(** [normalize_set(value)]; [set(value)] would also drop duplicates, which
    is not modelled. *)
Definition normalize_set (value : pyval) : pyval :=
  match value with
  | PSet _ => value
  | PList l | PTuple l => PSet l
  | _ => PSet [value]
  end.

(** [isinstance(value, (int, float, Decimal))] ([bool] is an [int]). *)
Definition is_number (value : pyval) : bool :=
  match value with PInt _ | PBool _ | PFloat _ => true | _ => false end.

(** [isinstance(index, int) and index >= 0], with the text [f"{index}"]. *)
Definition list_index (index : pyval) : option string :=
  match index with
  | PInt z => if (0 <=? z)%Z then Some (str_of_Z z) else None
  | PBool b => Some (py_str (PBool b))
  | _ => None
  end.

Definition plain_list_attr (field_name : string) (attr_def : AttributeDefinition) : St unit :=
  if encrypted attr_def then
    st_raise (ValidationError ("encrypted fields cannot be used in list operations: " ++ field_name))
  else if set attr_def || json attr_def || binary attr_def then
    st_raise (ValidationError "list operations require a plain list attribute")
  else st_ret tt.

(** One iteration of [for kind, args in self._updates]. *)
Definition build_op (op : update_op) : St unit :=
  match op with
  | OpSet f value =>
      r <-- update_name_ref f ;;; let '(ref, attr_def) := r in
      v <-- update_value_ref attr_def value ;;; push_set (ref ++ " = " ++ v)
  | OpSetIfNotExists f default_value =>
      r <-- update_name_ref f ;;; let '(ref, attr_def) := r in
      dv <-- update_value_ref attr_def default_value ;;;
      push_set (ref ++ " = if_not_exists(" ++ ref ++ ", " ++ dv ++ ")")
  | OpRemove f =>
      r <-- update_name_ref f ;;; push_remove (fst r)
  | OpAdd f value =>
      r <-- update_name_ref f ;;; let '(ref, attr_def) := r in
      if encrypted attr_def then st_raise (ValidationError ("encrypted fields cannot be used in ADD: " ++ f))
      else if set attr_def then
        v <-- update_value_ref attr_def (normalize_set value) ;;; push_add (ref ++ " " ++ v)
      else if negb (is_number value) then
        st_raise (ValidationError "ADD requires a numeric value for non-set fields")
      else v <-- raw_value_ref value ;;; push_add (ref ++ " " ++ v)
  | OpDelete f value =>
      r <-- update_name_ref f ;;; let '(ref, attr_def) := r in
      if encrypted attr_def then st_raise (ValidationError ("encrypted fields cannot be used in DELETE: " ++ f))
      else if negb (set attr_def) then st_raise (ValidationError "DELETE requires a set field")
      else v <-- update_value_ref attr_def (normalize_set value) ;;; push_delete (ref ++ " " ++ v)
  | OpAppendList f values =>
      r <-- update_name_ref f ;;; let '(ref, attr_def) := r in
      _ <-- plain_list_attr f attr_def ;;;
      vref <-- raw_value_ref (PList values) ;;;
      push_set (ref ++ " = list_append(" ++ ref ++ ", " ++ vref ++ ")")
  | OpPrependList f values =>
      r <-- update_name_ref f ;;; let '(ref, attr_def) := r in
      _ <-- plain_list_attr f attr_def ;;;
      vref <-- raw_value_ref (PList values) ;;;
      push_set (ref ++ " = list_append(" ++ vref ++ ", " ++ ref ++ ")")
  | OpRemoveListAt f index =>
      r <-- update_name_ref f ;;; let '(ref, attr_def) := r in
      _ <-- plain_list_attr f attr_def ;;;
      match list_index index with
      | None => st_raise (ValidationError "list index must be a non-negative integer")
      | Some i => push_remove (ref ++ "[" ++ i ++ "]")
      end
  | OpSetListElement f index value =>
      r <-- update_name_ref f ;;; let '(ref, attr_def) := r in
      _ <-- plain_list_attr f attr_def ;;;
      match list_index index with
      | None => st_raise (ValidationError "list index must be a non-negative integer")
      | Some i => v <-- raw_value_ref value ;;; push_set (ref ++ "[" ++ i ++ "] = " ++ v)
      end
  end.

(** [str.upper()] on ASCII letters (other letters are not modelled). *)
Definition upper (s : string) : string :=
  map_string (fun c => let n := nat_of_ascii c in
                       if (97 <=? n) && (n <=? 122) then ascii_of_nat (n - 32) else c) s.

Definition str_in (s : string) (l : list string) : bool := existsb (String.eqb s) l.

Fixpoint value_refs (attr_def : AttributeDefinition) (vs : list pyval) : St (list string) :=
  match vs with
  | [] => st_ret []
  | v :: rest => r <-- condition_value_ref attr_def v ;;; rs <-- value_refs attr_def rest ;;; st_ret (r :: rs)
  end.

(** [_build_condition_term(name_ref, attr_def, operator, value,
    condition_value_ref)] *)
Definition build_condition_term (name_ref : string) (attr_def : AttributeDefinition)
    (operator : string) (value : pyval) : St string :=
  let op := upper (strip operator) in
  let with_value (k : string -> string) : St string :=
    match value with
    | PNone => st_raise (ValidationError (operator ++ " requires one value"))
    | _ => v <-- condition_value_ref attr_def value ;;; st_ret (k v)
    end in
  if str_in op ["ATTRIBUTE_EXISTS"; "EXISTS"] then
    match value with
    | PNone => st_ret ("attribute_exists(" ++ name_ref ++ ")")
    | _ => st_raise (ValidationError "EXISTS does not take a value")
    end
  else if str_in op ["ATTRIBUTE_NOT_EXISTS"; "NOT_EXISTS"] then
    match value with
    | PNone => st_ret ("attribute_not_exists(" ++ name_ref ++ ")")
    | _ => st_raise (ValidationError "NOT_EXISTS does not take a value")
    end
  else if str_in op ["="; "EQ"] then with_value (fun v => name_ref ++ " = " ++ v)
  else if str_in op ["!="; "<>"; "NE"] then with_value (fun v => name_ref ++ " <> " ++ v)
  else if str_in op ["<"; "LT"] then with_value (fun v => name_ref ++ " < " ++ v)
  else if str_in op ["<="; "LE"] then with_value (fun v => name_ref ++ " <= " ++ v)
  else if str_in op [">"; "GT"] then with_value (fun v => name_ref ++ " > " ++ v)
  else if str_in op [">="; "GE"] then with_value (fun v => name_ref ++ " >= " ++ v)
  else if String.eqb op "BETWEEN" then
    match value with
    | PList [a; b] | PTuple [a; b] =>
        left <-- condition_value_ref attr_def a ;;;
        right <-- condition_value_ref attr_def b ;;;
        st_ret (name_ref ++ " BETWEEN " ++ left ++ " AND " ++ right)
    | _ => st_raise (ValidationError "BETWEEN requires two values")
    end
  else if String.eqb op "IN" then
    match value with
    | PList l | PTuple l =>
        if 100 <? length l then st_raise (ValidationError "IN supports maximum 100 values")
        else refs <-- value_refs attr_def l ;;;
             st_ret (name_ref ++ " IN (" ++ String.concat ", " refs ++ ")")
    | _ => st_raise (ValidationError "IN requires a sequence of values")
    end
  else if String.eqb op "BEGINS_WITH" then with_value (fun v => "begins_with(" ++ name_ref ++ ", " ++ v ++ ")")
  else if String.eqb op "CONTAINS" then with_value (fun v => "contains(" ++ name_ref ++ ", " ++ v ++ ")")
  else st_raise (ValidationError ("unsupported condition operator: " ++ operator)).

Fixpoint build_ops (ops : list update_op) : St unit :=
  match ops with
  | [] => st_ret tt
  | op :: rest => _ <-- build_op op ;;; build_ops rest
  end.

(** The condition loop: each condition's logic word and built term. *)
Fixpoint build_conditions (conds : list (string * string * string * pyval)) : St (list (string * string)) :=
  match conds with
  | [] => st_ret []
  | (logic, field_name, operator, value) :: rest =>
      r <-- condition_name_ref field_name ;;;
      built <-- build_condition_term (fst r) (snd r) operator value ;;;
      others <-- build_conditions rest ;;;
      st_ret ((logic, built) :: others)
  end.

(** [out = parts[0]; out += f" {ops[i - 1]} {parts[i]}"]: the logic word of
    the first condition is not used. *)
Definition join_conditions (built : list (string * string)) : option string :=
  match built with
  | [] => None
  | (_, first) :: rest =>
      Some (first ++ String.concat "" (map (fun '(logic, part) => " " ++ logic ++ " " ++ part) rest))
  end.

Definition clause (keyword : string) (parts : list string) : list string :=
  match parts with [] => [] | _ => [keyword ++ " " ++ String.concat ", " parts] end.

Definition update_expression_of (s : build_state) : string :=
  String.concat " " (app (clause "SET" (st_set_parts s))
                       (app (clause "REMOVE" (st_remove_parts s))
                          (app (clause "ADD" (st_add_parts s)) (clause "DELETE" (st_delete_parts s))))).

Definition empty_build_state : build_state := mkBuildState [] [] [] [] [] [] [] 0 0.

Fixpoint dict_update {A} (d extra : dict A) : dict A :=
  match extra with [] => d | (k, v) :: rest => dict_update (dict_set d k v) rest end.

(** [UpdateBuilder._build_request()] *)
Definition build_request (b : UpdateBuilder) : result UpdateRequest :=
  key <- to_key (ub_pk b) (ub_sk b) ;;
  run <- (_ <-- build_ops (ub_updates b) ;;;
          s <-- st_get ;;;
          let update_expr := update_expression_of s in
          if String.eqb update_expr "" then st_raise (ValidationError "no updates provided")
          else
            condition_expr <-- match ub_conditions b with
                               | [] => st_ret None
                               | conds => built <-- build_conditions conds ;;; st_ret (join_conditions built)
                               end ;;;
            st_ret (update_expr, condition_expr)) empty_build_state ;;
  let '((update_expr, condition_expr), s) := run in
  let merged_values := dict_update (dict_update [] (st_update_values s)) (st_condition_values s) in
  Ok (mkUpdateRequest table_name key update_expr (st_names s)
        (match merged_values with [] => None | _ => Some merged_values end)
        (Some (ub_return_values b)) condition_expr).

(** [UpdateBuilder.execute()] against the client's [update_item]. *)
Definition execute (update_item : UpdateRequest -> update_reply) (b : UpdateBuilder) : result (option T) :=
  match ub_updates b with
  | [] => Err (ValidationError "no updates provided")
  | _ =>
      req <- build_request b ;;
      match update_item req with
      | UpdateFailed err => Err (map_client_error err)
      | UpdateOk resp =>
          match dict_get resp "Attributes" with
          | Some attrs => if py_truthy attrs then x <- from_item attrs ;; Ok (Some x) else Ok None
          | None => Ok None
          end
      end
  end.

(* ------------------------------------------------------------------ *)
(** *** Batch operations *)

(** [_chunked(items, size)] for [size > 0]; the bound [length items] is
    never reached since every chunk is non-empty. *)
Fixpoint chunked_aux {A} (bound size : nat) (items : list A) : list (list A) :=
  match bound with
  | O => []
  | S k => match items with
           | [] => []
           | _ => firstn size items :: chunked_aux k size (skipn size items)
           end
  end.

Definition chunked {A} (items : list A) (size : nat) : list (list A) :=
  chunked_aux (length items) size items.

(** The key normalization of [batch_get] and [batch_write] (deletes). *)
Definition normalize_key (key : pyval) : result (pyval * pyval) :=
  match sk model with
  | None =>
      match key with
      | PTuple [pk_value; PNone] => Ok (pk_value, PNone)
      | PTuple [_; _] => Err (ValidationError "sk must be None for pk-only models")
      | PTuple _ => Err (ValidationError "expected key tuple (pk, None) for pk-only models")
      | _ => Ok (key, PNone)
      end
  | Some _ =>
      match key with
      | PTuple [pk_value; sk_value] => Ok (pk_value, sk_value)
      | _ => Err (ValidationError "expected key tuple (pk, sk)")
      end
  end.

(** The reply of [BatchGetItem]: the items of [Responses] and the [Keys]
    of [UnprocessedKeys] for this table, or a [ClientError]. *)
Inductive batch_get_reply : Type :=
| BatchGetOk (responses : list pyval) (unprocessed_keys : list (dict pyval))
| BatchGetFailed (err : ClientError).

(** The client's [batch_get_item], told the [Keys] of every earlier call
    and of this one (so a backend may answer according to its history).
    The request's [ConsistentRead] and [ProjectionExpression] are not
    modelled ([projection=None]); [sleep] has no effect on the outcome. *)
Variable batch_get_item : list (list (dict pyval)) -> list (dict pyval) -> batch_get_reply.

(** The [while pending_keys] loop of one chunk.  [retries_left] is
    [max_retries - attempts], so [attempts >= max_retries] is
    [retries_left = 0].  Returns the outcome and the calls made so far. *)
Fixpoint batch_get_loop (retries_left : nat) (pending_keys : list (dict pyval))
    (calls : list (list (dict pyval))) (out : list T) : result (list T) * list (list (dict pyval)) :=
  match pending_keys with
  | [] => (Ok out, calls)
  | _ :: _ =>
      let reply := batch_get_item calls pending_keys in
      let calls := app calls [pending_keys] in
      match reply with
      | BatchGetFailed err => (Err (map_client_error err), calls)
      | BatchGetOk responses unprocessed =>
          match map_result from_item responses with
          | Err e => (Err e, calls)
          | Ok objs =>
              let out := app out objs in
              match unprocessed with
              | [] => (Ok out, calls)
              | _ :: _ =>
                  match retries_left with
                  | O => (Err (BatchRetryExceededError "batch_get" (length unprocessed)), calls)
                  | S r => batch_get_loop r unprocessed calls out
                  end
              end
          end
      end
  end.

Fixpoint batch_get_chunks (max_retries : nat) (chunks : list (list (pyval * pyval)))
    (calls : list (list (dict pyval))) (out : list T) : result (list T) * list (list (dict pyval)) :=
  match chunks with
  | [] => (Ok out, calls)
  | chunk :: rest =>
      match map_result (fun '(p, s) => to_key p s) chunk with
      | Err e => (Err e, calls)
      | Ok pending_keys =>
          match batch_get_loop max_retries pending_keys calls out with
          | (Ok out, calls) => batch_get_chunks max_retries rest calls out
          | (Err e, calls) => (Err e, calls)
          end
      end
  end.

(** [Table.batch_get(keys, max_retries=...)]: the items read, and the
    [Keys] of every backend call in order. *)
Definition batch_get (keys : list pyval) (max_retries : Z) : result (list T) * list (list (dict pyval)) :=
  if (max_retries <? 0)%Z then (Err (ValidationError "max_retries must be >= 0"), [])
  else match keys with
       | [] => (Ok [], [])
       | _ =>
           match map_result normalize_key keys with
           | Err e => (Err e, [])
           | Ok normalized => batch_get_chunks (Z.to_nat max_retries) (chunked normalized 100) [] []
           end
       end.

(** A request of [BatchWriteItem]. *)
Inductive write_request : Type :=
| PutRequest (item : dict pyval)
| DeleteRequest (key : dict pyval).

Inductive batch_write_reply : Type :=
| BatchWriteOk (unprocessed_items : list write_request)
| BatchWriteFailed (err : ClientError).

Variable batch_write_item : list (list write_request) -> list write_request -> batch_write_reply.

(** The [while pending] loop of one chunk of [batch_write]. *)
Fixpoint batch_write_loop (retries_left : nat) (pending : list write_request)
    (calls : list (list write_request)) : result unit * list (list write_request) :=
  match pending with
  | [] => (Ok tt, calls)
  | _ :: _ =>
      let reply := batch_write_item calls pending in
      let calls := app calls [pending] in
      match reply with
      | BatchWriteFailed err => (Err (map_client_error err), calls)
      | BatchWriteOk [] => (Ok tt, calls)
      | BatchWriteOk unprocessed =>
          match retries_left with
          | O => (Err (BatchRetryExceededError "batch_write" (length unprocessed)), calls)
          | S r => batch_write_loop r unprocessed calls
          end
      end
  end.

Fixpoint batch_write_chunks (max_retries : nat) (chunks : list (list write_request))
    (calls : list (list write_request)) : result unit * list (list write_request) :=
  match chunks with
  | [] => (Ok tt, calls)
  | chunk :: rest =>
      match batch_write_loop max_retries chunk calls with
      | (Ok _, calls) => batch_write_chunks max_retries rest calls
      | (Err e, calls) => (Err e, calls)
      end
  end.

(** The requests of [batch_write]: a [PutRequest] per item, then a
    [DeleteRequest] per key. *)
Definition write_requests (puts : list Item) (deletes : list pyval) : result (list write_request) :=
  ps <- map_result (fun item => i <- to_item item ;; Ok (PutRequest i)) puts ;;
  ds <- map_result (fun key => nk <- normalize_key key ;; k <- to_key (fst nk) (snd nk) ;; Ok (DeleteRequest k))
          deletes ;;
  Ok (app ps ds).

(** [Table.batch_write(puts=..., deletes=..., max_retries=...)] *)
Definition batch_write (puts : list Item) (deletes : list pyval) (max_retries : Z)
    : result unit * list (list write_request) :=
  if (max_retries <? 0)%Z then (Err (ValidationError "max_retries must be >= 0"), [])
  else match write_requests puts deletes with
       | Err e => (Err e, [])
       | Ok requests => batch_write_chunks (Z.to_nat max_retries) (chunked requests 25) []
       end.

(* ------------------------------------------------------------------ *)
(** *** Transactions *)

(** The actions of [transaction.py]; an empty or absent condition, names
    or values are alike to the code (it tests their truth value). *)
Inductive TransactWriteAction : Type :=
| TransactPut (item : Item) (condition_expression : option string)
    (expression_attribute_names : dict string) (expression_attribute_values : dict pyval)
| TransactDelete (pk_value sk_value : pyval) (condition_expression : option string)
    (expression_attribute_names : dict string) (expression_attribute_values : dict pyval)
| TransactUpdate (pk_value sk_value : pyval) (updates : dict pyval) (condition_expression : option string)
    (expression_attribute_names : dict string) (expression_attribute_values : dict pyval)
| TransactConditionCheck (pk_value sk_value : pyval) (condition_expression : string)
    (expression_attribute_names : dict string) (expression_attribute_values : dict pyval).

(** An entry of [TransactItems]. *)
Inductive transact_item : Type :=
| TIPut (item : dict pyval) (condition : option string) (names : option (dict string)) (values : option (dict pyval))
| TIDelete (key : dict pyval) (condition : option string) (names : option (dict string)) (values : option (dict pyval))
| TIUpdate (req : UpdateRequest)
| TICheck (key : dict pyval) (condition : string) (names : option (dict string)) (values : option (dict pyval)).

Definition opt_names (names : dict string) : option (dict string) :=
  match names with [] => None | _ => Some names end.

Definition opt_values (values : dict pyval) : result (option (dict pyval)) :=
  match values with [] => Ok None | _ => v <- serialize_values values ;; Ok (Some v) end.

(** The request compiled from one action. *)
Definition compile_action (action : TransactWriteAction) : result transact_item :=
  match action with
  | TransactPut item cond names values =>
      i <- to_item item ;; v <- opt_values values ;; Ok (TIPut i (truthy_str cond) (opt_names names) v)
  | TransactDelete p s cond names values =>
      k <- to_key p s ;; v <- opt_values values ;; Ok (TIDelete k (truthy_str cond) (opt_names names) v)
  | TransactUpdate p s updates cond names values =>
      r <- build_update_request p s updates cond names values None ;; Ok (TIUpdate r)
  | TransactConditionCheck p s cond names values =>
      k <- to_key p s ;; v <- opt_values values ;; Ok (TICheck k cond (opt_names names) v)
  end.

(** The client's [transact_write_items]: [None] when it succeeds. *)
Variable transact_write_items : list transact_item -> option ClientError.

(** [Table.transact_write(actions)] *)
Definition transact_write (actions : list TransactWriteAction) : result unit :=
  match actions with
  | [] => Err (ValidationError "actions is required")
  | _ =>
      if 100 <? length actions then Err (ValidationError "a transaction supports at most 100 actions")
      else
        items <- map_result compile_action actions ;;
        match transact_write_items items with
        | None => Ok tt
        | Some err => Err (map_transaction_error err)
        end
  end.

End TableOps.

(* ================================================================== *)
(** ** Leases ([lease.py]) *)

Record LeaseKey : Type := mkLeaseKey { lease_pk : string; lease_sk : string }.

Record Lease : Type := mkLease { key : LeaseKey; token : string; expires_at : Z }.

(** The settings of a [LeaseManager] ([ttl_buffer_seconds] after [int]). *)
Record LeaseManager : Type := mkLeaseManager {
  lm_table_name : string;
  pk_attr : string;
  sk_attr : string;
  token_attr : string;
  expires_at_attr : string;
  ttl_attr : string;
  ttl_buffer_seconds : Z
}.

(** A PutItem request. *)
Record PutItemRequest : Type := mkPutItemRequest {
  pi_table_name : string;
  pi_item : dict pyval;
  pi_condition_expression : string;
  pi_names : dict string;
  pi_values : dict pyval
}.

Definition attr_S (s : string) : pyval := PDict [("S", PStr s)].
Definition attr_N (z : Z) : pyval := PDict [("N", PStr (str_of_Z z))].

(** [int(self._now())]: the clock reads a real number of seconds, which
    [int] truncates toward zero. *)
Definition int_of_clock (t : Q) : Z := Z.quot (Qnum t) (Zpos (Qden t)).

Definition acquire_condition : string := "attribute_not_exists(#pk) OR #exp <= :now".

(** The item and request [acquire] sends. *)
Definition acquire_request (m : LeaseManager) (now : Z) (tok : string) (k : LeaseKey) (lease_seconds : Z)
    : PutItemRequest :=
  let expires_at := (now + lease_seconds)%Z in
  let item := dict_set (dict_set (dict_set (dict_set [] (pk_attr m) (attr_S (lease_pk k)))
                                             (sk_attr m) (attr_S (lease_sk k)))
                                   (token_attr m) (attr_S tok))
                       (expires_at_attr m) (attr_N expires_at) in
  let item := if negb (String.eqb (ttl_attr m) "") && (0 <? ttl_buffer_seconds m)%Z
              then dict_set item (ttl_attr m) (attr_N (expires_at + ttl_buffer_seconds m))
              else item in
  mkPutItemRequest (lm_table_name m) item acquire_condition
    (dict_set [("#pk", pk_attr m)] "#exp" (expires_at_attr m)) [(":now", attr_N now)].

Section LeaseOps.
(** The client's [put_item] on a backend state [Store]: [None] when the
    put succeeds. *)
Variable Store : Type.
Variable put_item : Store -> PutItemRequest -> option ClientError * Store.

(** [LeaseManager.acquire(key, lease_seconds=...)] with the clock reading
    [clock] and the token generator returning [tok]. *)
Definition acquire (m : LeaseManager) (st : Store) (clock : Q) (tok : string) (k : LeaseKey) (lease_seconds : Z)
    : result Lease * Store :=
  if String.eqb (lease_pk k) "" || String.eqb (lease_sk k) "" then
    (Err (ValueError "key.pk and key.sk are required"), st)
  else if (lease_seconds <=? 0)%Z then (Err (ValueError "lease_seconds must be > 0"), st)
  else
    let now := int_of_clock clock in
    let expires_at := (now + lease_seconds)%Z in
    match put_item st (acquire_request m now tok k lease_seconds) with
    | (None, st') => (Ok (mkLease k tok expires_at), st')
    | (Some err, st') =>
        match map_client_error err with
        | ConditionFailedError msg => (Err (LeaseHeldError msg), st')
        | mapped => (Err mapped, st')
        end
    end.

End LeaseOps.

(* ------------------------------------------------------------------ *)
(** *** A DynamoDB table, for the conditional put

    The backend is not part of the package; this is the part of DynamoDB's
    documented behaviour the lease protocol relies on: a table keyed by two
    attributes, and a put whose condition expression (a disjunction of
    conjunctions of [attribute_exists], [attribute_not_exists] and
    comparisons) is evaluated against the item stored under the same key.
    Numbers are the decimal integers the lease code writes. *)

Record ddb_table : Type := mkDdbTable {
  hash_key : string;
  range_key : string;
  rows : list (dict pyval)
}.

Fixpoint split_on_aux (fuel : nat) (sep s : string) : list string :=
  match fuel with
  | O => [s]
  | S f =>
      match s with
      | EmptyString => [EmptyString]
      | String c r =>
          if String.prefix sep s then
            EmptyString :: split_on_aux f sep (String.substring (String.length sep)
                                                (String.length s - String.length sep) s)
          else match split_on_aux f sep r with
               | x :: xs => String c x :: xs
               | [] => [String c EmptyString]
               end
      end
  end.

Definition split_on (sep s : string) : list string := split_on_aux (String.length s) sep s.

Inductive ddb_cond : Type :=
| CondExists (name_ref : string)
| CondNotExists (name_ref : string)
| CondCompare (op name_ref value_ref : string).

Definition strip_call (fname s : string) : option string :=
  let n := String.length fname in
  if String.prefix (fname ++ "(") s && String.eqb (String.substring (String.length s - 1) 1 s) ")" then
    Some (String.substring (n + 1) (String.length s - n - 2) s)
  else None.

Definition parse_atom (a : string) : option ddb_cond :=
  match strip_call "attribute_exists" a, strip_call "attribute_not_exists" a with
  | Some r, _ => Some (CondExists r)
  | _, Some r => Some (CondNotExists r)
  | None, None =>
      match split_on " " a with
      | [x; op; y] => if str_in op ["="; "<>"; "<"; "<="; ">"; ">="] then Some (CondCompare op x y) else None
      | _ => None
      end
  end.

(** [OR] of [AND]s of atoms. *)
Definition parse_condition (e : string) : option (list (list ddb_cond)) :=
  map_opt (fun d => map_opt parse_atom (split_on " AND " d)) (split_on " OR " e).

Definition number_of (s : string) : option Z := option_map Z.of_int (NilZero.int_of_string s).

(** The number ([{"N": x}]) or string ([{"S": x}]) an attribute value holds. *)
Definition n_value (v : pyval) : option string :=
  match v with PDict [("N", PStr x)] => Some x | _ => None end.
Definition s_value (v : pyval) : option string :=
  match v with PDict [("S", PStr x)] => Some x | _ => None end.

Definition compare_op (op : string) (c : comparison) : bool :=
  if String.eqb op "=" then match c with Eq => true | _ => false end
  else if String.eqb op "<>" then match c with Eq => false | _ => true end
  else if String.eqb op "<" then match c with Lt => true | _ => false end
  else if String.eqb op "<=" then match c with Gt => false | _ => true end
  else if String.eqb op ">" then match c with Gt => true | _ => false end
  else match c with Lt => false | _ => true end.

(** An atom against the stored item ([None]: no item); [None] is an
    expression naming an undefined placeholder. *)
Definition eval_atom (names : dict string) (values : dict pyval) (row : option (dict pyval)) (c : ddb_cond)
    : option bool :=
  match c with
  | CondExists r =>
      match dict_get names r with
      | None => None
      | Some a => Some (match row with
                        | Some it => match dict_get it a with Some _ => true | None => false end
                        | None => false
                        end)
      end
  | CondNotExists r =>
      match dict_get names r with
      | None => None
      | Some a => Some (match row with
                        | Some it => match dict_get it a with Some _ => false | None => true end
                        | None => true
                        end)
      end
  | CondCompare op r vr =>
      match dict_get names r, dict_get values vr with
      | Some a, Some v =>
          Some (match row with
                | None => false
                | Some it =>
                    match dict_get it a with
                    | None => false
                    | Some stored =>
                        match n_value stored, n_value v with
                        | Some x, Some y =>
                            match number_of x, number_of y with
                            | Some p, Some q => compare_op op (Z.compare p q)
                            | _, _ => false
                            end
                        | _, _ =>
                            match s_value stored, s_value v with
                            | Some x, Some y => compare_op op (String.compare x y)
                            | _, _ => false
                            end
                        end
                    end
                end)
      | _, _ => None
      end
  end.

Definition eval_all (f : ddb_cond -> option bool) (l : list ddb_cond) : option bool :=
  fold_right (fun c acc => match f c, acc with Some x, Some y => Some (x && y) | _, _ => None end) (Some true) l.

Definition eval_any (f : list ddb_cond -> option bool) (l : list (list ddb_cond)) : option bool :=
  fold_right (fun c acc => match f c, acc with Some x, Some y => Some (x || y) | _, _ => None end) (Some false) l.

(** The string an item holds under an attribute, if it holds one. *)
Definition s_attr (item : dict pyval) (a : string) : option string :=
  match dict_get item a with Some v => s_value v | None => None end.

Definition same_key (t : ddb_table) (item row : dict pyval) : bool :=
  match s_attr item (hash_key t), s_attr row (hash_key t), s_attr item (range_key t), s_attr row (range_key t) with
  | Some a, Some b, Some c, Some d => String.eqb a b && String.eqb c d
  | _, _, _, _ => false
  end.

Definition find_row (t : ddb_table) (item : dict pyval) : option (dict pyval) :=
  find (same_key t item) (rows t).

Definition ddb_error (code message : string) : ClientError := mkClientError code message [] "PutItem".

(** [PutItem] with a condition: the item replaces the one under its key when
    the condition holds of that one. *)
Definition ddb_put_item (t : ddb_table) (req : PutItemRequest) : option ClientError * ddb_table :=
  match parse_condition (pi_condition_expression req) with
  | None => (Some (ddb_error "ValidationException" "Invalid ConditionExpression"), t)
  | Some c =>
      let row := find_row t (pi_item req) in
      match eval_any (eval_all (eval_atom (pi_names req) (pi_values req) row)) c with
      | None => (Some (ddb_error "ValidationException" "An expression attribute name or value is not defined"), t)
      | Some false => (Some (ddb_error "ConditionalCheckFailedException" "The conditional request failed"), t)
      | Some true =>
          (None, mkDdbTable (hash_key t) (range_key t)
                   (pi_item req :: filter (fun r => negb (same_key t (pi_item req) r)) (rows t)))
      end
  end.

(* ================================================================== *)
(** ** Sample configurations, used to instantiate the statements below *)

Definition sample_attr (name : string) (rls : list string) (is_set : bool) : AttributeDefinition :=
  mkAttributeDefinition name name rls false is_set false false false.

(** A model with key [id] and plain fields [name] and [version]. *)
Definition sample_model : ModelDefinition :=
  mkModelDefinition (Some "items") (sample_attr "id" ["pk"] false) None
    [("id", sample_attr "id" ["pk"] false); ("name", sample_attr "name" [] false);
     ("version", sample_attr "version" [] false)].

(** The part of boto3's [TypeSerializer] the samples use. *)
Definition sample_serialize (v : pyval) : result pyval :=
  match v with
  | PStr s => Ok (PDict [("S", PStr s)])
  | PInt z => Ok (PDict [("N", PStr (str_of_Z z))])
  | PBool b => Ok (PDict [("BOOL", PBool b)])
  | PNone => Ok (PDict [("NULL", PBool true)])
  | _ => Err (TypeError "Unsupported type")
  end.

Definition sample_serialize_attr (_ : AttributeDefinition) (v : pyval) : result pyval := sample_serialize v.

Definition sample_from_item (attrs : pyval) : result pyval := Ok attrs.

(** An authenticated cipher stand-in: the associated data travels framed
    ("1" before each character, "0" at its end) in front of the plaintext
    and must match on decryption. *)
Fixpoint toy_frame (ad : string) : string :=
  match ad with
  | EmptyString => "0"
  | String c r => String "1" (String c (toy_frame r))
  end.

Fixpoint toy_unframe (s : string) : option (string * string) :=
  match s with
  | String x r =>
      if Ascii.eqb x "0"%char then Some (EmptyString, r)
      else if Ascii.eqb x "1"%char then
        match r with
        | String c r' =>
            match toy_unframe r' with
            | Some (a, d) => Some (String c a, d)
            | None => None
            end
        | EmptyString => None
        end
      else None
  | EmptyString => None
  end.

Definition toy_aesgcm_encrypt (k nonce data ad : string) : option string := Some (toy_frame ad ++ data).

Definition toy_aesgcm_decrypt (k nonce ct ad : string) : option string :=
  match toy_unframe ct with
  | Some (ad', data) => if String.eqb ad' ad then Some data else None
  | None => None
  end.

Definition toy_kms_generate (_ : string) : kms_generate_reply := KmsDataKey (PBytes "k") (PBytes "e").
Definition toy_kms_decrypt (_ _ : string) : kms_decrypt_reply := KmsPlaintext (PBytes "k").
Definition toy_rand_bytes (n : nat) : string := repeat_char "0"%char n.

(** A model with key [id] and two [omitempty] fields. *)
Definition sample_omit_model : ModelDefinition :=
  mkModelDefinition (Some "items") (sample_attr "id" ["pk"] false) None
    [("id", sample_attr "id" ["pk"] false);
     ("count", mkAttributeDefinition "count" "count" [] true false false false false);
     ("flag", mkAttributeDefinition "flag" "flag" [] true false false false false)].

Definition sample_item : Item :=
  fun f => if String.eqb f "id" then PStr "A" else if String.eqb f "count" then PInt 0 else PBool true.

Definition is_none (v : pyval) : bool := match v with PNone => true | _ => false end.

(** The update expression a field-update map should compile to: a SET
    assignment for every field given a value, then a REMOVE of every field
    given [None], each in the map's order. *)
Definition field_update_expression (updates : dict pyval) : string :=
  String.concat " "
    (app (clause "SET" (map (fun p => "#d_" ++ fst p ++ " = :d_" ++ fst p)
                          (filter (fun p => negb (is_none (snd p))) updates)))
         (clause "REMOVE" (map (fun p => "#d_" ++ fst p) (filter (fun p => is_none (snd p)) updates)))).

(** A condition check on item [A] of [sample_model]. *)
Definition sample_check : TransactWriteAction :=
  TransactConditionCheck (PStr "A") PNone "attribute_exists(#pk)" [("#pk", "id")] [].

(** A cancellation whose message names a condition-check failure while its
    reasons carry no code. *)
Definition cancel_by_message : ClientError :=
  mkClientError "TransactionCanceledException"
    "Transaction cancelled, please refer cancellation reasons for specific reasons [ConditionalCheckFailed]"
    [] "TransactWriteItems".

(** A cancellation with one throttled reason and one reason without a code. *)
Definition cancel_throttled : ClientError :=
  mkClientError "TransactionCanceledException" ""
    [PDict [("Code", PStr "ThrottlingError")]; PDict [("Message", PStr "none")]] "TransactWriteItems".

(** The builder chain [set("name", "v1")] on item [A] of [sample_model]. *)
Definition sample_set_builder : UpdateBuilder :=
  ub_set (update_builder (PStr "A") PNone) "name" (PStr "v1").

(** The clause each builder operation belongs to, as the update grammar
    assigns it. *)
Definition op_clause (op : update_op) : string :=
  match op with
  | OpSet _ _ | OpSetIfNotExists _ _ | OpAppendList _ _ | OpPrependList _ _ | OpSetListElement _ _ _ => "SET"
  | OpRemove _ | OpRemoveListAt _ _ => "REMOVE"
  | OpAdd _ _ => "ADD"
  | OpDelete _ _ => "DELETE"
  end.

(** The fragments of one clause, in order. *)
Definition parts_of (kw : string) (frags : list (string * string)) : list string :=
  map snd (filter (fun p => String.eqb (fst p) kw) frags).

(** The update expression made of tagged fragments: the four clauses in the
    order SET, REMOVE, ADD, DELETE, an empty clause left out. *)
Definition render_update_expression (frags : list (string * string)) : string :=
  String.concat " " (app (clause "SET" (parts_of "SET" frags))
                       (app (clause "REMOVE" (parts_of "REMOVE" frags))
                          (app (clause "ADD" (parts_of "ADD" frags)) (clause "DELETE" (parts_of "DELETE" frags))))).

(** The four clause lists of a build state. *)
Definition parts (s : build_state) : list string * list string * list string * list string :=
  (st_set_parts s, st_remove_parts s, st_add_parts s, st_delete_parts s).

Definition app_frags (frags : list (string * string))
    (p : list string * list string * list string * list string) :=
  let '(a, b, c, d) := p in
  (app a (parts_of "SET" frags), app b (parts_of "REMOVE" frags),
   app c (parts_of "ADD" frags), app d (parts_of "DELETE" frags)).

(** The chain [set("name", "v1").add("version", 1).condition("name", "=", "v0")]. *)
Definition example_builder (pk_value sk_value : pyval) : UpdateBuilder :=
  ub_condition (ub_add (ub_set (update_builder pk_value sk_value) "name" (PStr "v1")) "version" (PInt 1))
    "name" "=" (PStr "v0").

(** Backends that report every submitted key or request as unprocessed. *)
Definition always_unprocessed_get (_ : list (list (dict pyval))) (pending : list (dict pyval)) : batch_get_reply :=
  BatchGetOk [] pending.

Definition always_unprocessed_write (_ : list (list write_request)) (pending : list write_request)
    : batch_write_reply :=
  BatchWriteOk pending.

(** 150 distinct keys of [sample_model]. *)
Definition sample_keys_150 : list pyval := map (fun n => PStr (nat_str n)) (seq 0 150).

(** When a lease may be taken, in the protocol's words: there is no lease
    row under the key, or the expiry it stores is not after [now]. *)
Definition lease_admits (m : LeaseManager) (row : option (dict pyval)) (now : Z) : bool :=
  match row with
  | None => true
  | Some r =>
      match dict_get r (expires_at_attr m) with
      | Some stored =>
          match n_value stored with
          | Some x => match number_of x with Some e => (e <=? now)%Z | None => false end
          | None => false
          end
      | None => false
      end
  end.

(** A [LeaseManager] with the default settings, over an empty table. *)
Definition default_lease_manager : LeaseManager :=
  mkLeaseManager "leases" "pk" "sk" "lease_token" "lease_expires_at" "ttl" 3600.

Definition empty_lease_table : ddb_table := mkDdbTable "pk" "sk" [].

Definition job_key : LeaseKey := mkLeaseKey "job" "LOCK".

(** A backend that counts the puts it receives and accepts them all. *)
Definition counting_put (n : nat) (_ : PutItemRequest) : option ClientError * nat := (None, S n).

Fixpoint str_all (p : ascii -> bool) (s : string) : bool :=
  match s with
  | EmptyString => true
  | String c r => p c && str_all p r
  end.

Definition b64_out_char (c : ascii) : bool :=
  (nat_of_ascii c <? 128) && negb (Ascii.eqb c "-"%char) && negb (Ascii.eqb c "_"%char)
  && negb (is_py_space c).

Definition url_out_char (c : ascii) : bool := (nat_of_ascii c <? 128) && negb (is_py_space c).

Inductive json_val : pyval -> Prop :=
| JNone : json_val PNone
| JBool (b : bool) : json_val (PBool b)
| JStr (s : string) : json_val (PStr s)
| JList (l : list pyval) : Forall json_val l -> json_val (PList l)
| JDict (d : dict pyval) : NoDup (dict_keys d) -> Forall (fun kv => json_val (snd kv)) d ->
    json_val (PDict d).

Definition dump_member (kv : string * pyval) : option string :=
  match dumps (snd kv) with
  | Some a => Some (dumps_str (fst kv) ++ ":" ++ a)
  | None => None
  end.

Definition key_rel {A B} (R : A -> B -> Prop) (a : string * A) (b : string * B) : Prop :=
  fst a = fst b /\ R (snd a) (snd b).

Definition canon_item (kv : string * pyval) : string * pyval := (fst kv, canon (snd kv)).

Fixpoint pv_size (v : pyval) : nat :=
  match v with
  | PList l | PTuple l | PSet l =>
      S ((fix go (l : list pyval) : nat :=
            match l with [] => 0 | x :: r => pv_size x + go r end) l)
  | PDict d =>
      S ((fix go (d : dict pyval) : nat :=
            match d with [] => 0 | (_, x) :: r => pv_size x + go r end) d)
  | _ => 1
  end.

Fixpoint keys_sorted {A} (l : dict A) : Prop :=
  match l with
  | [] => True
  | x :: r => match r with
              | [] => True
              | y :: _ => String.leb (fst x) (fst y) = true /\ keys_sorted r
              end
  end.

Definition av_ok (v j : pyval) : Prop :=
  json_val j /\ exists w, av_from_json j = Some w /\ canon w = canon v.

Definition bs_enc (x : pyval) : pyval := match x with PBytes b => PStr (b64encode b) | _ => x end.

Definition bs_dec (x : pyval) : option pyval :=
  match x with
  | PStr s => match b64decode s with Some b => Some (PBytes b) | None => None end
  | _ => None
  end.

Definition cursor_entries (lk : dict pyval) (idx srt : option string) : dict pyval :=
  ([("lastKey", PDict (sort_items lk))]
   ++ (match idx with Some i => [("index", PStr i)] | None => [] end)
   ++ (match srt with Some s => [("sort", PStr s)] | None => [] end))%list.

Definition cursor_witness_key : dict pyval :=
  [("pk", PDict [("S", PStr "A#1")]);
   ("data", PDict [("M", PDict [("bin", PDict [("B", PBytes "hi!")]);
                                ("items", PDict [("L", PList [PDict [("N", PStr "7")];
                                                               PDict [("BS", PList [PBytes "x"])]])])])])].

Definition echo_batch_get (_ : list (list (dict pyval))) (pending : list (dict pyval)) : batch_get_reply :=
  BatchGetOk (map PDict pending) [].

Definition accept_batch_write (_ : list (list write_request)) (_ : list write_request) : batch_write_reply :=
  BatchWriteOk [].

Definition mar_ok (av m : pyval) : Prop :=
  json_val m /\ forall k, pv_size m <= k -> exists w, unmarshal k m = Ok w /\ canon w = canon av.

(** [Page] of [query.py]. *)
Record Page (T : Type) : Type := mkPage { page_items : list T; page_next_cursor : option string }.

Arguments mkPage {T} page_items page_next_cursor.

Arguments page_items {T} p.

Arguments page_next_cursor {T} p.

Section RetryLoop.
Variable T : Type.
(** The float arithmetic of the back-off delay: [delay > 0],
    [delay * backoff_factor] and [min(max_delay_seconds, ...)]. *)
Variable F : Type.
Variable f_pos : F -> bool.
Variable f_mul : F -> F -> F.
Variable f_min : F -> F -> F.

(** Whether the loop returns a page it got: [verify(page)] when a
    [verify] is given, else [not retry_on_empty or page.items]. *)
Definition accepts (retry_on_empty : bool) (verify : option (Page T -> bool)) (page : Page T) : bool :=
  match verify with
  | Some v => v page
  | None => negb retry_on_empty || match page_items page with [] => false | _ => true end
  end.

(** The [for attempt in range(max_retries + 1)] loop of
    [query_with_retry] and [scan_with_retry].  [fetch attempt] is what the
    [attempt]-th call of [self.query(...)] (or [self.scan(...)]) returns
    or raises.  Returns the outcome, the number of calls made and the
    delays slept, in order. *)
Fixpoint retry_loop (fetch : nat -> result (Page T)) (retry_on_empty retry_on_error : bool)
    (verify : option (Page T -> bool)) (max_delay factor : F) (max_retries : nat)
    (fuel attempt : nat) (delay : F) (last_page : option (Page T)) (sleeps : list F)
    : result (Page T) * nat * list F :=
  match fuel with
  | O =>
      match last_page with
      | None => (Err (ValidationError "retry exhausted without results"), attempt, sleeps)
      | Some p => (Ok p, attempt, sleeps)
      end
  | S fuel =>
      let next (last_page : option (Page T)) :=
        if attempt <? max_retries then
          retry_loop fetch retry_on_empty retry_on_error verify max_delay factor max_retries fuel (S attempt)
            (f_min max_delay (f_mul delay factor)) last_page
            (if f_pos delay then app sleeps [delay] else sleeps)
        else
          retry_loop fetch retry_on_empty retry_on_error verify max_delay factor max_retries fuel (S attempt)
            delay last_page sleeps in
      match fetch attempt with
      | Ok page =>
          if accepts retry_on_empty verify page then (Ok page, S attempt, sleeps)
          else next (Some page)
      | Err e =>
          if negb retry_on_error || (attempt =? max_retries) then (Err e, S attempt, sleeps)
          else next last_page
      end
  end.

(** [Table.query_with_retry(partition, ..., max_retries=..., ...)]; the
    query's own arguments are in [query]. *)
Definition query_with_retry (query : nat -> result (Page T)) (max_retries : Z)
    (initial_delay_seconds max_delay_seconds backoff_factor : F)
    (retry_on_empty retry_on_error : bool) (verify : option (Page T -> bool))
    : result (Page T) * nat * list F :=
  if (max_retries <? 0)%Z then (Err (ValidationError "max_retries must be >= 0"), 0, [])
  else retry_loop query retry_on_empty retry_on_error verify max_delay_seconds backoff_factor
         (Z.to_nat max_retries) (S (Z.to_nat max_retries)) 0 initial_delay_seconds None [].

(** [Table.scan_with_retry(..., max_retries=..., ...)]: the same loop
    around [self.scan(...)]. *)
Definition scan_with_retry (scan : nat -> result (Page T)) (max_retries : Z)
    (initial_delay_seconds max_delay_seconds backoff_factor : F)
    (retry_on_empty retry_on_error : bool) (verify : option (Page T -> bool))
    : result (Page T) * nat * list F :=
  if (max_retries <? 0)%Z then (Err (ValidationError "max_retries must be >= 0"), 0, [])
  else retry_loop scan retry_on_empty retry_on_error verify max_delay_seconds backoff_factor
         (Z.to_nat max_retries) (S (Z.to_nat max_retries)) 0 initial_delay_seconds None [].

End RetryLoop.

Arguments accepts {T}.

Arguments retry_loop {T F}.

Arguments query_with_retry {T F}.

Arguments scan_with_retry {T F}.

(** Whether the loop goes on after an outcome. *)
Definition retries_after {T} (retry_on_empty retry_on_error : bool) (verify : option (Page T -> bool))
    (o : result (Page T)) : bool :=
  match o with
  | Ok page => negb (accepts retry_on_empty verify page)
  | Err _ => retry_on_error
  end.

Definition retry_inv {T} (fetch : nat -> result (Page T)) (mr attempt : nat) (last : option (Page T)) : Prop :=
  (attempt = 0 /\ last = None) \/
  (0 < attempt /\ ((exists p, last = Some p /\ fetch (pred attempt) = Ok p) \/
                   (exists e, fetch (pred attempt) = Err e /\ pred attempt < mr))).

Definition sample_fetch (n : nat) : result (Page nat) :=
  if n <? 2 then Ok (mkPage [] None) else Ok (mkPage [7] None).

(** The back-off schedule: [k] delays from [d], each next one
    [min(max_delay, previous * factor)]. *)
Fixpoint backoff_delays {F} (f_mul f_min : F -> F -> F) (max_delay factor d : F) (k : nat) : list F :=
  match k with
  | O => []
  | S k => d :: backoff_delays f_mul f_min max_delay factor (f_min max_delay (f_mul d factor)) k
  end.

Definition nat_min (a b : nat) : nat := if b <? a then b else a.

Definition b64_body_char (c : ascii) : bool := b64_out_char c && negb (Ascii.eqb c "="%char).

Definition url_body_char (c : ascii) : bool := url_out_char c && negb (Ascii.eqb c "="%char).

Definition url_swap (c : ascii) : ascii := swap_char "/"%char "_"%char (swap_char "+"%char "-"%char c).

(** The key [refresh] and [release] send:
    [{pk_attr: {"S": key.pk}, sk_attr: {"S": key.sk}}]. *)
Definition lease_key_item (m : LeaseManager) (k : LeaseKey) : dict pyval :=
  dict_set (dict_set [] (pk_attr m) (attr_S (lease_pk k))) (sk_attr m) (attr_S (lease_sk k)).

(** An UpdateItem request of the lease code. *)
Record UpdateItemRequest : Type := mkUpdateItemRequest {
  ui_table_name : string;
  ui_key : dict pyval;
  ui_update_expression : string;
  ui_condition_expression : string;
  ui_names : dict string;
  ui_values : dict pyval
}.

(** A DeleteItem request of the lease code. *)
Record DeleteItemRequest : Type := mkDeleteItemRequest {
  di_table_name : string;
  di_key : dict pyval;
  di_condition_expression : string;
  di_names : dict string;
  di_values : dict pyval
}.

Definition refresh_condition : string := "#tok = :tok AND #exp > :now".

(** The request [refresh] sends. *)
Definition refresh_request (m : LeaseManager) (now : Z) (lease : Lease) (lease_seconds : Z)
    : UpdateItemRequest :=
  let expires_at := (now + lease_seconds)%Z in
  let names := [("#tok", token_attr m); ("#exp", expires_at_attr m)] in
  let values := [(":tok", attr_S (token lease)); (":now", attr_N now); (":exp", attr_N expires_at)] in
  let update_expression := "SET #exp = :exp" in
  let '(names, values, update_expression) :=
    if negb (String.eqb (ttl_attr m) "") && (0 <? ttl_buffer_seconds m)%Z then
      let ttl := (expires_at + ttl_buffer_seconds m)%Z in
      (dict_set names "#ttl" (ttl_attr m), dict_set values ":ttl" (attr_N ttl),
       update_expression ++ ", #ttl = :ttl")
    else (names, values, update_expression) in
  mkUpdateItemRequest (lm_table_name m) (lease_key_item m (key lease)) update_expression
    refresh_condition names values.

(** The request [release] sends. *)
Definition release_request (m : LeaseManager) (lease : Lease) : DeleteItemRequest :=
  mkDeleteItemRequest (lm_table_name m) (lease_key_item m (key lease)) "#tok = :tok"
    [("#tok", token_attr m)] [(":tok", attr_S (token lease))].

Section LeaseRenewal.
(** The client's [update_item] and [delete_item] on a backend state
    [Store]: [None] when the call succeeds. *)
Variable Store : Type.
Variable update_item : Store -> UpdateItemRequest -> option ClientError * Store.
Variable delete_item : Store -> DeleteItemRequest -> option ClientError * Store.

(** [LeaseManager.refresh(lease, lease_seconds=...)] with the clock
    reading [clock]. *)
Definition refresh (m : LeaseManager) (st : Store) (clock : Q) (lease : Lease) (lease_seconds : Z)
    : result Lease * Store :=
  if String.eqb (lease_pk (key lease)) "" || String.eqb (lease_sk (key lease)) "" then
    (Err (ValueError "lease.key.pk and lease.key.sk are required"), st)
  else if String.eqb (token lease) "" then (Err (ValueError "lease.token is required"), st)
  else if (lease_seconds <=? 0)%Z then (Err (ValueError "lease_seconds must be > 0"), st)
  else
    let now := int_of_clock clock in
    let expires_at := (now + lease_seconds)%Z in
    match update_item st (refresh_request m now lease lease_seconds) with
    | (None, st') => (Ok (mkLease (key lease) (token lease) expires_at), st')
    | (Some err, st') =>
        match map_client_error err with
        | ConditionFailedError msg => (Err (LeaseNotOwnedError msg), st')
        | mapped => (Err mapped, st')
        end
    end.

(** [LeaseManager.release(lease)]: a condition failure is ignored. *)
Definition release (m : LeaseManager) (st : Store) (lease : Lease) : result unit * Store :=
  if String.eqb (lease_pk (key lease)) "" || String.eqb (lease_sk (key lease)) "" then
    (Err (ValueError "lease.key.pk and lease.key.sk are required"), st)
  else if String.eqb (token lease) "" then (Err (ValueError "lease.token is required"), st)
  else
    match delete_item st (release_request m lease) with
    | (None, st') => (Ok tt, st')
    | (Some err, st') =>
        match map_client_error err with
        | ConditionFailedError _ => (Ok tt, st')
        | mapped => (Err mapped, st')
        end
    end.

End LeaseRenewal.

(** *** UpdateItem and DeleteItem on the DynamoDB table

    As far as the lease requests use them: an update expression
    [SET #a = :v, ...], and a condition evaluated, as for [PutItem], against
    the item stored under the request's key.  An update of a missing item
    starts from the key. *)

Definition parse_set (e : string) : option (list (string * string)) :=
  if String.prefix "SET " e then
    map_opt (fun a => match split_on " = " a with [n; v] => Some (n, v) | _ => None end)
      (split_on ", " (String.substring 4 (String.length e - 4) e))
  else None.

Fixpoint apply_set (names : dict string) (values : dict pyval) (sets : list (string * string))
    (item : dict pyval) : option (dict pyval) :=
  match sets with
  | [] => Some item
  | (n, v) :: rest =>
      match dict_get names n, dict_get values v with
      | Some a, Some x => apply_set names values rest (dict_set item a x)
      | _, _ => None
      end
  end.

Definition ddb_update_item (t : ddb_table) (req : UpdateItemRequest) : option ClientError * ddb_table :=
  match parse_condition (ui_condition_expression req), parse_set (ui_update_expression req) with
  | Some c, Some sets =>
      let row := find_row t (ui_key req) in
      match eval_any (eval_all (eval_atom (ui_names req) (ui_values req) row)) c with
      | None => (Some (mkClientError "ValidationException"
                         "An expression attribute name or value is not defined" [] "UpdateItem"), t)
      | Some false => (Some (mkClientError "ConditionalCheckFailedException"
                               "The conditional request failed" [] "UpdateItem"), t)
      | Some true =>
          match apply_set (ui_names req) (ui_values req) sets
                  (match row with Some r => r | None => ui_key req end) with
          | None => (Some (mkClientError "ValidationException"
                             "An expression attribute name or value is not defined" [] "UpdateItem"), t)
          | Some item =>
              (None, mkDdbTable (hash_key t) (range_key t)
                       (item :: filter (fun r => negb (same_key t (ui_key req) r)) (rows t)))
          end
      end
  | _, _ => (Some (mkClientError "ValidationException" "Invalid UpdateExpression" [] "UpdateItem"), t)
  end.

Definition ddb_delete_item (t : ddb_table) (req : DeleteItemRequest) : option ClientError * ddb_table :=
  match parse_condition (di_condition_expression req) with
  | None => (Some (mkClientError "ValidationException" "Invalid ConditionExpression" [] "DeleteItem"), t)
  | Some c =>
      let row := find_row t (di_key req) in
      match eval_any (eval_all (eval_atom (di_names req) (di_values req) row)) c with
      | None => (Some (mkClientError "ValidationException"
                         "An expression attribute name or value is not defined" [] "DeleteItem"), t)
      | Some false => (Some (mkClientError "ConditionalCheckFailedException"
                               "The conditional request failed" [] "DeleteItem"), t)
      | Some true =>
          (None, mkDdbTable (hash_key t) (range_key t)
                   (filter (fun r => negb (same_key t (di_key req) r)) (rows t)))
      end
  end.

(** The lease under a key is held by [tok] at [now], in the protocol's
    words: the row stores the token [tok] and an expiry after [now]. *)
Definition lease_held_by (m : LeaseManager) (row : option (dict pyval)) (tok : string) (now : Z) : bool :=
  match row with
  | None => false
  | Some r =>
      match s_attr r (token_attr m), dict_get r (expires_at_attr m) with
      | Some t, Some stored =>
          String.eqb t tok &&
          match n_value stored with
          | Some x => match number_of x with Some e => (now <? e)%Z | None => false end
          | None => false
          end
      | _, _ => false
      end
  end.

(** The row after a refresh to [expires_at]: the new expiry, and the new
    [ttl] when the manager writes one. *)
Definition refreshed_row (m : LeaseManager) (r : dict pyval) (expires_at : Z) : dict pyval :=
  let r := dict_set r (expires_at_attr m) (attr_N expires_at) in
  if negb (String.eqb (ttl_attr m) "") && (0 <? ttl_buffer_seconds m)%Z
  then dict_set r (ttl_attr m) (attr_N (expires_at + ttl_buffer_seconds m))
  else r.

(** The table without the rows under a key. *)
Definition drop_key (t : ddb_table) (k : dict pyval) : ddb_table :=
  mkDdbTable (hash_key t) (range_key t) (filter (fun r => negb (same_key t k r)) (rows t)).

Definition refresh_sets (m : LeaseManager) : list (string * string) :=
  if negb (String.eqb (ttl_attr m) "") && (0 <? ttl_buffer_seconds m)%Z
  then [("#exp", ":exp"); ("#ttl", ":ttl")] else [("#exp", ":exp")].

Definition held_job_table : ddb_table :=
  mkDdbTable "pk" "sk" [pi_item (acquire_request default_lease_manager 1000 "t1" job_key 30)].

(* ================================================================== *)
(** * Properties *)

(** ** Dicts *)

Lemma dict_get_set {A} (d : dict A) k v k' :
  dict_get (dict_set d k v) k' = if String.eqb k' k then Some v else dict_get d k'.
Proof.
  induction d as [|[k0 v0] r IH]; simpl.
  - destruct (String.eqb k' k); reflexivity.
  - destruct (String.eqb k k0) eqn:E; simpl.
    + apply String.eqb_eq in E; subst k0.
      destruct (String.eqb k' k); reflexivity.
    + rewrite IH. destruct (String.eqb k' k0) eqn:E1, (String.eqb k' k) eqn:E2; try reflexivity.
      apply String.eqb_eq in E1, E2; subst. rewrite String.eqb_refl in E. discriminate.
Qed.

Lemma dict_get_set_same {A} (d : dict A) k v : dict_get (dict_set d k v) k = Some v.
Proof. rewrite dict_get_set, String.eqb_refl. reflexivity. Qed.

Lemma dict_get_set_other {A} (d : dict A) k v k' : k' <> k -> dict_get (dict_set d k v) k' = dict_get d k'.
Proof.
  intro H. rewrite dict_get_set. destruct (String.eqb k' k) eqn:E; [|reflexivity].
  apply String.eqb_eq in E. contradiction.
Qed.

Lemma dict_get_In {A} (d : dict A) k v : dict_get d k = Some v -> In (k, v) d.
Proof.
  induction d as [|[k0 v0] r IH]; simpl; [discriminate|].
  destruct (String.eqb k k0) eqn:E.
  - apply String.eqb_eq in E; subst. intros [= ->]. left; reflexivity.
  - intro H. right. apply IH, H.
Qed.

Lemma dict_get_None {A} (d : dict A) k : dict_get d k = None <-> ~ In k (dict_keys d).
Proof.
  induction d as [|[k0 v0] r IH]; simpl; [tauto|].
  destruct (String.eqb k k0) eqn:E.
  - apply String.eqb_eq in E; subst. split; [discriminate|]. intro H; exfalso; apply H; left; reflexivity.
  - rewrite IH. apply String.eqb_neq in E. split.
    + intros H [H1|H1]; [congruence|tauto].
    + tauto.
Qed.

(** ** C9: omit-if-empty *)

(** [_is_empty] holds of exactly the values the docstring lists. *)
Lemma is_empty_spec (v : pyval) :
  is_empty v = true <->
  v = PNone \/ v = PBool false \/ v = PInt 0 \/ (exists q, v = PFloat q /\ Qeq_bool q 0 = true) \/
  v = PStr "" \/ v = PBytes "" \/ v = PList [] \/ v = PTuple [] \/ v = PSet [] \/ v = PDict [].
Proof.
  destruct v as [|[]|z|q|s|s|l|l|l|d]; simpl.
  - split; [auto|reflexivity].
  - split; [discriminate|]. intros H; repeat destruct H as [H|H]; try discriminate; destruct H as [? [H _]]; discriminate.
  - split; [auto|reflexivity].
  - destruct (Z.eqb_spec z 0) as [->|Hz].
    + split; [auto 10|reflexivity].
    + split; [discriminate|]. intros H; repeat destruct H as [H|H]; try congruence; destruct H as [? [H _]]; discriminate.
  - destruct (Qeq_bool q 0) eqn:Hq.
    + split; [eauto 10|reflexivity].
    + split; [discriminate|]. intros H; repeat destruct H as [H|H]; try discriminate; destruct H as [q' [H1 H2]]; congruence.
  - destruct (String.eqb_spec s "") as [->|Hs].
    + split; [auto 10|reflexivity].
    + split; [discriminate|]. intros H; repeat destruct H as [H|H]; try congruence; destruct H as [? [H _]]; discriminate.
  - destruct (String.eqb_spec s "") as [->|Hs].
    + split; [auto 10|reflexivity].
    + split; [discriminate|]. intros H; repeat destruct H as [H|H]; try congruence; destruct H as [? [H _]]; discriminate.
  - destruct l; [split; [auto 10|reflexivity]|].
    split; [discriminate|]. intros H; repeat destruct H as [H|H]; try congruence; destruct H as [? [H _]]; discriminate.
  - destruct l; [split; [auto 10|reflexivity]|].
    split; [discriminate|]. intros H; repeat destruct H as [H|H]; try congruence; destruct H as [? [H _]]; discriminate.
  - destruct l; [split; [auto 10|reflexivity]|].
    split; [discriminate|]. intros H; repeat destruct H as [H|H]; try congruence; destruct H as [? [H _]]; discriminate.
  - destruct d; [split; [auto 10|reflexivity]|].
    split; [discriminate|]. intros H; repeat destruct H as [H|H]; try congruence; destruct H as [? [H _]]; discriminate.
Qed.

Definition attr_names (attrs : dict AttributeDefinition) : list string :=
  map (fun p => attribute_name (snd p)) attrs.

Lemma to_item_loop_frame sav attrs item out0 out :
  to_item_loop sav attrs item out0 = Ok out ->
  forall a, ~ In a (attr_names attrs) -> dict_get out a = dict_get out0 a.
Proof.
  revert out0. induction attrs as [|[f ad] rest IH]; simpl; intros out0 H a Ha.
  - injection H as <-. reflexivity.
  - destruct (omitempty ad && is_empty (item f)).
    + apply (IH _ H). tauto.
    + destruct (sav ad (item f)) as [av|e]; simpl in H; [|discriminate].
      rewrite (IH _ H a) by tauto. apply dict_get_set_other. intro; subst; tauto.
Qed.

Lemma to_item_loop_omits sav attrs item out0 out :
  to_item_loop sav attrs item out0 = Ok out ->
  NoDup (attr_names attrs) ->
  (forall a, In a (attr_names attrs) -> dict_get out0 a = None) ->
  forall f ad, In (f, ad) attrs ->
  (dict_get out (attribute_name ad) = None <-> omitempty ad && is_empty (item f) = true).
Proof.
  revert out0. induction attrs as [|[f0 ad0] rest IH]; simpl; intros out0 H Hnd Hfresh f ad Hin;
    [contradiction|].
  inversion Hnd as [|? ? Hnotin Hnd']; subst.
  destruct (omitempty ad0 && is_empty (item f0)) eqn:E.
  - destruct Hin as [[= <- <-]|Hin].
    + rewrite (to_item_loop_frame _ _ _ _ _ H _ Hnotin), E. split; [reflexivity|]. intros _. apply Hfresh. left; reflexivity.
    + apply (IH _ H Hnd'); [|exact Hin]. intros a Ha. apply Hfresh. right; exact Ha.
  - destruct (sav ad0 (item f0)) as [av|e] eqn:Hs; simpl in H; [|discriminate].
    destruct Hin as [[= <- <-]|Hin].
    + rewrite (to_item_loop_frame _ _ _ _ _ H _ Hnotin), dict_get_set_same, E. split; discriminate.
    + apply (IH _ H Hnd'); [|exact Hin]. intros a Ha.
      rewrite dict_get_set_other by (intro; subst; contradiction).
      apply Hfresh. right; exact Ha.
Qed.

(** C9.  For a model whose fields have distinct attribute names, the item
    [_to_item] builds for a write (a put, a [PutRequest] of [batch_write], a
    [Put] of [transact_write]) lacks a field's attribute exactly when the
    field is [omitempty] and its value is [None], [False], a numeric zero,
    an empty string or bytes, or an empty list, tuple, set or dict; so [0]
    and [False] are dropped. *)
Theorem to_item_omitempty_exact :
  forall (model : ModelDefinition) (sav : AttributeDefinition -> pyval -> result pyval)
         (item : Item) (out : dict pyval),
  NoDup (attr_names (attributes model)) ->
  to_item model sav item = Ok out ->
  forall field ad, In (field, ad) (attributes model) ->
  (dict_get out (attribute_name ad) = None <->
   omitempty ad = true /\
   (item field = PNone \/ item field = PBool false \/ item field = PInt 0 \/
    (exists q, item field = PFloat q /\ Qeq_bool q 0 = true) \/
    item field = PStr "" \/ item field = PBytes "" \/ item field = PList [] \/
    item field = PTuple [] \/ item field = PSet [] \/ item field = PDict [])).
Proof.
  intros model sav item out Hnd H field ad Hin.
  unfold to_item in H.
  destruct (to_item_loop sav (attributes model) item []) as [o|e] eqn:L; simpl in H; [|discriminate].
  assert (Ho : o = out).
  { destruct (dict_get o (attribute_name (pk model))); [|discriminate].
    destruct (sk model) as [s|]; [|congruence].
    destruct (dict_get o (attribute_name s)); congruence. }
  subst o.
  rewrite (to_item_loop_omits _ _ _ _ _ L Hnd (fun _ _ => eq_refl) _ _ Hin).
  rewrite andb_true_iff, is_empty_spec. reflexivity.
Qed.

Lemma to_item_omitempty_exact_witness :
  NoDup (attr_names (attributes sample_omit_model)) /\
  to_item sample_omit_model sample_serialize_attr sample_item =
    Ok [("id", PDict [("S", PStr "A")]); ("flag", PDict [("BOOL", PBool true)])] /\
  (dict_get [("id", PDict [("S", PStr "A")]); ("flag", PDict [("BOOL", PBool true)])] "count" = None <->
   omitempty (mkAttributeDefinition "count" "count" [] true false false false false) = true /\
   (sample_item "count" = PNone \/ sample_item "count" = PBool false \/ sample_item "count" = PInt 0 \/
    (exists q, sample_item "count" = PFloat q /\ Qeq_bool q 0 = true) \/
    sample_item "count" = PStr "" \/ sample_item "count" = PBytes "" \/ sample_item "count" = PList [] \/
    sample_item "count" = PTuple [] \/ sample_item "count" = PSet [] \/ sample_item "count" = PDict [])).
Proof.
  assert (Hnd : NoDup (attr_names (attributes sample_omit_model))).
  { repeat constructor; simpl; intuition discriminate. }
  assert (Ht : to_item sample_omit_model sample_serialize_attr sample_item =
               Ok [("id", PDict [("S", PStr "A")]); ("flag", PDict [("BOOL", PBool true)])]).
  { vm_compute. reflexivity. }
  split; [exact Hnd|]. split; [exact Ht|].
  exact (to_item_omitempty_exact sample_omit_model sample_serialize_attr sample_item _ Hnd Ht "count"
           (mkAttributeDefinition "count" "count" [] true false false false false)
           (or_intror (or_introl eq_refl))).
Defined.

(** ** C10: [None] removes *)

Lemma build_update_loop_parts model sav updates n v sp rp n' v' sp' rp' :
  build_update_loop model sav updates n v sp rp = Ok (n', v', sp', rp') ->
  sp' = app sp (map (fun p => "#d_" ++ fst p ++ " = :d_" ++ fst p)
                  (filter (fun p => negb (is_none (snd p))) updates)) /\
  rp' = app rp (map (fun p => "#d_" ++ fst p) (filter (fun p => is_none (snd p)) updates)).
Proof.
  revert n v sp rp. induction updates as [|[f x] rest IH]; simpl; intros n v sp rp H.
  - injection H as <- <- <- <-. rewrite !app_nil_r. split; reflexivity.
  - destruct (dict_get (attributes model) f) as [ad|]; [|discriminate].
    destruct (is_key_field model f); [discriminate|].
    destruct x; simpl in *;
      try (destruct (sav ad _); simpl in H; [|discriminate];
           destruct (IH _ _ _ _ H) as [-> ->]; rewrite <- app_assoc; split; reflexivity).
    destruct (IH _ _ _ _ H) as [-> ->]. rewrite <- app_assoc. split; reflexivity.
Qed.

Lemma build_update_loop_rejects model sav updates n v sp rp :
  (forall f x ad, In (f, x) updates -> dict_get (attributes model) f = Some ad -> x <> PNone ->
                  exists av, sav ad x = Ok av) ->
  (exists f x, In (f, x) updates /\
               (dict_get (attributes model) f = None \/ is_key_field model f = true)) ->
  exists msg, build_update_loop model sav updates n v sp rp = Err (ValidationError msg).
Proof.
  revert n v sp rp. induction updates as [|[f x] rest IH]; simpl; intros n v sp rp Hser Hbad.
  - destruct Hbad as [? [? [[] _]]].
  - destruct (dict_get (attributes model) f) as [ad|] eqn:Ha; [|eexists; reflexivity].
    destruct (is_key_field model f) eqn:Hk; [eexists; reflexivity|].
    assert (Hrest : exists f x, In (f, x) rest /\
                    (dict_get (attributes model) f = None \/ is_key_field model f = true)).
    { destruct Hbad as [f' [x' [[[= <- <-]|Hin] Hb]]].
      - destruct Hb as [Hb|Hb]; congruence.
      - exists f', x'; split; assumption. }
    assert (Hser' : forall f x ad, In (f, x) rest -> dict_get (attributes model) f = Some ad ->
                    x <> PNone -> exists av, sav ad x = Ok av).
    { intros f' x' ad' Hin. apply Hser. right; exact Hin. }
    destruct x; simpl; try (apply IH; assumption);
      (destruct (Hser f _ ad (or_introl eq_refl) Ha) as [av Hav]; [discriminate|];
       rewrite Hav; simpl; apply IH; assumption).
Qed.

(** C10.  In [Table.update] (and the [Update] actions of
    [transact_write]), a field given [None] becomes a REMOVE of its
    attribute and a field given a value a SET assignment: the compiled
    update expression is exactly [field_update_expression updates].  A map
    naming an unknown field or a key field is refused with a validation
    error, whatever the client would answer: no request is sent. *)
Theorem update_none_removes :
  forall (model : ModelDefinition) (table_name : string)
         (sav : AttributeDefinition -> pyval -> result pyval) (ser : pyval -> result pyval),
  (forall pk_value sk_value updates cond names values return_values req,
     build_update_request model table_name sav ser pk_value sk_value updates cond names values return_values
       = Ok req ->
     ur_update_expression req = field_update_expression updates) /\
  (forall (T : Type) (from_item : pyval -> result T) pk_value sk_value updates cond names values k,
     to_key model sav pk_value sk_value = Ok k ->
     (forall f x ad, In (f, x) updates -> dict_get (attributes model) f = Some ad -> x <> PNone ->
                     exists av, sav ad x = Ok av) ->
     (exists f x, In (f, x) updates /\
                  (dict_get (attributes model) f = None \/ is_key_field model f = true)) ->
     exists msg, forall update_item,
       table_update model table_name sav ser T from_item update_item pk_value sk_value updates cond names values
         = Err (ValidationError msg)).
Proof.
  intros model table_name sav ser. split.
  - intros pk_value sk_value updates cond names values return_values req H.
    unfold build_update_request in H.
    destruct (to_key model sav pk_value sk_value) as [k|e]; cbn [bind] in H; [|discriminate].
    destruct (build_update_loop model sav updates [] [] [] []) as [[[[n v] sp] rp]|e] eqn:L;
      cbn [bind] in H; [|discriminate].
    destruct (build_update_loop_parts _ _ _ _ _ _ _ _ _ _ _ L) as [Hs Hr].
    rewrite app_nil_l in Hs, Hr.
    unfold field_update_expression, clause. rewrite <- Hs, <- Hr.
    destruct sp as [|s0 sp], rp as [|r0 rp]; [discriminate| | |];
    (destruct (merge_new "name" n names); cbn [bind] in H; [|discriminate];
     destruct values as [|p0 values]; cbn [bind] in H;
     [ injection H as <-; reflexivity
     | destruct (serialize_values ser (p0 :: values)); cbn [bind] in H; [|discriminate];
       destruct (merge_new "value" v _); cbn [bind] in H; [|discriminate];
       injection H as <-; reflexivity ]).
  - intros T from_item pk_value sk_value updates cond names values k Hk Hser Hbad.
    destruct (build_update_loop_rejects model sav updates [] [] [] [] Hser Hbad) as [msg Hmsg].
    exists msg. intro update_item.
    unfold table_update, build_update_request. rewrite Hk. simpl. rewrite Hmsg. reflexivity.
Qed.

Lemma update_none_removes_witness :
  (exists req,
     build_update_request sample_model "items" sample_serialize_attr sample_serialize (PStr "A") PNone
       [("name", PNone); ("version", PInt 3)] None [] [] (Some "ALL_NEW") = Ok req /\
     ur_update_expression req = "SET #d_version = :d_version REMOVE #d_name") /\
  exists msg, forall update_item,
    table_update sample_model "items" sample_serialize_attr sample_serialize pyval sample_from_item
      update_item (PStr "A") PNone [("name", PStr "n"); ("id", PStr "B")] None [] []
      = Err (ValidationError msg).
Proof.
  destruct (update_none_removes sample_model "items" sample_serialize_attr sample_serialize) as [H1 H2].
  split.
  - eexists. split.
    + vm_compute. reflexivity.
    + rewrite (H1 (PStr "A") PNone [("name", PNone); ("version", PInt 3)] None [] [] (Some "ALL_NEW")).
      * vm_compute. reflexivity.
      * vm_compute. reflexivity.
  - apply (H2 pyval sample_from_item (PStr "A") PNone [("name", PStr "n"); ("id", PStr "B")] None [] []
             [("id", PDict [("S", PStr "A")])]).
    + vm_compute. reflexivity.
    + intros f x ad Hin _ _.
      destruct Hin as [[= <- <-]|[[= <- <-]|[]]]; eexists; reflexivity.
    + exists "id", (PStr "B"). split.
      * right; left; reflexivity.
      * right. vm_compute. reflexivity.
Defined.

(** ** C5: transaction cancellations *)

(** C5.  When the backend cancels a transaction, [transact_write] raises
    [ConditionFailedError] exactly when one of the reason codes is
    [ConditionalCheckFailed] or the error message contains
    [ConditionalCheckFailed]; otherwise it raises [TransactionCanceledError]
    carrying [reason_codes], the codes of the reasons that are dicts with a
    non-empty [Code], in order. *)
Theorem transact_cancel_mapping :
  forall model table_name sav ser twi actions items err,
  actions <> [] -> length actions <= 100 ->
  map_result (compile_action model table_name sav ser) actions = Ok items ->
  twi items = Some err ->
  error_code err = "TransactionCanceledException" ->
  (In "ConditionalCheckFailed" (reason_codes (cancellation_reasons err)) \/
   str_contains "ConditionalCheckFailed" (error_message err) = true ->
   transact_write model table_name sav ser twi actions =
     Err (ConditionFailedError (if String.eqb (error_message err) "" then "transaction canceled: ConditionalCheckFailed"
                                else error_message err))) /\
  (~ In "ConditionalCheckFailed" (reason_codes (cancellation_reasons err)) ->
   str_contains "ConditionalCheckFailed" (error_message err) = false ->
   transact_write model table_name sav ser twi actions =
     Err (TransactionCanceledError (if String.eqb (error_message err) "" then "transaction canceled"
                                    else error_message err)
                                   (reason_codes (cancellation_reasons err)))).
Proof.
  intros model table_name sav ser twi actions items err Hne Hlen Hc Ht Hcode.
  assert (E : transact_write model table_name sav ser twi actions = Err (map_transaction_error err)).
  { unfold transact_write. destruct actions as [|a rest]; [congruence|].
    replace (100 <? length (a :: rest)) with false by (symmetry; apply Nat.ltb_ge; exact Hlen).
    rewrite Hc. cbn [bind]. rewrite Ht. reflexivity. }
  rewrite E. unfold map_transaction_error. rewrite Hcode. simpl.
  split.
  - intros H. replace (existsb _ _ || _) with true; [reflexivity|].
    destruct H as [H|H].
    + symmetry. apply orb_true_intro. left. apply existsb_exists.
      exists "ConditionalCheckFailed"%string. split; [exact H | apply String.eqb_refl].
    + rewrite H. symmetry. apply orb_true_r.
  - intros H1 H2. rewrite H2, orb_false_r.
    replace (existsb _ _) with false; [reflexivity|].
    symmetry. apply not_true_iff_false. intro H. apply existsb_exists in H.
    destruct H as [rc [Hin Heq]]. apply String.eqb_eq in Heq. subst rc. contradiction.
Qed.

Lemma transact_cancel_mapping_witness :
  transact_write sample_model "items" sample_serialize_attr sample_serialize
    (fun _ => Some cancel_throttled) [sample_check] =
    Err (TransactionCanceledError "transaction canceled" ["ThrottlingError"]).
Proof.
  destruct (transact_cancel_mapping sample_model "items" sample_serialize_attr sample_serialize
              (fun _ => Some cancel_throttled) [sample_check]
              [TICheck [("id", PDict [("S", PStr "A")])] "attribute_exists(#pk)" (Some [("#pk", "id")]) None]
              cancel_throttled) as [_ H].
  - discriminate.
  - simpl. lia.
  - vm_compute. reflexivity.
  - reflexivity.
  - reflexivity.
  - apply H.
    + vm_compute. intros [H'|[]]. discriminate.
    + vm_compute. reflexivity.
Defined.

(** C5, counterexample: a cancellation whose reasons carry no
    [ConditionalCheckFailed] code (here no code at all) still raises
    [ConditionFailedError], because the message mentions
    [ConditionalCheckFailed]; it is not a [TransactionCanceledError]. *)
Lemma transact_cancel_message_promotes :
  reason_codes (cancellation_reasons cancel_by_message) = [] /\
  transact_write sample_model "items" sample_serialize_attr sample_serialize
    (fun _ => Some cancel_by_message) [sample_check] =
    Err (ConditionFailedError (error_message cancel_by_message)) /\
  ~ (exists m codes, transact_write sample_model "items" sample_serialize_attr sample_serialize
                       (fun _ => Some cancel_by_message) [sample_check] =
                     Err (TransactionCanceledError m codes)).
Proof.
  assert (E : transact_write sample_model "items" sample_serialize_attr sample_serialize
                (fun _ => Some cancel_by_message) [sample_check] =
              Err (ConditionFailedError (error_message cancel_by_message))).
  { vm_compute. reflexivity. }
  split; [reflexivity|]. split; [exact E|].
  intros [m [codes H]]. rewrite E in H. discriminate.
Qed.

(** ** C8: the result of an update *)

(** C8.  [Table.update] returns the item built from the returned
    [Attributes] when they are present and non-empty, and otherwise raises
    [ValidationError "update did not return Attributes"].
    [UpdateBuilder.execute] returns [Some] of the item in the first case
    but [None], not an error, in the second. *)
Theorem update_result_handling :
  forall model table_name sav ser (T : Type) (from_item : pyval -> result T)
         (update_item : UpdateRequest -> update_reply),
  (forall pk_value sk_value updates cond names values req resp,
     build_update_request model table_name sav ser pk_value sk_value updates cond names values (Some "ALL_NEW")
       = Ok req ->
     update_item req = UpdateOk resp ->
     table_update model table_name sav ser T from_item update_item pk_value sk_value updates cond names values =
       match dict_get resp "Attributes" with
       | Some attrs => if py_truthy attrs then from_item attrs
                       else Err (ValidationError "update did not return Attributes")
       | None => Err (ValidationError "update did not return Attributes")
       end) /\
  (forall b req resp,
     ub_updates b <> [] ->
     build_request model table_name sav ser b = Ok req ->
     update_item req = UpdateOk resp ->
     execute model table_name sav ser T from_item update_item b =
       match dict_get resp "Attributes" with
       | Some attrs => if py_truthy attrs then x <- from_item attrs ;; Ok (Some x) else Ok None
       | None => Ok None
       end).
Proof.
  intros model table_name sav ser T from_item update_item. split.
  - intros pk_value sk_value updates cond names values req resp Hb Hu.
    unfold table_update. rewrite Hb. cbn [bind]. rewrite Hu. reflexivity.
  - intros b req resp Hne Hb Hu.
    unfold execute. destruct (ub_updates b) eqn:Hub; [congruence|].
    rewrite Hb. cbn [bind]. rewrite Hu. reflexivity.
Qed.

Lemma update_result_handling_witness :
  execute sample_model "items" sample_serialize_attr sample_serialize pyval sample_from_item
    (fun _ => UpdateOk [("Attributes", PDict [("id", PDict [("S", PStr "A")])])]) sample_set_builder =
    Ok (Some (PDict [("id", PDict [("S", PStr "A")])])) /\
  table_update sample_model "items" sample_serialize_attr sample_serialize pyval sample_from_item
    (fun _ => UpdateOk []) (PStr "A") PNone [("name", PStr "v1")] None [] [] =
    Err (ValidationError "update did not return Attributes").
Proof.
  destruct (update_result_handling sample_model "items" sample_serialize_attr sample_serialize pyval
              sample_from_item (fun _ => UpdateOk [("Attributes", PDict [("id", PDict [("S", PStr "A")])])]))
    as [_ H2].
  destruct (update_result_handling sample_model "items" sample_serialize_attr sample_serialize pyval
              sample_from_item (fun _ => UpdateOk [])) as [H1 _].
  split.
  - erewrite (H2 sample_set_builder _ [("Attributes", PDict [("id", PDict [("S", PStr "A")])])]).
    + reflexivity.
    + discriminate.
    + vm_compute. reflexivity.
    + reflexivity.
  - erewrite (H1 (PStr "A") PNone [("name", PStr "v1")] None [] [] _ []).
    + reflexivity.
    + vm_compute. reflexivity.
    + reflexivity.
Defined.

(** C8, counterexample: when the store returns no [Attributes] (as it does
    for the builder's default [ReturnValues] of [NONE]), an executed builder
    returns [None] instead of raising an error. *)
Lemma execute_no_attributes_returns_none :
  execute sample_model "items" sample_serialize_attr sample_serialize pyval sample_from_item
    (fun _ => UpdateOk []) sample_set_builder = Ok None /\
  ub_return_values sample_set_builder = "NONE".
Proof. split; [vm_compute; reflexivity | reflexivity]. Qed.

(** ** C2: the update builder *)

Section BuilderParts.
Variable model : ModelDefinition.
Variable table_name : string.
Variable sav : AttributeDefinition -> pyval -> result pyval.
Variable ser : pyval -> result pyval.

Definition keeps_parts {A} (m : St A) : Prop :=
  forall s a s', m s = Ok (a, s') -> parts s' = parts s.

Definition pushes (kw : string) (m : St unit) : Prop :=
  forall s u s', m s = Ok (u, s') -> exists frag, parts s' = app_frags [(kw, frag)] (parts s).

Lemma st_bind_inv {A B} (m : St A) (k : A -> St B) s b s' :
  st_bind m k s = Ok (b, s') -> exists a s1, m s = Ok (a, s1) /\ k a s1 = Ok (b, s').
Proof.
  unfold st_bind. destruct (m s) as [[a s1]|e]; [|discriminate]. intros H. exists a, s1. split; auto.
Qed.

Lemma keeps_bind {A B} (m : St A) (k : A -> St B) :
  keeps_parts m -> (forall a, keeps_parts (k a)) -> keeps_parts (st_bind m k).
Proof.
  intros Hm Hk s b s' H. apply st_bind_inv in H. destruct H as [a [s1 [H1 H2]]].
  rewrite (Hk _ _ _ _ H2). exact (Hm _ _ _ H1).
Qed.

Lemma pushes_bind {A} kw (m : St A) (k : A -> St unit) :
  keeps_parts m -> (forall a, pushes kw (k a)) -> pushes kw (st_bind m k).
Proof.
  intros Hm Hk s b s' H. apply st_bind_inv in H. destruct H as [a [s1 [H1 H2]]].
  destruct (Hk _ _ _ _ H2) as [frag E]. exists frag. rewrite E, (Hm _ _ _ H1). reflexivity.
Qed.

Lemma keeps_ret {A} (a : A) : keeps_parts (st_ret a).
Proof. intros s a' s' H. injection H as _ <-. reflexivity. Qed.

Lemma keeps_raise {A} e : keeps_parts (A := A) (st_raise e).
Proof. intros s a s' H. discriminate. Qed.

Lemma pushes_raise kw e : pushes kw (st_raise e).
Proof. intros s a s' H. discriminate. Qed.

Lemma keeps_names_setdefault k v : keeps_parts (names_setdefault k v).
Proof.
  intros s a s' H. injection H as _ <-. destruct (dict_get (st_names s) k); reflexivity.
Qed.

Lemma keeps_update_name_ref f : keeps_parts (update_name_ref model f).
Proof.
  unfold update_name_ref. destruct (dict_get (attributes model) f); [|apply keeps_raise].
  destruct (is_key_field model f); [apply keeps_raise|].
  apply keeps_bind; [apply keeps_names_setdefault | intros; apply keeps_ret].
Qed.

Lemma keeps_new_update_value r : keeps_parts (new_update_value r).
Proof.
  intros s a s' H. unfold new_update_value in H. destruct r; [|discriminate].
  injection H as _ <-. reflexivity.
Qed.

Lemma keeps_update_value_ref ad v : keeps_parts (update_value_ref sav ad v).
Proof. apply keeps_new_update_value. Qed.

Lemma keeps_raw_value_ref v : keeps_parts (raw_value_ref ser v).
Proof. apply keeps_new_update_value. Qed.

Lemma keeps_plain_list_attr f ad : keeps_parts (plain_list_attr f ad).
Proof.
  unfold plain_list_attr. destruct (encrypted ad); [apply keeps_raise|].
  destruct (_ || _); [apply keeps_raise | apply keeps_ret].
Qed.

Lemma pushes_set p : pushes "SET" (push_set p).
Proof.
  intros s u s' H. injection H as _ <-. exists p. unfold parts, app_frags, parts_of. simpl. rewrite !app_nil_r.
  reflexivity.
Qed.

Lemma pushes_remove p : pushes "REMOVE" (push_remove p).
Proof.
  intros s u s' H. injection H as _ <-. exists p. unfold parts, app_frags, parts_of. simpl. rewrite !app_nil_r.
  reflexivity.
Qed.

Lemma pushes_add p : pushes "ADD" (push_add p).
Proof.
  intros s u s' H. injection H as _ <-. exists p. unfold parts, app_frags, parts_of. simpl. rewrite !app_nil_r.
  reflexivity.
Qed.

Lemma pushes_delete p : pushes "DELETE" (push_delete p).
Proof.
  intros s u s' H. injection H as _ <-. exists p. unfold parts, app_frags, parts_of. simpl. rewrite !app_nil_r.
  reflexivity.
Qed.

Create HintDb builder_parts.
#[local] Hint Resolve keeps_ret keeps_raise pushes_raise keeps_names_setdefault keeps_update_name_ref
  keeps_new_update_value keeps_update_value_ref keeps_raw_value_ref keeps_plain_list_attr pushes_set pushes_remove pushes_add pushes_delete
  : builder_parts.

Ltac pushes_step :=
  match goal with
  | |- pushes _ (st_bind _ _) => apply pushes_bind; [auto with builder_parts | intros ?]
  | |- pushes _ (match ?x with pair _ _ => _ end) => destruct x
  | |- pushes _ (if ?c then _ else _) => destruct c
  | |- pushes _ (match ?x with Some _ => _ | None => _ end) => destruct x
  end.

Lemma build_op_pushes op : pushes (op_clause op) (build_op model sav ser op).
Proof.
  destruct op; simpl; repeat (pushes_step; try solve [auto with builder_parts]).
Qed.

Lemma app_frags_app f1 f2 p : app_frags f2 (app_frags f1 p) = app_frags (app f1 f2) p.
Proof.
  destruct p as [[[a b] c] d]. unfold app_frags, parts_of.
  rewrite !filter_app, !map_app, !app_assoc. reflexivity.
Qed.

Lemma build_ops_parts ops s u s' :
  build_ops model sav ser ops s = Ok (u, s') ->
  exists frags, map fst frags = map op_clause ops /\ parts s' = app_frags frags (parts s).
Proof.
  revert s. induction ops as [|op rest IH]; simpl; intros s H.
  - injection H as _ <-. exists []. split; [reflexivity|].
    unfold parts, app_frags, parts_of. simpl. rewrite !app_nil_r. reflexivity.
  - apply st_bind_inv in H. destruct H as [a [s1 [H1 H2]]].
    destruct (build_op_pushes op _ _ _ H1) as [frag E1].
    destruct (IH _ H2) as [frags [Hf E2]].
    exists ((op_clause op, frag) :: frags). split; [simpl; rewrite Hf; reflexivity|].
    rewrite E2, E1, app_frags_app. reflexivity.
Qed.

End BuilderParts.

Lemma st_bind_ret_fst {A} (c : St A) (u : string) s ue ce s' :
  st_bind c (fun x => st_ret (u, x)) s = Ok ((ue, ce), s') -> ue = u.
Proof.
  intros H. apply st_bind_inv in H. destruct H as [a [s1 [_ H]]]. injection H as <- _ _. reflexivity.
Qed.

Lemma build_request_expression model table_name sav ser b req :
  build_request model table_name sav ser b = Ok req ->
  exists s, build_ops model sav ser (ub_updates b) empty_build_state = Ok (tt, s) /\
            ur_update_expression req = update_expression_of s /\
            update_expression_of s <> ""%string.
Proof.
  unfold build_request. destruct (to_key model sav (ub_pk b) (ub_sk b)) as [k|e]; cbn [bind]; [|discriminate].
  destruct (st_bind (build_ops model sav ser (ub_updates b)) _ empty_build_state)
    as [[[ue ce] sf]|e] eqn:R; cbn [bind]; [|discriminate].
  intros H. injection H as <-. simpl.
  apply st_bind_inv in R. destruct R as [[] [s1 [H1 R]]].
  apply st_bind_inv in R. destruct R as [s2 [s3 [Hg R]]]. injection Hg as <- <-.
  exists s1. split; [exact H1|].
  destruct (String.eqb (update_expression_of s1) "") eqn:Ee; [discriminate|].
  split.
  - destruct (ub_conditions b); [injection R as <- _ _; reflexivity|].
    unfold st_bind in R. destruct (build_conditions _ _ _ _) as [[bl s4]|e]; [|discriminate].
    injection R as <- _ _. reflexivity.
  - intro E. rewrite E in Ee. discriminate.
Qed.

Lemma example_builder_request model table_name sav ser pk_value sk_value k adn adv av1 av2 av0 :
  dict_get (attributes model) "name" = Some adn ->
  dict_get (attributes model) "version" = Some adv ->
  is_key_field model "name" = false -> is_key_field model "version" = false ->
  encrypted adn = false -> encrypted adv = false -> set adv = false ->
  to_key model sav pk_value sk_value = Ok k ->
  sav adn (PStr "v1") = Ok av1 -> ser (PInt 1) = Ok av2 -> sav adn (PStr "v0") = Ok av0 ->
  exists req, build_request model table_name sav ser (example_builder pk_value sk_value) = Ok req /\
    ur_update_expression req = "SET #u_name = :u1 ADD #u_version :u2" /\
    ur_condition_expression req = Some "#c_name = :c1".
Proof.
  intros Hn Hv Kn Kv En Ev Sv Hk S1 S2 S0.
  change (example_builder pk_value sk_value) with
    (mkUpdateBuilder pk_value sk_value "NONE" [OpSet "name" (PStr "v1"); OpAdd "version" (PInt 1)]
       [("AND", "name", "=", PStr "v0")]).
  unfold build_request. simpl ub_pk. simpl ub_sk. rewrite Hk. cbn [bind].
  cbv [st_bind st_ret st_get st_raise st_modify update_name_ref condition_name_ref update_value_ref
       raw_value_ref new_update_value names_setdefault push_set push_add build_ops build_op
       build_conditions ub_updates ub_conditions condition_value_ref build_condition_term fst snd].
  repeat (first [rewrite Hn | rewrite Kn | rewrite S1 | rewrite Hv | rewrite Kv | rewrite Ev | rewrite Sv
                 | rewrite S2 | rewrite En | rewrite S0]; cbv beta iota zeta).
  cbv. eexists. split; [reflexivity|]. split; reflexivity.
Qed.

Lemma update_expression_of_parts s frags :
  parts s = app_frags frags (parts empty_build_state) ->
  update_expression_of s = render_update_expression frags.
Proof.
  unfold parts, app_frags, update_expression_of, render_update_expression. simpl.
  intros H. injection H as -> -> -> ->. reflexivity.
Qed.

(** C2.  (1) On a model where [name] and [version] are declared non-key,
    non-encrypted fields and [version] is not a set, the chain
    [set("name", "v1").add("version", 1).condition("name", "=", "v0")]
    compiles to the update expression ["SET #u_name = :u1 ADD #u_version :u2"]
    and the condition ["#c_name = :c1"].  (2) Every compiled request has a
    non-empty update expression in which each operation contributes one
    fragment to its clause, in the order of the operations, and the clauses
    come in the order SET, REMOVE, ADD, DELETE, an empty one left out.
    (3) A builder with no operation is refused with
    [ValidationError "no updates provided"], also by [execute]. *)
Theorem update_builder_compiles :
  forall (model : ModelDefinition) (table_name : string)
         (sav : AttributeDefinition -> pyval -> result pyval) (ser : pyval -> result pyval),
  (forall pk_value sk_value k adn adv av1 av2 av0,
     dict_get (attributes model) "name" = Some adn ->
     dict_get (attributes model) "version" = Some adv ->
     is_key_field model "name" = false -> is_key_field model "version" = false ->
     encrypted adn = false -> encrypted adv = false -> set adv = false ->
     to_key model sav pk_value sk_value = Ok k ->
     sav adn (PStr "v1") = Ok av1 -> ser (PInt 1) = Ok av2 -> sav adn (PStr "v0") = Ok av0 ->
     exists req, build_request model table_name sav ser (example_builder pk_value sk_value) = Ok req /\
       ur_update_expression req = "SET #u_name = :u1 ADD #u_version :u2" /\
       ur_condition_expression req = Some "#c_name = :c1") /\
  (forall b req,
     build_request model table_name sav ser b = Ok req ->
     exists frags, map fst frags = map op_clause (ub_updates b) /\
       ur_update_expression req = render_update_expression frags /\
       ur_update_expression req <> ""%string) /\
  (forall (T : Type) (from_item : pyval -> result T) update_item b k,
     ub_updates b = [] -> to_key model sav (ub_pk b) (ub_sk b) = Ok k ->
     build_request model table_name sav ser b = Err (ValidationError "no updates provided") /\
     execute model table_name sav ser T from_item update_item b = Err (ValidationError "no updates provided")).
Proof.
  intros model table_name sav ser. split; [|split].
  - intros. eapply example_builder_request; eassumption.
  - intros b req H.
    destruct (build_request_expression _ _ _ _ _ _ H) as [s [Hops [He Hne]]].
    destruct (build_ops_parts _ _ _ _ _ _ _ Hops) as [frags [Hf Hp]].
    exists frags. split; [exact Hf|]. rewrite He. split; [|exact Hne].
    apply update_expression_of_parts. exact Hp.
  - intros T from_item update_item b k Hu Hk. split.
    + unfold build_request. rewrite Hk, Hu. reflexivity.
    + unfold execute. rewrite Hu. reflexivity.
Qed.

Lemma update_builder_compiles_witness :
  (exists req,
     build_request sample_model "items" sample_serialize_attr sample_serialize
       (example_builder (PStr "A") PNone) = Ok req /\
     ur_update_expression req = "SET #u_name = :u1 ADD #u_version :u2" /\
     ur_condition_expression req = Some "#c_name = :c1") /\
  (exists frags,
     map fst frags = map op_clause (ub_updates (ub_remove (example_builder (PStr "A") PNone) "name")) /\
     render_update_expression frags = "SET #u_name = :u1 REMOVE #u_name ADD #u_version :u2") /\
  execute sample_model "items" sample_serialize_attr sample_serialize pyval sample_from_item
    (fun _ => UpdateOk []) (update_builder (PStr "A") PNone) = Err (ValidationError "no updates provided").
Proof.
  destruct (update_builder_compiles sample_model "items" sample_serialize_attr sample_serialize)
    as [Ha [Hb Hc]].
  split; [|split].
  - apply (Ha (PStr "A") PNone [("id", PDict [("S", PStr "A")])] (sample_attr "name" [] false)
             (sample_attr "version" [] false) (PDict [("S", PStr "v1")]) (PDict [("N", PStr "1")])
             (PDict [("S", PStr "v0")])); reflexivity.
  - destruct (Hb (ub_remove (example_builder (PStr "A") PNone) "name")
                {| ur_table_name := "items"; ur_key := [("id", PDict [("S", PStr "A")])];
                   ur_update_expression := "SET #u_name = :u1 REMOVE #u_name ADD #u_version :u2";
                   ur_names := [("#u_name", "name"); ("#u_version", "version"); ("#c_name", "name")];
                   ur_values := Some [(":u1", PDict [("S", PStr "v1")]); (":u2", PDict [("N", PStr "1")]);
                                      (":c1", PDict [("S", PStr "v0")])];
                   ur_return_values := Some "NONE";
                   ur_condition_expression := Some "#c_name = :c1" |}) as [frags [Hf [He _]]].
    + vm_compute. reflexivity.
    + exists frags. split; [exact Hf|]. rewrite <- He. reflexivity.
  - apply (Hc pyval sample_from_item (fun _ => UpdateOk []) (update_builder (PStr "A") PNone)
             [("id", PDict [("S", PStr "A")])]); reflexivity.
Defined.

(** ** C4: the retry bound of batch operations *)

Lemma map_result_cons {A B} (f : A -> result B) x r :
  map_result f (x :: r) = (y <- f x ;; r' <- map_result f r ;; Ok (y :: r')).
Proof. reflexivity. Qed.

Lemma map_result_length {A B} (f : A -> result B) l l' :
  map_result f l = Ok l' -> length l' = length l.
Proof.
  revert l'. induction l as [|x r IH]; intros l' H.
  - injection H as <-. reflexivity.
  - rewrite map_result_cons in H. destruct (f x) as [y|e]; cbn [bind] in H; [|discriminate].
    destruct (map_result f r) as [r'|e] eqn:E; cbn [bind] in H; [|discriminate].
    injection H as <-. simpl. rewrite (IH r' eq_refl). reflexivity.
Qed.

Lemma map_result_total {A B} (f : A -> result B) l :
  (forall x, In x l -> exists y, f x = Ok y) -> exists l', map_result f l = Ok l'.
Proof.
  induction l as [|x r IH]; intros H.
  - exists []. reflexivity.
  - destruct (H x (or_introl eq_refl)) as [y Hy].
    destruct IH as [r' Hr]; [intros z Hz; apply H; right; exact Hz|].
    exists (y :: r'). rewrite map_result_cons, Hy, Hr. reflexivity.
Qed.

Lemma chunked_cons {A} (l : list A) n :
  l <> [] -> exists rest, chunked l n = firstn n l :: rest.
Proof.
  intros H. unfold chunked. destruct l as [|x r]; [congruence|]. simpl. eexists. reflexivity.
Qed.

Lemma In_firstn_In {A} (x : A) n l : In x (firstn n l) -> In x l.
Proof.
  intros H. rewrite <- (firstn_skipn n l). apply in_or_app. left. exact H.
Qed.

Lemma batch_get_loop_unprocessed T (from_item : pyval -> result T) bgi :
  (forall calls pending, bgi calls pending = BatchGetOk [] pending) ->
  forall r pending calls out, pending <> [] ->
  batch_get_loop T from_item bgi r pending calls out =
    (Err (BatchRetryExceededError "batch_get" (length pending)), app calls (repeat pending (S r))).
Proof.
  intros Hb r. induction r as [|r IH]; intros pending calls out Hne;
    destruct pending as [|k ks]; try congruence; simpl; rewrite Hb; simpl.
  - reflexivity.
  - rewrite IH by discriminate. rewrite <- app_assoc. reflexivity.
Qed.

Lemma batch_write_loop_unprocessed bwi :
  (forall calls pending, bwi calls pending = BatchWriteOk pending) ->
  forall r pending calls, pending <> [] ->
  batch_write_loop bwi r pending calls =
    (Err (BatchRetryExceededError "batch_write" (length pending)), app calls (repeat pending (S r))).
Proof.
  intros Hb r. induction r as [|r IH]; intros pending calls Hne;
    destruct pending as [|k ks]; try congruence; simpl; rewrite Hb; simpl.
  - reflexivity.
  - rewrite IH by discriminate. rewrite <- app_assoc. reflexivity.
Qed.

Lemma write_requests_length model sav puts deletes requests :
  write_requests model sav puts deletes = Ok requests -> length requests = length puts + length deletes.
Proof.
  unfold write_requests.
  destruct (map_result _ puts) as [ps|e] eqn:Hp; cbn [bind]; [|discriminate].
  destruct (map_result _ deletes) as [ds|e] eqn:Hd; cbn [bind]; [|discriminate].
  intros H. injection H as <-. rewrite length_app.
  rewrite (map_result_length _ _ _ Hp), (map_result_length _ _ _ Hd). reflexivity.
Qed.

(** C4.  Against a backend that reports every submitted key (or request)
    as unprocessed on every call, and for every [max_retries >= 0]:
    [batch_get] of a non-empty list of valid keys raises
    [BatchRetryExceededError "batch_get"] with the size of the first chunk
    of 100 keys, after exactly [max_retries + 1] calls; [batch_write] of a
    non-empty batch likewise raises [BatchRetryExceededError "batch_write"]
    with the size of the first chunk of 25 requests.  Against any backend,
    an empty [batch_get] returns no items and an empty [batch_write]
    returns, both without any backend call. *)
Theorem batch_retry_bound :
  forall (model : ModelDefinition) (sav : AttributeDefinition -> pyval -> result pyval)
         (T : Type) (from_item : pyval -> result T) bgi bwi (max_retries : Z),
  (0 <= max_retries)%Z ->
  (forall calls pending, bgi calls pending = BatchGetOk [] pending) ->
  (forall calls pending, bwi calls pending = BatchWriteOk pending) ->
  (forall keys normalized,
     keys <> [] ->
     map_result (normalize_key model) keys = Ok normalized ->
     (forall p s, In (p, s) normalized -> exists k, to_key model sav p s = Ok k) ->
     fst (batch_get model sav T from_item bgi keys max_retries) =
       Err (BatchRetryExceededError "batch_get" (Nat.min (length keys) 100)) /\
     length (snd (batch_get model sav T from_item bgi keys max_retries)) = S (Z.to_nat max_retries)) /\
  (forall puts deletes requests,
     write_requests model sav puts deletes = Ok requests ->
     0 < length puts + length deletes ->
     fst (batch_write model sav bwi puts deletes max_retries) =
       Err (BatchRetryExceededError "batch_write" (Nat.min (length puts + length deletes) 25)) /\
     length (snd (batch_write model sav bwi puts deletes max_retries)) = S (Z.to_nat max_retries)) /\
  (forall bgi' bwi',
     batch_get model sav T from_item bgi' [] max_retries = (Ok [], []) /\
     batch_write model sav bwi' [] [] max_retries = (Ok tt, [])).
Proof.
  intros model sav T from_item bgi bwi max_retries Hm Hg Hw. split; [|split].
  - intros keys normalized Hne Hn Hk.
    assert (Ebg : exists pending,
              batch_get model sav T from_item bgi keys max_retries =
                batch_get_loop T from_item bgi (Z.to_nat max_retries) pending [] [] /\
              length pending = Nat.min (length keys) 100).
    { unfold batch_get. replace (max_retries <? 0)%Z with false by (symmetry; apply Z.ltb_ge; lia).
      destruct keys as [|k0 ks]; [congruence|]. rewrite Hn.
      assert (Hnn : normalized <> []).
      { intro E. subst normalized. apply map_result_length in Hn. discriminate. }
      destruct (chunked_cons normalized 100 Hnn) as [rest Hc]. rewrite Hc. cbn [batch_get_chunks].
      destruct (map_result_total (fun '(p, s) => to_key model sav p s) (firstn 100 normalized))
        as [pending Hp].
      { intros [p s] Hin. apply Hk. eapply In_firstn_In. exact Hin. }
      rewrite Hp. exists pending. split.
      - assert (Hpne : pending <> []).
        { intro E. subst pending. apply map_result_length in Hp. rewrite length_firstn in Hp.
          destruct normalized; [congruence|]. simpl in Hp. lia. }
        rewrite (batch_get_loop_unprocessed T from_item bgi Hg _ _ _ _ Hpne). reflexivity.
      - rewrite (map_result_length _ _ _ Hp), length_firstn, (map_result_length _ _ _ Hn).
        apply Nat.min_comm. }
    destruct Ebg as [pending [-> Hl]].
    assert (Hpne : pending <> []).
    { intro E. subst pending. simpl in Hl. destruct keys; [congruence|]. simpl in Hl. lia. }
    rewrite (batch_get_loop_unprocessed T from_item bgi Hg _ _ _ _ Hpne). simpl.
    rewrite Hl, repeat_length. split; reflexivity.
  - intros puts deletes requests Hr Hpos.
    pose proof (write_requests_length _ _ _ _ _ Hr) as Hlen.
    assert (Hnn : requests <> []). { intro E. subst requests. simpl in Hlen. lia. }
    unfold batch_write. replace (max_retries <? 0)%Z with false by (symmetry; apply Z.ltb_ge; lia).
    rewrite Hr. destruct (chunked_cons requests 25 Hnn) as [rest Hc]. rewrite Hc. cbn [batch_write_chunks].
    assert (Hfne : firstn 25 requests <> []).
    { destruct requests; [congruence|]. discriminate. }
    rewrite (batch_write_loop_unprocessed bwi Hw _ _ _ Hfne). cbv beta iota. cbn [fst snd app].
    rewrite repeat_length, length_firstn, Hlen, Nat.min_comm. split; reflexivity.
  - intros bgi' bwi'. unfold batch_get, batch_write.
    replace (max_retries <? 0)%Z with false by (symmetry; apply Z.ltb_ge; lia).
    split; reflexivity.
Qed.

Lemma batch_retry_bound_witness :
  (fst (batch_get sample_model sample_serialize_attr pyval sample_from_item always_unprocessed_get
          [PStr "A"; PStr "B"] 2) = Err (BatchRetryExceededError "batch_get" 2) /\
   length (snd (batch_get sample_model sample_serialize_attr pyval sample_from_item always_unprocessed_get
                  [PStr "A"; PStr "B"] 2)) = 3) /\
  (fst (batch_write sample_model sample_serialize_attr always_unprocessed_write [] [PStr "A"] 2) =
     Err (BatchRetryExceededError "batch_write" 1) /\
   length (snd (batch_write sample_model sample_serialize_attr always_unprocessed_write [] [PStr "A"] 2)) = 3).
Proof.
  destruct (batch_retry_bound sample_model sample_serialize_attr pyval sample_from_item
              always_unprocessed_get always_unprocessed_write 2) as [Hg [Hw _]].
  - lia.
  - reflexivity.
  - reflexivity.
  - split.
    + apply (Hg [PStr "A"; PStr "B"] [(PStr "A", PNone); (PStr "B", PNone)]).
      * discriminate.
      * reflexivity.
      * intros p s [[= <- <-]|[[= <- <-]|[]]]; eexists; reflexivity.
    + apply (Hw [] [PStr "A"] [DeleteRequest [("id", PDict [("S", PStr "A")])]]).
      * vm_compute. reflexivity.
      * simpl. lia.
Defined.

(** C4, counterexample: with 150 keys, all reported unprocessed, the error
    carries 100 (the first chunk) although all 150 keys remain unread; and
    an empty batch returns without any call and without an error. *)
Lemma batch_get_count_is_first_chunk :
  length sample_keys_150 = 150 /\
  fst (batch_get sample_model sample_serialize_attr pyval sample_from_item always_unprocessed_get
         sample_keys_150 2) = Err (BatchRetryExceededError "batch_get" 100) /\
  batch_get sample_model sample_serialize_attr pyval sample_from_item always_unprocessed_get [] 2 = (Ok [], []).
Proof. split; [|split]; vm_compute; reflexivity. Qed.

(** ** C6: acquiring a lease *)

Lemma number_of_str_of_Z z : number_of (str_of_Z z) = Some z.
Proof.
  unfold number_of, str_of_Z. rewrite NilZero.isi.
  - simpl. rewrite DecimalZ.of_to. reflexivity.
  - intro H. assert (z = 0%Z) as -> by (rewrite <- (DecimalZ.of_to z), H; reflexivity). discriminate H.
  - intro H. assert (z = 0%Z) as -> by (rewrite <- (DecimalZ.of_to z), H; reflexivity). discriminate H.
Qed.

Lemma find_row_has_key t item r :
  find_row t item = Some r -> exists v, dict_get r (hash_key t) = Some v.
Proof.
  unfold find_row. intros H. apply find_some in H. destruct H as [_ H].
  unfold same_key, s_attr in H. destruct (dict_get r (hash_key t)) as [v|].
  - exists v. reflexivity.
  - destruct (dict_get item (hash_key t)) as [v|]; [destruct (s_value v)|]; discriminate.
Qed.

Lemma parse_acquire_condition :
  parse_condition acquire_condition = Some [[CondNotExists "#pk"]; [CondCompare "<=" "#exp" ":now"]].
Proof. vm_compute. reflexivity. Qed.

Lemma acquire_request_condition m now tok k lease_seconds :
  pi_condition_expression (acquire_request m now tok k lease_seconds) = acquire_condition /\
  pi_names (acquire_request m now tok k lease_seconds) = [("#pk", pk_attr m); ("#exp", expires_at_attr m)] /\
  pi_values (acquire_request m now tok k lease_seconds) = [(":now", attr_N now)].
Proof. split; [|split]; reflexivity. Qed.

Lemma s_attr_dict_set_same d a v : s_attr (dict_set d a v) a = s_value v.
Proof. unfold s_attr. rewrite dict_get_set_same. reflexivity. Qed.

Lemma s_attr_dict_set_other d a b v : b <> a -> s_attr (dict_set d a v) b = s_attr d b.
Proof. intros H. unfold s_attr. rewrite dict_get_set_other by exact H. reflexivity. Qed.

(** C6.  [acquire] sends one conditional put, with the condition
    [attribute_not_exists(#pk) OR #exp <= :now].  (1) Against a DynamoDB
    table keyed by the manager's attributes, and for a key with non-empty
    [pk] and [sk] and [lease_seconds > 0], it returns the lease with the
    generated token and expiry [now + lease_seconds] ([now] the clock
    truncated to an integer) exactly when there is no row under the key or
    the row's stored expiry is at most [now], and otherwise raises
    [LeaseHeldError] and leaves the table as it was; the row consulted is the
    one under the lease key.  (2) Against any backend, a condition failure
    of the put raises [LeaseHeldError].  (3) An acquire at 1000 for 30
    seconds, then a second at 1000, is refused with [LeaseHeldError]; a
    second at 2000 succeeds, with expiry 2030.  (4) Against any backend, a
    key with an empty [pk] or [sk] raises [ValueError] and leaves the store
    as it was, whatever the put would do: no put is sent. *)
Theorem lease_acquire_conditional :
  (forall m t clock tok k lease_seconds,
     lease_pk k <> "" -> lease_sk k <> "" -> (0 < lease_seconds)%Z ->
     hash_key t = pk_attr m -> range_key t = sk_attr m ->
     NoDup [pk_attr m; sk_attr m; token_attr m; expires_at_attr m; ttl_attr m] ->
     let now := int_of_clock clock in
     let req := acquire_request m now tok k lease_seconds in
     pi_condition_expression req = acquire_condition /\
     s_attr (pi_item req) (hash_key t) = Some (lease_pk k) /\
     s_attr (pi_item req) (range_key t) = Some (lease_sk k) /\
     acquire ddb_table ddb_put_item m t clock tok k lease_seconds =
       if lease_admits m (find_row t (pi_item req)) now
       then (Ok (mkLease k tok (now + lease_seconds)),
             mkDdbTable (hash_key t) (range_key t)
               (pi_item req :: filter (fun r => negb (same_key t (pi_item req) r)) (rows t)))
       else (Err (LeaseHeldError "The conditional request failed"), t)) /\
  (forall (Store : Type) (put_item : Store -> PutItemRequest -> option ClientError * Store)
          m st clock tok k lease_seconds err st',
     lease_pk k <> "" -> lease_sk k <> "" -> (0 < lease_seconds)%Z ->
     put_item st (acquire_request m (int_of_clock clock) tok k lease_seconds) = (Some err, st') ->
     error_code err = "ConditionalCheckFailedException" ->
     acquire Store put_item m st clock tok k lease_seconds = (Err (LeaseHeldError (error_message err)), st')) /\
  (let '(r1, t1) := acquire ddb_table ddb_put_item default_lease_manager empty_lease_table 1000 "t1" job_key 30 in
   r1 = Ok (mkLease job_key "t1" 1030) /\
   fst (acquire ddb_table ddb_put_item default_lease_manager t1 1000 "t2" job_key 30) =
     Err (LeaseHeldError "The conditional request failed") /\
   fst (acquire ddb_table ddb_put_item default_lease_manager t1 2000 "t2" job_key 30) =
     Ok (mkLease job_key "t2" 2030)) /\
  (forall (Store : Type) (put_item : Store -> PutItemRequest -> option ClientError * Store)
          m st clock tok k lease_seconds,
     lease_pk k = "" \/ lease_sk k = "" ->
     acquire Store put_item m st clock tok k lease_seconds =
       (Err (ValueError "key.pk and key.sk are required"), st)).
Proof.
  split; [|split; [|split]].
  - intros m t clock tok k lease_seconds Hpk Hsk Hls Hh Hr Hnd. cbv zeta.
    remember (int_of_clock clock) as now eqn:Hnow.
    remember (acquire_request m now tok k lease_seconds) as req eqn:Hreq.
    assert (Hd := Hnd).
    apply NoDup_cons_iff in Hd as [N1 Hd]. apply NoDup_cons_iff in Hd as [N2 Hd].
    apply NoDup_cons_iff in Hd as [N3 Hd]. apply NoDup_cons_iff in Hd as [N4 _].
    simpl in N1, N2, N3, N4.
    assert (Hitem : s_attr (pi_item req) (pk_attr m) = Some (lease_pk k) /\
                    s_attr (pi_item req) (sk_attr m) = Some (lease_sk k)).
    { subst req. unfold acquire_request. cbv zeta. cbn [pi_item].
      destruct (negb _ && _).
      - rewrite !s_attr_dict_set_other by (intro E; first [apply N1 | apply N2]; rewrite E; auto 6).
        rewrite s_attr_dict_set_same. split; [reflexivity|].
        rewrite !s_attr_dict_set_other by (intro E; apply N2; rewrite E; auto 6).
        rewrite s_attr_dict_set_same. reflexivity.
      - rewrite !s_attr_dict_set_other by (intro E; first [apply N1 | apply N2]; rewrite E; auto 6).
        rewrite s_attr_dict_set_same. split; [reflexivity|].
        rewrite !s_attr_dict_set_other by (intro E; apply N2; rewrite E; auto 6).
        rewrite s_attr_dict_set_same. reflexivity. }
    destruct (acquire_request_condition m now tok k lease_seconds) as [Hc [Hn Hv]]. rewrite <- Hreq in Hc, Hn, Hv.
    split; [exact Hc|]. rewrite Hh, Hr. split; [exact (proj1 Hitem)|]. split; [exact (proj2 Hitem)|].
    unfold acquire.
    replace (String.eqb (lease_pk k) "" || String.eqb (lease_sk k) "") with false
      by (symmetry; apply orb_false_iff; split; apply String.eqb_neq; assumption).
    replace (lease_seconds <=? 0)%Z with false by (symmetry; apply Z.leb_gt; exact Hls).
    cbv zeta. rewrite <- Hnow, <- Hreq.
    unfold ddb_put_item. rewrite Hc, parse_acquire_condition, Hn, Hv.
    destruct (find_row t (pi_item req)) as [r|] eqn:Hrow.
    + destruct (find_row_has_key _ _ _ Hrow) as [pv Hpv]. rewrite Hh in Hpv.
      simpl. rewrite Hpv. unfold lease_admits.
      destruct (dict_get r (expires_at_attr m)) as [stored|]; [|reflexivity].
      rewrite number_of_str_of_Z.
      destruct (n_value stored) as [x|]; [destruct (number_of x) as [e|]|]; simpl; rewrite ?Hh, ?Hr;
        try reflexivity.
      * unfold compare_op, Z.leb. destruct (e ?= now)%Z; reflexivity.
      * destruct (s_value stored); reflexivity.
    + simpl. rewrite Hh, Hr. reflexivity.
  - intros Store put_item m st clock tok k lease_seconds err st' Hpk Hsk Hls Hp Hcode.
    unfold acquire.
    replace (String.eqb (lease_pk k) "" || String.eqb (lease_sk k) "") with false
      by (symmetry; apply orb_false_iff; split; apply String.eqb_neq; assumption).
    replace (lease_seconds <=? 0)%Z with false by (symmetry; apply Z.leb_gt; exact Hls).
    rewrite Hp. unfold map_client_error. rewrite Hcode. reflexivity.
  - vm_compute. split; [reflexivity|]. split; reflexivity.
  - intros Store put_item m st clock tok k lease_seconds Hk. unfold acquire.
    replace (String.eqb (lease_pk k) "" || String.eqb (lease_sk k) "") with true
      by (destruct Hk as [E|E]; rewrite E; [reflexivity|apply eq_sym, orb_true_r]).
    reflexivity.
Qed.

Lemma lease_acquire_conditional_witness :
  acquire ddb_table ddb_put_item default_lease_manager empty_lease_table 1000 "t1" job_key 30 =
    (Ok (mkLease job_key "t1" 1030),
     mkDdbTable "pk" "sk"
       [pi_item (acquire_request default_lease_manager 1000 "t1" job_key 30)]) /\
  acquire nat (fun n _ => (Some (ddb_error "ConditionalCheckFailedException" "held"), n))
    default_lease_manager 0 1000 "t1" job_key 30 = (Err (LeaseHeldError "held"), 0).
Proof.
  destruct lease_acquire_conditional as [H1 [H2 _]]. split.
  - destruct (H1 default_lease_manager empty_lease_table 1000%Q "t1" job_key 30%Z) as [_ [_ [_ E]]].
    + discriminate.
    + discriminate.
    + lia.
    + reflexivity.
    + reflexivity.
    + vm_compute. repeat constructor; simpl; intuition discriminate.
    + rewrite E. vm_compute. reflexivity.
  - apply (H2 nat (fun n _ => (Some (ddb_error "ConditionalCheckFailedException" "held"), n))
             default_lease_manager 0 1000%Q "t1" job_key 30%Z
             (ddb_error "ConditionalCheckFailedException" "held") 0).
    + discriminate.
    + discriminate.
    + lia.
    + reflexivity.
    + reflexivity.
Defined.

(** C6, counterexample: for a key with an empty [pk], [acquire] issues no
    put at all (the counting backend stays at 0) and raises [ValueError],
    neither a lease nor [LeaseHeldError]. *)
Lemma acquire_empty_pk_sends_no_put :
  acquire nat counting_put default_lease_manager 0 1000 "t1" (mkLeaseKey "" "LOCK") 30 =
    (Err (ValueError "key.pk and key.sk are required"), 0).
Proof. reflexivity. Qed.

(* ------------------------------------------------------------------ *)
(** ** Encryption binding *)



Lemma toy_unframe_frame (a d : string) : toy_unframe (toy_frame a ++ d) = Some (a, d).
Proof. induction a as [|c a IH]; simpl; [reflexivity|]. rewrite IH. reflexivity. Qed.


Lemma toy_kms_consistent (arn dek edk : string) :
  toy_kms_generate arn = KmsDataKey (PBytes dek) (PBytes edk) ->
  toy_kms_decrypt edk arn = KmsPlaintext (PBytes dek).
Proof. unfold toy_kms_generate, toy_kms_decrypt. intro H. injection H as <- <-. reflexivity. Qed.






(* ------------------------------------------------------------------ *)
(** ** Cursor token format *)

(** Claim C7: [encode_cursor] on the key [{"pk": {"S": "A"}}] gives the
    standard base64url text of [{"lastKey":{"pk":{"S":"A"}}}], which keeps
    its [==] padding: the payload is 29 bytes long, not a multiple of 3. *)
Theorem cursor_token_keeps_padding :
  encode_cursor (PDict [("pk", PDict [("S", PStr "A")])]) None None
    = Ok "eyJsYXN0S2V5Ijp7InBrIjp7IlMiOiJBIn19fQ=="
  /\ String.substring 38 2 "eyJsYXN0S2V5Ijp7InBrIjp7IlMiOiJBIn19fQ==" = "==".
Proof. split; vm_compute; reflexivity. Qed.

(* ================================================================== *)
(** ** Cursor round trip: base64, JSON and attribute-value codecs *)

Lemma forallb_seq_lt (f : nat -> bool) (k : nat) :
  forallb f (seq 0 k) = true -> forall n, n < k -> f n = true.
Proof.
  intros H n Hn. rewrite forallb_forall in H. apply H. apply in_seq. lia.
Qed.

Lemma b64_char_facts (n : nat) : n < 64 ->
  b64_index (b64_char n) = Some n /\ Ascii.eqb (b64_char n) "="%char = false
  /\ b64_out_char (b64_char n) = true.
Proof.
  intro Hn.
  assert (E : forallb (fun n => match b64_index (b64_char n) with Some m => m =? n | None => false end
                                && negb (Ascii.eqb (b64_char n) "="%char)
                                && b64_out_char (b64_char n))
                (seq 0 64) = true) by (vm_compute; reflexivity).
  specialize (forallb_seq_lt _ _ E n Hn). simpl.
  destruct (b64_index (b64_char n)) as [m|]; [|discriminate].
  intro Hm. apply andb_prop in Hm as [Hm H3]. apply andb_prop in Hm as [Hm H2].
  apply Nat.eqb_eq in Hm. subst. apply negb_true_iff in H2. auto.
Qed.

Lemma a2b_char (n q l p : nat) (r : string) : n < 64 ->
  a2b_loop q l p (String (b64_char n) r) =
  match q with
  | 0 => a2b_loop 1 n 0 r
  | 1 => cons_byte ((l * 4 + n / 16) mod 256) (a2b_loop 2 (n mod 16) 0 r)
  | 2 => cons_byte ((l * 16 + n / 4) mod 256) (a2b_loop 3 (n mod 4) 0 r)
  | _ => cons_byte ((l * 64 + n) mod 256) (a2b_loop 0 0 0 r)
  end.
Proof.
  intro Hn. destruct (b64_char_facts n Hn) as (H1 & H2 & _).
  cbn [a2b_loop]. rewrite H2, H1. reflexivity.
Qed.

Lemma byte_back (a : ascii) (m : nat) : m = nat_of_ascii a -> ascii_of_nat m = a.
Proof. intros ->. apply ascii_nat_embedding. Qed.

Lemma a2b_pad2 (l : nat) : a2b_loop 2 l 0 "==" = Some "".
Proof. reflexivity. Qed.

Lemma a2b_pad1 (l : nat) : a2b_loop 3 l 0 "=" = Some "".
Proof. reflexivity. Qed.

Lemma a2b_b2a_aux (k : nat) (s : string) : String.length s <= k ->
  a2b_loop 0 0 0 (b2a_base64 s) = Some s.
Proof.
  revert s. induction k as [|k IH]; intros s Hs.
  - destruct s; [reflexivity | simpl in Hs; lia].
  - destruct s as [|a [|b [|c r]]]; [reflexivity| | |].
    + pose proof (nat_ascii_bounded a) as Ha. cbn [b2a_base64].
      remember (nat_of_ascii a) as x eqn:Ex.
      rewrite a2b_char by lia. rewrite a2b_char by lia.
      rewrite a2b_pad2. cbn [cons_byte].
      rewrite (byte_back a); [reflexivity|]. lia.
    + pose proof (nat_ascii_bounded a) as Ha. pose proof (nat_ascii_bounded b) as Hb.
      cbn [b2a_base64].
      remember (nat_of_ascii a) as x eqn:Ex. remember (nat_of_ascii b) as y eqn:Ey.
      rewrite a2b_char by lia. rewrite a2b_char by lia. rewrite a2b_char by lia.
      rewrite a2b_pad1. cbn [cons_byte].
      rewrite (byte_back a), (byte_back b); [reflexivity| |] ; lia.
    + pose proof (nat_ascii_bounded a) as Ha. pose proof (nat_ascii_bounded b) as Hb.
      pose proof (nat_ascii_bounded c) as Hc.
      cbn [b2a_base64].
      remember (nat_of_ascii a) as x eqn:Ex. remember (nat_of_ascii b) as y eqn:Ey. remember (nat_of_ascii c) as z eqn:Ez.
      rewrite a2b_char by lia. rewrite a2b_char by lia. rewrite a2b_char by lia.
      rewrite a2b_char by lia.
      rewrite IH by (simpl in Hs; lia). cbn [cons_byte].
      rewrite (byte_back a), (byte_back b), (byte_back c); [reflexivity| | |] ; lia.
Qed.

Lemma a2b_b2a (s : string) : a2b_loop 0 0 0 (b2a_base64 s) = Some s.
Proof. apply (a2b_b2a_aux (String.length s)). lia. Qed.

Lemma b2a_shape_aux (k : nat) (s : string) : String.length s <= k ->
  str_all b64_out_char (b2a_base64 s) = true /\ String.length (b2a_base64 s) mod 4 = 0.
Proof.
  revert s. induction k as [|k IH]; intros s Hs.
  - destruct s; [split; reflexivity | simpl in Hs; lia].
  - destruct s as [|a [|b [|c r]]]; [split; reflexivity| | |].
    + pose proof (nat_ascii_bounded a) as Ha. cbn [b2a_base64].
      remember (nat_of_ascii a) as x eqn:Ex.
      cbn [str_all String.length].
      rewrite (proj2 (proj2 (b64_char_facts (x / 4) ltac:(lia)))).
      rewrite (proj2 (proj2 (b64_char_facts ((x mod 4) * 16) ltac:(lia)))).
      split; reflexivity.
    + pose proof (nat_ascii_bounded a) as Ha. pose proof (nat_ascii_bounded b) as Hb.
      cbn [b2a_base64].
      remember (nat_of_ascii a) as x eqn:Ex. remember (nat_of_ascii b) as y eqn:Ey.
      cbn [str_all String.length].
      rewrite (proj2 (proj2 (b64_char_facts (x / 4) ltac:(lia)))).
      rewrite (proj2 (proj2 (b64_char_facts ((x mod 4) * 16 + y / 16) ltac:(lia)))).
      rewrite (proj2 (proj2 (b64_char_facts ((y mod 16) * 4) ltac:(lia)))).
      split; reflexivity.
    + pose proof (nat_ascii_bounded a) as Ha. pose proof (nat_ascii_bounded b) as Hb.
      pose proof (nat_ascii_bounded c) as Hc.
      cbn [b2a_base64].
      remember (nat_of_ascii a) as x eqn:Ex. remember (nat_of_ascii b) as y eqn:Ey.
      remember (nat_of_ascii c) as z eqn:Ez.
      destruct (IH r) as [IH1 IH2]; [simpl in Hs; lia|].
      cbn [str_all String.length].
      rewrite (proj2 (proj2 (b64_char_facts (x / 4) ltac:(lia)))).
      rewrite (proj2 (proj2 (b64_char_facts ((x mod 4) * 16 + y / 16) ltac:(lia)))).
      rewrite (proj2 (proj2 (b64_char_facts ((y mod 16) * 4 + z / 64) ltac:(lia)))).
      rewrite (proj2 (proj2 (b64_char_facts (z mod 64) ltac:(lia)))).
      rewrite IH1. split; [reflexivity|]. lia.
Qed.

Lemma urlsafe_swap_back (t : string) : str_all b64_out_char t = true ->
  map_string (fun c => swap_char "_"%char "/"%char (swap_char "-"%char "+"%char c))
    (map_string (fun c => swap_char "/"%char "_"%char (swap_char "+"%char "-"%char c)) t) = t.
Proof.
  induction t as [|c r IH]; [reflexivity|].
  cbn [str_all map_string]. intro H. apply andb_prop in H as [Hc Hr].
  rewrite IH by exact Hr. f_equal.
  unfold b64_out_char in Hc.
  destruct (Ascii.eqb_spec c "-"%char) as [->|N1]; [discriminate|].
  destruct (Ascii.eqb_spec c "_"%char) as [->|N2]; [rewrite andb_false_r in Hc; discriminate|].
  unfold swap_char.
  destruct (Ascii.eqb_spec c "+"%char) as [->|N3]; [reflexivity|].
  destruct (Ascii.eqb_spec c "/"%char) as [->|N4]; [reflexivity|].
  destruct (Ascii.eqb_spec c "-"%char); [contradiction|].
  destruct (Ascii.eqb_spec c "_"%char); [contradiction|].
  reflexivity.
Qed.

Lemma str_all_ascii (t : string) : str_all b64_out_char t = true -> is_ascii_str t = true.
Proof.
  induction t as [|c r IH]; [reflexivity|].
  cbn [str_all is_ascii_str]. intro H. apply andb_prop in H as [Hc Hr].
  unfold b64_out_char in Hc. repeat (apply andb_prop in Hc as [Hc _]).
  rewrite Hc, IH by exact Hr. reflexivity.
Qed.

Lemma url_map_out (t : string) : str_all b64_out_char t = true ->
  str_all url_out_char (map_string (fun c => swap_char "/"%char "_"%char (swap_char "+"%char "-"%char c)) t) = true.
Proof.
  induction t as [|c r IH]; [reflexivity|].
  cbn [str_all map_string]. intro H. apply andb_prop in H as [Hc Hr].
  rewrite IH by exact Hr. rewrite andb_true_r.
  unfold swap_char.
  destruct (Ascii.eqb_spec c "+"%char) as [->|N3]; [reflexivity|].
  destruct (Ascii.eqb_spec c "/"%char) as [->|N4]; [reflexivity|].
  unfold b64_out_char in Hc. unfold url_out_char.
  apply andb_prop in Hc as [Hc H4]. apply andb_prop in Hc as [Hc _]. apply andb_prop in Hc as [Hc _].
  rewrite Hc, H4. reflexivity.
Qed.

Lemma map_string_length (f : ascii -> ascii) (t : string) :
  String.length (map_string f t) = String.length t.
Proof. induction t; simpl; auto. Qed.

Lemma urlsafe_round_trip (s : string) :
  let tok := urlsafe_b64encode s in
  urlsafe_b64decode tok = Some s /\ str_all url_out_char tok = true
  /\ String.length tok mod 4 = 0.
Proof.
  destruct (b2a_shape_aux (String.length s) s ltac:(lia)) as [H1 H2].
  cbv zeta. unfold urlsafe_b64encode, urlsafe_b64decode, b64encode, b64decode.
  split; [|split].
  - pose proof (url_map_out _ H1) as H3.
    assert (A : forall t, str_all url_out_char t = true -> is_ascii_str t = true).
    { induction t as [|c r IH]; [reflexivity|]. cbn [str_all is_ascii_str]. intro H.
      apply andb_prop in H as [Hc Hr]. unfold url_out_char in Hc.
      apply andb_prop in Hc as [Hc _]. rewrite Hc, IH by exact Hr. reflexivity. }
    rewrite (A _ H3), urlsafe_swap_back by exact H1.
    rewrite (str_all_ascii _ H1). apply a2b_b2a.
  - apply url_map_out. exact H1.
  - rewrite map_string_length. exact H2.
Qed.

Lemma rev_str_rev_str (s acc b : string) :
  rev_str (rev_str s acc) b = rev_str acc (s ++ b).
Proof.
  revert acc. induction s as [|c r IH]; intro acc; [reflexivity|].
  simpl. rewrite IH. reflexivity.
Qed.

Lemma str_all_rev_str (p : ascii -> bool) (s acc : string) :
  str_all p s = true -> str_all p acc = true -> str_all p (rev_str s acc) = true.
Proof.
  revert acc. induction s as [|c r IH]; intros acc Hs Ha; [exact Ha|].
  cbn [str_all] in Hs. apply andb_prop in Hs as [Hc Hr].
  simpl. apply IH; [exact Hr|]. cbn [str_all]. rewrite Hc, Ha. reflexivity.
Qed.

Lemma is_py_space2_high (c1 c2 : ascii) :
  is_py_space2 c1 c2 = true -> 128 <= nat_of_ascii c1 /\ 128 <= nat_of_ascii c2.
Proof.
  unfold is_py_space2. intro H.
  repeat rewrite ?andb_true_iff, ?orb_true_iff, ?Nat.eqb_eq in H. lia.
Qed.

Lemma is_py_space3_high (c1 c2 c3 : ascii) :
  is_py_space3 c1 c2 c3 = true ->
  128 <= nat_of_ascii c1 /\ 128 <= nat_of_ascii c2 /\ 128 <= nat_of_ascii c3.
Proof.
  unfold is_py_space3. cbv zeta. intro H.
  repeat rewrite ?andb_true_iff, ?orb_true_iff, ?Nat.eqb_eq, ?Nat.leb_le in H. lia.
Qed.

(** A string starting with an ASCII character that is not whitespace is
    left as it is, at either end. *)
Lemma lstrip_with_ascii (sp2 : ascii -> ascii -> bool) (sp3 : ascii -> ascii -> ascii -> bool)
    (c : ascii) (r : string) :
  (forall c1 c2, sp2 c1 c2 = true -> 128 <= nat_of_ascii c1) ->
  (forall c1 c2 c3, sp3 c1 c2 c3 = true -> 128 <= nat_of_ascii c1) ->
  nat_of_ascii c < 128 -> is_py_space c = false ->
  lstrip_with sp2 sp3 (String c r) = String c r.
Proof.
  intros H2 H3 Hc Hs. destruct r as [|c2 [|c3 r3]]; cbn [lstrip_with]; rewrite Hs; [reflexivity| |].
  - destruct (sp2 c c2) eqn:E; [apply H2 in E; lia | reflexivity].
  - destruct (sp2 c c2) eqn:E; [apply H2 in E; lia |].
    destruct (sp3 c c2 c3) eqn:E3; [apply H3 in E3; lia | reflexivity].
Qed.

Lemma url_out_head (c : ascii) (r : string) :
  str_all url_out_char (String c r) = true -> nat_of_ascii c < 128 /\ is_py_space c = false.
Proof.
  cbn [str_all]. intro H. apply andb_prop in H as [Hc _].
  unfold url_out_char in Hc. apply andb_prop in Hc as [Hl Hc]. apply negb_true_iff in Hc.
  apply Nat.ltb_lt in Hl. split; assumption.
Qed.

Lemma lstrip_ascii (c : ascii) (r : string) :
  nat_of_ascii c < 128 -> is_py_space c = false -> lstrip (String c r) = String c r.
Proof.
  intros Hc Hs. apply lstrip_with_ascii; [| |exact Hc|exact Hs].
  - intros c1 c2 E. apply (is_py_space2_high _ _ E).
  - intros c1 c2 c3 E. apply (is_py_space3_high _ _ _ E).
Qed.

Lemma lstrip_rev_ascii (c : ascii) (r : string) :
  nat_of_ascii c < 128 -> is_py_space c = false -> lstrip_rev (String c r) = String c r.
Proof.
  intros Hc Hs. apply lstrip_with_ascii; [| |exact Hc|exact Hs].
  - intros c1 c2 E. apply (is_py_space2_high _ _ E).
  - intros c1 c2 c3 E. apply (is_py_space3_high _ _ _ E).
Qed.

Lemma lstrip_keep (s : string) : str_all url_out_char s = true -> lstrip s = s.
Proof.
  destruct s as [|c r]; [reflexivity|].
  intro H. destruct (url_out_head c r H) as [Hc Hs]. apply lstrip_ascii; assumption.
Qed.

Lemma lstrip_rev_keep (s : string) : str_all url_out_char s = true -> lstrip_rev s = s.
Proof.
  destruct s as [|c r]; [reflexivity|].
  intro H. destruct (url_out_head c r H) as [Hc Hs]. apply lstrip_rev_ascii; assumption.
Qed.

Lemma str_app_nil_r (s : string) : (s ++ "")%string = s.
Proof. induction s as [|c r IH]; simpl; [reflexivity|]. rewrite IH. reflexivity. Qed.

Lemma strip_keep (s : string) : str_all url_out_char s = true -> strip s = s.
Proof.
  intro H. unfold strip. rewrite (lstrip_keep s H).
  rewrite lstrip_rev_keep by (apply str_all_rev_str; [exact H | reflexivity]).
  rewrite rev_str_rev_str. simpl. rewrite str_app_nil_r. reflexivity.
Qed.

Lemma b64_round (b : string) : b64decode (b64encode b) = Some b.
Proof.
  unfold b64decode, b64encode.
  destruct (b2a_shape_aux (String.length b) b ltac:(lia)) as [H1 _].
  rewrite (str_all_ascii _ H1). apply a2b_b2a.
Qed.

Lemma scan_escape_char (c : ascii) (t : string) :
  scan_string (escape_char c ++ t) = cons_chunk (String c EmptyString) (scan_string t).
Proof.
  destruct c as [[] [] [] [] [] [] [] []]; reflexivity.
Qed.

Lemma str_app_assoc (a b c : string) : ((a ++ b) ++ c = a ++ b ++ c)%string.
Proof. induction a as [|x a IH]; simpl; [reflexivity|]. rewrite IH. reflexivity. Qed.

Lemma str_length_app (a b : string) : String.length (a ++ b) = String.length a + String.length b.
Proof. induction a as [|x a IH]; simpl; auto. Qed.

Lemma scan_escape (s r : string) : scan_string (escape s ++ String dq r) = Some (s, r).
Proof.
  induction s as [|c s IH]; [reflexivity|].
  cbn [escape]. rewrite str_app_assoc, scan_escape_char, IH. reflexivity.
Qed.

Lemma dumps_go_list (l : list pyval) :
  (fix go (l : list pyval) : option (list string) :=
     match l with
     | [] => Some []
     | x :: r =>
         match dumps x, go r with
         | Some a, Some b => Some (a :: b)
         | _, _ => None
         end
     end) l = map_opt dumps l.
Proof. induction l as [|x r IH]; simpl; [reflexivity|]. rewrite IH. reflexivity. Qed.

Lemma dumps_go_dict (d : dict pyval) :
  (fix go (d : dict pyval) : option (list string) :=
     match d with
     | [] => Some []
     | (k, x) :: r =>
         match dumps x, go r with
         | Some a, Some b => Some ((dumps_str k ++ ":" ++ a) :: b)
         | _, _ => None
         end
     end) d = map_opt dump_member d.
Proof.
  induction d as [|[k x] r IH]; [reflexivity|].
  cbv beta iota fix delta [map_opt]. rewrite IH.
  unfold dump_member. cbn [fst snd]. destruct (dumps x); reflexivity.
Qed.

Lemma dumps_list (l : list pyval) :
  dumps (PList l) = option_map (fun parts => "[" ++ String.concat "," parts ++ "]") (map_opt dumps l).
Proof. simpl. rewrite dumps_go_list. destruct (map_opt dumps l); reflexivity. Qed.

Lemma dumps_dict (d : dict pyval) :
  dumps (PDict d) = option_map (fun parts => "{" ++ String.concat "," parts ++ "}") (map_opt dump_member d).
Proof. simpl. rewrite dumps_go_dict. destruct (map_opt dump_member d); reflexivity. Qed.

Lemma skip_ws_keep (c : ascii) (r : string) : is_ws c = false -> skip_ws (String c r) = String c r.
Proof. intro H. simpl. rewrite H. reflexivity. Qed.

Lemma substring_all (r : string) : substring 0 (String.length r) r = r.
Proof. induction r as [|c r IH]; simpl; [reflexivity|]. rewrite IH. reflexivity. Qed.

Lemma substring_rest (p rest : string) :
  substring (String.length p) (String.length (p ++ rest) - String.length p) (p ++ rest) = rest.
Proof.
  induction p as [|c p IH]; simpl.
  - rewrite Nat.sub_0_r. apply substring_all.
  - exact IH.
Qed.

Lemma dumps_head (v : pyval) (t : string) : json_val v -> dumps v = Some t ->
  exists c r, t = String c r /\ is_ws c = false /\ Ascii.eqb c "]"%char = false
              /\ Ascii.eqb c "}"%char = false.
Proof.
  intros Hv Ht. destruct Hv as [|b|s|l _|d _ _].
  - injection Ht as <-. eexists _, _. split; [reflexivity|]. auto.
  - destruct b; injection Ht as <-; eexists _, _; split; [reflexivity| |reflexivity|]; auto.
  - injection Ht as <-. eexists _, _. split; [reflexivity|]. auto.
  - rewrite dumps_list in Ht. destruct (map_opt dumps l); [injection Ht as <-|discriminate].
    eexists _, _. split; [reflexivity|]. auto.
  - rewrite dumps_dict in Ht. destruct (map_opt dump_member d); [injection Ht as <-|discriminate].
    eexists _, _. split; [reflexivity|]. auto.
Qed.

Lemma concat_cons_app (p : string) (ps : list string) :
  exists x, String.concat "," (p :: ps) = (p ++ x)%string.
Proof. destruct ps as [|q ps]. - exists "". simpl. symmetry. apply str_app_nil_r. - eexists. reflexivity. Qed.

Lemma prefix_nil (s : string) : String.prefix "" s = true.
Proof. destruct s; reflexivity. Qed.

Lemma member_text (k a y : string) :
  ((dumps_str k ++ ":" ++ a) ++ y)%string = String dq (escape k ++ String dq (String ":"%char (a ++ y))).
Proof. unfold dumps_str. simpl. rewrite !str_app_assoc. reflexivity. Qed.

Lemma dumps_str_length (k : string) : 2 <= String.length (dumps_str k).
Proof. unfold dumps_str. simpl. rewrite str_length_app. simpl. lia. Qed.

Lemma dict_set_new {A} (acc : dict A) (k : string) (v : A) :
  ~ In k (dict_keys acc) -> dict_set acc k v = (acc ++ [(k, v)])%list.
Proof.
  induction acc as [|[k' v'] acc IH]; intro H; [reflexivity|].
  simpl in *. destruct (String.eqb_spec k k') as [->|N].
  - exfalso. apply H. left. reflexivity.
  - rewrite IH; [reflexivity|]. intro I. apply H. right. exact I.
Qed.

Lemma map_opt_cons_inv {A B} (g : A -> option B) (x : A) (r : list A) (parts : list B) :
  map_opt g (x :: r) = Some parts ->
  exists p ps, g x = Some p /\ map_opt g r = Some ps /\ parts = p :: ps.
Proof.
  simpl. destruct (g x) as [p|]; [|discriminate].
  destruct (map_opt g r) as [ps|]; [|discriminate].
  intro E. injection E as <-. eauto.
Qed.

Lemma map_opt_nil_inv {A B} (g : A -> option B) (r : list A) :
  map_opt g r = Some [] -> r = [].
Proof.
  destruct r as [|x r]; [reflexivity|]. simpl.
  destruct (g x); [|discriminate]. destruct (map_opt g r); discriminate.
Qed.

Lemma concat_two (p q : string) (ps : list string) :
  String.concat "," (p :: q :: ps) = (p ++ "," ++ String.concat "," (q :: ps))%string.
Proof. reflexivity. Qed.

Lemma parse_members_key (f : nat) (acc : dict pyval) (k r1 : string) :
  parse_members (S f) acc (String dq (escape k ++ String dq (String ":"%char r1))) =
  match parse_value f (skip_ws r1) with
  | Some (v, r3) =>
      match skip_ws r3 with
      | String c2 r4 =>
          if Ascii.eqb c2 "}"%char then Some (PDict (dict_set acc k v), r4)
          else if Ascii.eqb c2 ","%char then parse_members f (dict_set acc k v) (skip_ws r4)
          else None
      | EmptyString => None
      end
  | None => None
  end.
Proof. cbn [parse_members]. rewrite Ascii.eqb_refl, scan_escape. reflexivity. Qed.

Lemma parse_elements_step (f : nat) (acc : list pyval) (s : string) :
  parse_elements (S f) acc s =
  match parse_value f s with
  | Some (v, r) =>
      match skip_ws r with
      | String c r' =>
          if Ascii.eqb c "]"%char then Some (PList (acc ++ [v])%list, r')
          else if Ascii.eqb c ","%char then parse_elements f (acc ++ [v])%list (skip_ws r')
          else None
      | EmptyString => None
      end
  | None => None
  end.
Proof. reflexivity. Qed.

Lemma skip_ws_app_keep (c : ascii) (z y : string) :
  is_ws c = false -> skip_ws (String c z ++ y) = (String c z ++ y)%string.
Proof. intro H. simpl. rewrite H. reflexivity. Qed.

Lemma dump_member_head (kv : string * pyval) (q : string) :
  dump_member kv = Some q -> exists z, q = String dq z.
Proof.
  unfold dump_member. destruct (dumps (snd kv)); [|discriminate].
  intro E. injection E as <-. eexists. reflexivity.
Qed.

Lemma concat_head (c : ascii) (z : string) (ps : list string) (w : string) :
  exists u, (String.concat "," (String c z :: ps) ++ w)%string = String c u.
Proof.
  destruct (concat_cons_app (String c z) ps) as [x Ex]. rewrite Ex. eexists. reflexivity.
Qed.

Lemma parse_dumps (f : nat) :
  (forall v t rest, json_val v -> dumps v = Some t -> String.length t < f ->
     parse_value f (t ++ rest) = Some (v, rest))
  /\ (forall d acc parts rest, d <> [] -> Forall (fun kv => json_val (snd kv)) d ->
       NoDup (dict_keys acc ++ dict_keys d)%list -> map_opt dump_member d = Some parts ->
       String.length (String.concat "," parts ++ "}") < f ->
       parse_members f acc (String.concat "," parts ++ "}" ++ rest) = Some (PDict (acc ++ d)%list, rest))
  /\ (forall l acc parts rest, l <> [] -> Forall json_val l -> map_opt dumps l = Some parts ->
       String.length (String.concat "," parts ++ "]") < f ->
       parse_elements f acc (String.concat "," parts ++ "]" ++ rest) = Some (PList (acc ++ l)%list, rest)).
Proof.
  induction f as [|f IH]; [repeat split; intros; lia|].
  destruct IH as (IHv & IHm & IHe).
  split; [|split].
  - intros v t rest Hv Ht Hlen. destruct Hv as [|b|s|l Hl|d Hnd Hd].
    + injection Ht as <-. simpl. rewrite prefix_nil, Nat.sub_0_r, substring_all. reflexivity.
    + destruct b; injection Ht as <-; simpl; rewrite prefix_nil, Nat.sub_0_r, substring_all; reflexivity.
    + injection Ht as <-. unfold dumps_str. simpl. rewrite str_app_assoc. simpl.
      rewrite scan_escape. reflexivity.
    + rewrite dumps_list in Ht.
      destruct (map_opt dumps l) as [parts|] eqn:Hp; [|discriminate].
      injection Ht as <-. simpl. rewrite str_app_assoc.
      cbn [String.length String.append] in Hlen. rewrite str_length_app in Hlen.
      cbn [String.length] in Hlen.
      destruct l as [|x l'].
      * injection Hp as <-. reflexivity.
      * destruct (map_opt_cons_inv _ _ _ _ Hp) as (p & ps & Hx & Hps & ->).
        inversion Hl as [|? ? Hxv Hl']; subst.
        destruct (dumps_head x p Hxv Hx) as (c & z & -> & Hws & Hb & _).
        destruct (concat_cons_app (String c z) ps) as [y Ey].
        remember (String.concat "," (String c z :: ps) ++ "]" ++ rest)%string as S0 eqn:HS0.
        assert (E : S0 = String c ((z ++ y) ++ "]" ++ rest)) by (rewrite HS0, Ey; reflexivity).
        rewrite E, (skip_ws_keep c _ Hws). cbv beta iota. rewrite Hb. cbv beta iota.
        rewrite <- E, HS0. apply (IHe (x :: l') [] (String c z :: ps) rest).
        -- discriminate.
        -- exact Hl.
        -- exact Hp.
        -- rewrite str_length_app. cbn [String.length]. lia.
    + rewrite dumps_dict in Ht.
      destruct (map_opt dump_member d) as [parts|] eqn:Hp; [|discriminate].
      injection Ht as <-. simpl. rewrite str_app_assoc.
      cbn [String.length String.append] in Hlen. rewrite str_length_app in Hlen.
      cbn [String.length] in Hlen.
      destruct d as [|[k x] d'].
      * injection Hp as <-. reflexivity.
      * destruct (map_opt_cons_inv _ _ _ _ Hp) as (p & ps & Hx & Hps & ->).
        unfold dump_member in Hx. cbn [fst snd] in Hx.
        destruct (dumps x) as [a|] eqn:Ha; [|discriminate].
        assert (Ptext : forall y, (p ++ y)%string = String dq (escape k ++ String dq (String ":"%char (a ++ y))))
          by (intro y; injection Hx as <-; apply member_text).
        clear Hx.
        destruct (concat_cons_app p ps) as [y Ey].
        remember (String.concat "," (p :: ps) ++ "}" ++ rest)%string as S0 eqn:HS0.
        assert (E : S0 = String dq (escape k ++ String dq (String ":"%char (a ++ y ++ "}" ++ rest)))).
        { rewrite HS0, Ey, str_app_assoc, Ptext. reflexivity. }
        rewrite E, (skip_ws_keep dq _ eq_refl). cbv beta iota.
        replace (Ascii.eqb dq "}"%char) with false by reflexivity. cbv beta iota.
        rewrite <- E, HS0. apply (IHm ((k, x) :: d') [] _ rest).
        -- discriminate.
        -- exact Hd.
        -- exact Hnd.
        -- exact Hp.
        -- rewrite str_length_app. cbn [String.length]. lia.
  - intros d acc parts rest Hne Hd Hnd Hp Hlen.
    destruct d as [|[k x] r]; [contradiction|].
    destruct (map_opt_cons_inv _ _ _ _ Hp) as (p & ps & Hx & Hps & ->).
    unfold dump_member in Hx. cbn [fst snd] in Hx.
    destruct (dumps x) as [a|] eqn:Ha; [|discriminate].
    assert (Ptext : forall y, (p ++ y)%string = String dq (escape k ++ String dq (String ":"%char (a ++ y))))
      by (intro y; injection Hx as <-; apply member_text).
    assert (Plen : 3 + String.length a <= String.length p).
    { pose proof (f_equal String.length (Ptext "")) as L. rewrite !str_app_nil_r in L.
      rewrite L. cbn [String.length]. rewrite str_length_app. cbn [String.length]. lia. }
    clear Hx.
    inversion Hd as [|? ? Hxv Hr]; subst. cbn [snd] in Hxv.
    destruct (dumps_head x a Hxv Ha) as (c0 & z0 & Ea & Hws0 & _).
    assert (Hk : ~ In k (dict_keys acc)).
    { intro I. apply (NoDup_remove_2 _ _ _ Hnd). apply in_or_app. left. exact I. }
    destruct ps as [|q ps'].
    + rewrite (map_opt_nil_inv _ _ Hps).
      change (String.concat "," [p]) with p. rewrite Ptext, parse_members_key.
      rewrite Ea, skip_ws_app_keep by exact Hws0. rewrite <- Ea.
      change (String.concat "," [p]) with p in Hlen. rewrite str_length_app in Hlen.
      cbn [String.length] in Hlen.
      rewrite (IHv x a ("}" ++ rest) Hxv Ha ltac:(lia)).
      simpl. rewrite (dict_set_new acc k x Hk). reflexivity.
    + destruct r as [|[k2 x2] r'].
      { simpl in Hps. discriminate. }
      destruct (map_opt_cons_inv _ _ _ _ Hps) as (q' & ps2 & Hq & Hps2 & Eq).
      injection Eq as <- <-.
      destruct (dump_member_head _ _ Hq) as [zq ->].
      rewrite concat_two in *. rewrite !str_app_assoc. rewrite Ptext, parse_members_key.
      rewrite !str_length_app in Hlen. cbn [String.length] in Hlen.
      remember (String.concat "," (String dq zq :: ps')) as C eqn:HC.
      rewrite Ea, skip_ws_app_keep by exact Hws0. rewrite <- Ea.
      rewrite (IHv x a ("," ++ C ++ "}" ++ rest) Hxv Ha ltac:(lia)).
      simpl.
      destruct (concat_head dq zq ps' (String "}"%char rest)) as [u Eu].
      rewrite <- HC in Eu. rewrite Eu, (skip_ws_keep dq u eq_refl), <- Eu.
      rewrite HC. rewrite ?(dict_set_new acc k x Hk). replace (acc ++ (k, x) :: (k2, x2) :: r')%list
        with ((acc ++ [(k, x)]) ++ (k2, x2) :: r')%list by (rewrite <- app_assoc; reflexivity).
      apply IHm.
      * discriminate.
      * exact Hr.
      * unfold dict_keys in *. rewrite map_app, <- app_assoc. exact Hnd.
      * exact Hps.
      * rewrite <- HC, str_length_app. cbn [String.length]. lia.
  - intros l acc parts rest Hne Hl Hp Hlen.
    destruct l as [|x r]; [contradiction|].
    destruct (map_opt_cons_inv _ _ _ _ Hp) as (p & ps & Hx & Hps & ->).
    inversion Hl as [|? ? Hxv Hr]; subst.
    rewrite parse_elements_step.
    destruct ps as [|q ps'].
    + rewrite (map_opt_nil_inv _ _ Hps).
      change (String.concat "," [p]) with p in *. rewrite str_length_app in Hlen.
      cbn [String.length] in Hlen.
      rewrite (IHv x p ("]" ++ rest) Hxv Hx ltac:(lia)). reflexivity.
    + destruct r as [|x2 r'].
      { simpl in Hps. discriminate. }
      destruct (map_opt_cons_inv _ _ _ _ Hps) as (q' & ps2 & Hq & Hps2 & Eq).
      injection Eq as <- <-.
      inversion Hr as [|? ? Hx2v Hr']; subst.
      destruct (dumps_head x2 q Hx2v Hq) as (c0 & z0 & -> & Hws0 & _).
      rewrite concat_two in *. rewrite !str_app_assoc.
      rewrite !str_length_app in Hlen. cbn [String.length] in Hlen.
      remember (String.concat "," (String c0 z0 :: ps')) as C eqn:HC.
      rewrite (IHv x p ("," ++ C ++ "]" ++ rest) Hxv Hx ltac:(lia)).
      simpl.
      destruct (concat_head c0 z0 ps' (String "]"%char rest)) as [u Eu].
      rewrite <- HC in Eu. rewrite Eu, (skip_ws_keep c0 u Hws0), <- Eu.
      rewrite HC. replace (acc ++ x :: x2 :: r')%list
        with ((acc ++ [x]) ++ x2 :: r')%list by (rewrite <- app_assoc; reflexivity).
      apply IHe.
      * discriminate.
      * exact Hr.
      * exact Hps.
      * rewrite <- HC, str_length_app. cbn [String.length]. lia.
Qed.

Lemma json_loads_dumps (v : pyval) (t : string) : json_val v -> dumps v = Some t -> json_loads t = Some v.
Proof.
  intros Hv Ht. unfold json_loads.
  destruct (dumps_head v t Hv Ht) as (c & z & Et & Hws & _).
  rewrite Et, (skip_ws_keep c z Hws), <- Et.
  rewrite <- (str_app_nil_r t) at 2.
  rewrite (proj1 (parse_dumps (S (String.length t))) v t "" Hv Ht ltac:(lia)).
  reflexivity.
Qed.

(* sorting *)

Lemma insert_item_rel {A B} (R : A -> B -> Prop) (x : string * A) (y : string * B) l1 l2 :
  key_rel R x y -> Forall2 (key_rel R) l1 l2 ->
  Forall2 (key_rel R) (insert_item x l1) (insert_item y l2).
Proof.
  intros Hxy H. induction H as [|a b l1 l2 Hab H IH]; simpl.
  - constructor; [exact Hxy | constructor].
  - pose proof Hxy as [Ek _]. pose proof Hab as [Ek' _].
    rewrite Ek, Ek'. destruct (String.leb (fst y) (fst b)).
    + constructor; [exact Hxy|]. constructor; [exact Hab|exact H].
    + constructor; [exact Hab|exact IH].
Qed.

Lemma sort_items_rel {A B} (R : A -> B -> Prop) l1 l2 :
  Forall2 (key_rel R) l1 l2 -> Forall2 (key_rel R) (sort_items l1) (sort_items l2).
Proof.
  intro H. induction H; simpl; [constructor|]. apply insert_item_rel; assumption.
Qed.

Lemma insert_item_sorted {A} (x : string * A) (l : dict A) :
  keys_sorted l -> keys_sorted (insert_item x l).
Proof.
  induction l as [|y r IH]; simpl; [auto|].
  intro H. destruct (String.leb (fst x) (fst y)) eqn:E.
  - simpl. split; [exact E | exact H].
  - assert (Hyx : String.leb (fst y) (fst x) = true).
    { destruct (String.leb_total (fst y) (fst x)); congruence. }
    destruct r as [|z r'].
    + simpl. auto.
    + destruct H as [Hyz Hr]. specialize (IH Hr). simpl in IH |- *.
      destruct (String.leb (fst x) (fst z)); simpl in IH |- *; auto.
Qed.

Lemma sort_items_sorted {A} (l : dict A) : keys_sorted (sort_items l).
Proof. induction l; simpl; [exact I|]. apply insert_item_sorted. assumption. Qed.

Lemma sort_items_id {A} (l : dict A) : keys_sorted l -> sort_items l = l.
Proof.
  induction l as [|x r IH]; simpl; [reflexivity|].
  intro H. destruct r as [|y r'].
  - reflexivity.
  - destruct H as [Hxy Hr]. rewrite (IH Hr). simpl. rewrite Hxy. reflexivity.
Qed.

Lemma sort_items_idem {A} (l : dict A) : sort_items (sort_items l) = sort_items l.
Proof. apply sort_items_id. apply sort_items_sorted. Qed.

Lemma insert_item_perm {A} (x : string * A) (l : dict A) : Permutation (insert_item x l) (x :: l).
Proof.
  induction l as [|y r IH]; simpl; [reflexivity|].
  destruct (String.leb (fst x) (fst y)); [reflexivity|].
  rewrite IH. apply perm_swap.
Qed.

Lemma sort_items_perm {A} (l : dict A) : Permutation (sort_items l) l.
Proof.
  induction l as [|x r IH]; simpl; [reflexivity|].
  rewrite insert_item_perm. apply perm_skip. exact IH.
Qed.

Lemma Forall2_map_eq {A B C} (g : A -> C) (h : B -> C) l1 l2 :
  Forall2 (fun a b => g a = h b) l1 l2 -> map g l1 = map h l2.
Proof. intro H. induction H; simpl; congruence. Qed.

Lemma Forall2_self_map {A B} (g : A -> B) (l : list A) : Forall2 (fun a b => b = g a) l (map g l).
Proof. induction l; simpl; constructor; auto. Qed.

Lemma canon_items_eq (e f : dict pyval) :
  Forall2 (key_rel (fun a b => canon a = canon b)) e f -> map canon_item e = map canon_item f.
Proof.
  intro H. induction H as [|[k x] [k' y] l1 l2 [Ek Ey] _ IH]; [reflexivity|].
  cbn [fst snd] in *. subst. simpl map. f_equal; [|exact IH].
  unfold canon_item. cbn [fst snd]. rewrite Ey. reflexivity.
Qed.

Lemma sort_items_map_canon (d : dict pyval) :
  sort_items (map canon_item d) = map canon_item (sort_items d).
Proof.
  assert (Hi : forall x l, insert_item (canon_item x) (map canon_item l) = map canon_item (insert_item x l)).
  { intros x l. induction l as [|y r IH]; simpl; [reflexivity|].
    destruct (String.leb (fst x) (fst y)); simpl; [reflexivity|]. rewrite IH. reflexivity. }
  induction d as [|x r IH]; simpl; [reflexivity|]. rewrite IH. apply Hi.
Qed.

Lemma canon_dict (d : dict pyval) : canon (PDict d) = PDict (sort_items (map canon_item d)).
Proof.
  simpl. f_equal. f_equal. induction d as [|[k x] r IH]; [reflexivity|].
  transitivity ((k, canon x) :: map canon_item r); [|reflexivity].
  rewrite <- IH. reflexivity.
Qed.

Lemma map_items_rel {A B} (f : A -> option B) d d' :
  map_items f d = Some d' -> Forall2 (key_rel (fun a b => f a = Some b)) d d'.
Proof.
  revert d'. induction d as [|[k x] r IH]; intros d' H; simpl in H.
  - injection H as <-. constructor.
  - destruct (f x) as [y|] eqn:Fx; [|discriminate].
    destruct (map_items f r) as [r'|]; [|discriminate].
    injection H as <-. constructor; [split; [reflexivity|exact Fx] | apply IH; reflexivity].
Qed.

Lemma map_items_exists {A B} (f : A -> option B) (Q : A -> B -> Prop) (d : dict A) :
  Forall (fun kv => exists w, f (snd kv) = Some w /\ Q (snd kv) w) d ->
  exists d', map_items f d = Some d' /\ Forall2 (key_rel Q) d d'.
Proof.
  intro H. induction H as [|[k x] r [w [Fx Qx]] _ [r' [Er Hr]]].
  - exists []. split; [reflexivity | constructor].
  - cbn [snd] in Fx, Qx. exists ((k, w) :: r'). simpl. rewrite Fx, Er. split; [reflexivity|].
    constructor; [split; [reflexivity|exact Qx] | exact Hr].
Qed.

Lemma map_opt_rel {A B} (f : A -> option B) l l' :
  map_opt f l = Some l' -> Forall2 (fun a b => f a = Some b) l l'.
Proof.
  revert l'. induction l as [|x r IH]; intros l' H; simpl in H.
  - injection H as <-. constructor.
  - destruct (f x) as [y|] eqn:Fx; [|discriminate].
    destruct (map_opt f r) as [r'|]; [|discriminate].
    injection H as <-. constructor; [exact Fx | apply IH; reflexivity].
Qed.

Lemma map_opt_exists {A B} (f : A -> option B) (Q : A -> B -> Prop) (l : list A) :
  Forall (fun x => exists w, f x = Some w /\ Q x w) l ->
  exists l', map_opt f l = Some l' /\ Forall2 Q l l'.
Proof.
  intro H. induction H as [|x r [w [Fx Qx]] _ [r' [Er Hr]]].
  - exists []. split; [reflexivity | constructor].
  - exists (w :: r'). simpl. rewrite Fx, Er. split; [reflexivity|]. constructor; assumption.
Qed.

Lemma to_json_go_list (l : list pyval) :
  (fix go (l : list pyval) : option (list pyval) :=
     match l with
     | [] => Some []
     | x :: r => match av_to_json x, go r with
                 | Some y, Some r' => Some (y :: r')
                 | _, _ => None
                 end
     end) l = map_opt av_to_json l.
Proof. induction l as [|x r IH]; [reflexivity|]. cbv beta iota fix delta [map_opt]. rewrite IH. reflexivity. Qed.

Lemma to_json_go_dict (d : dict pyval) :
  (fix go (d : dict pyval) : option (dict pyval) :=
     match d with
     | [] => Some []
     | (k, x) :: r => match av_to_json x, go r with
                      | Some y, Some r' => Some ((k, y) :: r')
                      | _, _ => None
                      end
     end) d = map_items av_to_json d.
Proof. induction d as [|[k x] r IH]; [reflexivity|]. cbv beta iota fix delta [map_items]. rewrite IH. reflexivity. Qed.

Lemma from_json_go_list (l : list pyval) :
  (fix go (l : list pyval) : option (list pyval) :=
     match l with
     | [] => Some []
     | x :: r => match av_from_json x, go r with
                 | Some y, Some r' => Some (y :: r')
                 | _, _ => None
                 end
     end) l = map_opt av_from_json l.
Proof. induction l as [|x r IH]; [reflexivity|]. cbv beta iota fix delta [map_opt]. rewrite IH. reflexivity. Qed.

Lemma from_json_go_dict (d : dict pyval) :
  (fix go (d : dict pyval) : option (dict pyval) :=
     match d with
     | [] => Some []
     | (k, x) :: r => match av_from_json x, go r with
                      | Some y, Some r' => Some ((k, y) :: r')
                      | _, _ => None
                      end
     end) d = map_items av_from_json d.
Proof. induction d as [|[k x] r IH]; [reflexivity|]. cbv beta iota fix delta [map_items]. rewrite IH. reflexivity. Qed.

Lemma dicts_nodup_list (l : list pyval) : dicts_nodup (PList l) -> Forall dicts_nodup l.
Proof. simpl. induction l as [|x r IH]; intros H; constructor; destruct H; auto. Qed.

Lemma dicts_nodup_dict (d : dict pyval) :
  dicts_nodup (PDict d) -> NoDup (dict_keys d) /\ Forall (fun kv => dicts_nodup (snd kv)) d.
Proof.
  simpl. intros [Hn H]. split; [exact Hn|]. clear Hn.
  induction d as [|[k x] r IH]; constructor; destruct H; auto.
Qed.

Lemma pv_size_list (l : list pyval) (x : pyval) : In x l -> pv_size x < pv_size (PList l).
Proof.
  induction l as [|y r IH]; [intros []|]. intros [->|I]; simpl in *; [lia|]. specialize (IH I). lia.
Qed.

Lemma pv_size_dict (d : dict pyval) (k : string) (x : pyval) : In (k, x) d -> pv_size x < pv_size (PDict d).
Proof.
  induction d as [|[k' y] r IH]; [intros []|]. intros [E|I]; simpl in *.
  - injection E as -> ->. lia.
  - specialize (IH I). lia.
Qed.

Lemma pstrs_json (l : list pyval) : forallb is_pstr l = true -> Forall json_val l.
Proof.
  induction l as [|x r IH]; simpl; [constructor|].
  intro H. apply andb_prop in H as [Hx Hr]. constructor; [|auto].
  destruct x; try discriminate. constructor.
Qed.

Lemma bs_round (l : list pyval) : forallb is_pbytes l = true ->
  forallb is_pstr (map bs_enc l) = true /\ map_opt bs_dec (map bs_enc l) = Some l.
Proof.
  induction l as [|x r IH]; simpl; [auto|].
  intro H. apply andb_prop in H as [Hx Hr]. destruct (IH Hr) as [I1 I2].
  destruct x; try discriminate. simpl. rewrite I1, b64_round, I2. auto.
Qed.

Lemma av_ok_list (l l' : list pyval) : Forall2 av_ok l l' ->
  Forall json_val l' /\ exists l'', map_opt av_from_json l' = Some l'' /\ map canon l'' = map canon l.
Proof.
  intro H. induction H as [|a b l l' [Jb [w [Fw Cw]]] _ [IJ [l'' [E1 E2]]]].
  - split; [constructor|]. exists []. auto.
  - split; [constructor; assumption|]. exists (w :: l''). simpl. rewrite Fw, E1. split; [reflexivity|].
    simpl. rewrite Cw, E2. reflexivity.
Qed.

Lemma av_ok_dict (d d' : dict pyval) : Forall2 (key_rel av_ok) d d' ->
  Forall (fun kv => json_val (snd kv)) d' /\ map fst d' = map fst d /\
  exists d'', map_items av_from_json d' = Some d'' /\ map canon_item d'' = map canon_item d.
Proof.
  intro H. induction H as [|[k a] [k' b] d d' [Ek [Jb [w [Fw Cw]]]] _ [IJ [IK [d'' [E1 E2]]]]].
  - split; [constructor|]. split; [reflexivity|]. exists []. auto.
  - cbn [fst snd] in *. subst k'. split; [constructor; assumption|]. split; [simpl; congruence|].
    exists ((k, w) :: d''). simpl. rewrite Fw, E1. split; [reflexivity|].
    simpl. unfold canon_item at 1 3. cbn [fst snd]. rewrite Cw, E2. reflexivity.
Qed.

Lemma nodup_single (k : string) : NoDup (dict_keys [(k, PNone)]).
Proof. constructor; [intros []|constructor]. Qed.

Lemma json_single (k : string) (x : pyval) : json_val x -> json_val (PDict [(k, x)]).
Proof. intro H. constructor; [constructor; [intros []|constructor] | constructor; [exact H|constructor]]. Qed.

Lemma Forall2_in_impl {A B} (R R' : A -> B -> Prop) l l' :
  Forall2 R l l' -> (forall a b, In a l -> R a b -> R' a b) -> Forall2 R' l l'.
Proof.
  intros H HI. induction H as [|a b l l' Hab _ IH]; constructor.
  - apply HI; [left; reflexivity | exact Hab].
  - apply IH. intros x y Ix. apply HI. right. exact Ix.
Qed.

Lemma Forall2_key_in_impl {A B} (R R' : A -> B -> Prop) (d : dict A) (d' : dict B) :
  Forall2 (key_rel R) d d' -> (forall k a b, In (k, a) d -> R a b -> R' a b) ->
  Forall2 (key_rel R') d d'.
Proof.
  intros H HI. induction H as [|[k a] b d d' [Ek Hab] _ IH]; constructor.
  - split; [exact Ek|]. apply (HI k); [left; reflexivity | exact Hab].
  - apply IH. intros k' x y Ix. apply (HI k'). right. exact Ix.
Qed.

Lemma canon_single (k : string) (x : pyval) : canon (PDict [(k, x)]) = PDict [(k, canon x)].
Proof. reflexivity. Qed.

Lemma canon_sorted_dict (d : dict pyval) : canon (PDict (sort_items d)) = canon (PDict d).
Proof.
  rewrite !canon_dict, sort_items_map_canon, sort_items_idem, <- sort_items_map_canon. reflexivity.
Qed.

Lemma av_round_aux (n : nat) : forall v j, pv_size v <= n -> dicts_nodup v ->
  av_to_json v = Some j -> av_ok v j.
Proof.
  induction n as [|n IH]; intros v j Hs Hn Hj; [destruct v; simpl in Hs; lia|].
  destruct v as [| | | | | | | | |d]; try discriminate.
  destruct d as [|[kind value] [|? ?]]; try discriminate.
  cbn [av_to_json] in Hj.
  unfold av_ok.
  destruct ((kind =? "S") || (kind =? "N"))%string eqn:E1.
  { destruct (is_pstr value) eqn:E2; [|discriminate]. injection Hj as <-.
    split; [apply json_single; destruct value; try discriminate; constructor|].
    exists (PDict [(kind, value)]). split; [|reflexivity].
    cbn [av_from_json]. rewrite E1, E2. reflexivity. }
  destruct (kind =? "B")%string eqn:E3.
  { apply String.eqb_eq in E3. subst kind.
    destruct value; try discriminate. injection Hj as <-.
    split; [apply json_single; constructor|].
    exists (PDict [("B", PBytes b)]). split; [|reflexivity].
    cbn -[b64decode b64encode]. rewrite b64_round. reflexivity. }
  destruct (kind =? "BOOL")%string eqn:E4.
  { apply String.eqb_eq in E4. subst kind.
    destruct value; try discriminate. injection Hj as <-.
    split; [apply json_single; constructor|].
    exists (PDict [("BOOL", PBool b)]). split; reflexivity. }
  destruct (kind =? "NULL")%string eqn:E5.
  { apply String.eqb_eq in E5. subst kind.
    destruct value as [|[|]| | | | | | | |]; try discriminate. injection Hj as <-.
    split; [apply json_single; constructor|].
    exists (PDict [("NULL", PBool true)]). split; reflexivity. }
  destruct ((kind =? "SS") || (kind =? "NS"))%string eqn:E6.
  { destruct value; try discriminate. destruct (forallb is_pstr l) eqn:E7; [|discriminate].
    injection Hj as <-.
    split; [apply json_single; constructor; apply pstrs_json; exact E7|].
    exists (PDict [(kind, PList l)]). split; [|reflexivity].
    cbn [av_from_json]. rewrite E1, E3, E4, E5, E6, E7. reflexivity. }
  destruct (kind =? "BS")%string eqn:E8.
  { apply String.eqb_eq in E8. subst kind.
    destruct value; try discriminate. destruct (forallb is_pbytes l) eqn:E9; [|discriminate].
    injection Hj as <-. destruct (bs_round l E9) as [B1 B2].
    split; [apply json_single; constructor; apply pstrs_json; exact B1|].
    exists (PDict [("BS", PList l)]). split; [|reflexivity].
    cbn -[b64decode b64encode map_opt forallb map]. fold bs_enc. rewrite B1.
    change (map_opt _ (map bs_enc l)) with (map_opt bs_dec (map bs_enc l)). rewrite B2. reflexivity. }
  pose proof (dicts_nodup_dict _ Hn) as [_ Hn1]. inversion Hn1 as [|? ? Hnv _]; subst. cbn [snd] in Hnv.
  assert (Hsv : pv_size value < S n).
  { pose proof (pv_size_dict [(kind, value)] kind value (or_introl eq_refl)). lia. }
  destruct (kind =? "L")%string eqn:EL.
  { apply String.eqb_eq in EL. subst kind.
    destruct value as [| | | | | | |l| |]; try discriminate.
    rewrite to_json_go_list in Hj. destruct (map_opt av_to_json l) as [l'|] eqn:Hl; [|discriminate].
    injection Hj as <-. apply map_opt_rel in Hl.
    assert (HF : Forall2 av_ok l l').
    { apply (Forall2_in_impl _ _ _ _ Hl). intros a b Ia Hab. apply IH; [| |exact Hab].
      - pose proof (pv_size_list l a Ia). lia.
      - apply dicts_nodup_list in Hnv. rewrite Forall_forall in Hnv. apply Hnv, Ia. }
    destruct (av_ok_list _ _ HF) as [J [l'' [G1 G2]]].
    split; [apply json_single; constructor; exact J|].
    exists (PDict [("L", PList l'')]). split.
    - cbn [av_from_json]. rewrite from_json_go_list, G1. reflexivity.
    - rewrite !canon_single. cbn [canon]. rewrite G2. reflexivity. }
  destruct (kind =? "M")%string eqn:EM; [|discriminate].
  apply String.eqb_eq in EM. subst kind.
  destruct value as [| | | | | | | | |d]; try discriminate.
  rewrite to_json_go_dict in Hj. destruct (map_items av_to_json d) as [d'|] eqn:Hd; [|discriminate].
  injection Hj as <-. apply map_items_rel in Hd.
  pose proof (dicts_nodup_dict _ Hnv) as [Hk Hnd].
  assert (HF : Forall2 (key_rel av_ok) d d').
  { apply (Forall2_key_in_impl _ _ _ _ Hd). intros k a b Ia Hab. apply IH; [| |exact Hab].
    - pose proof (pv_size_dict d k a Ia). lia.
    - rewrite Forall_forall in Hnd. apply (Hnd (k, a)), Ia. }
  destruct (av_ok_dict _ _ (sort_items_rel _ _ _ HF)) as [J [K [d'' [G1 G2]]]].
  split.
  - apply json_single. constructor; [|exact J]. unfold dict_keys. rewrite K.
    apply (Permutation_NoDup (l := map fst d)); [|exact Hk].
    apply Permutation_map. symmetry. apply sort_items_perm.
  - exists (PDict [("M", PDict (sort_items d''))]). split.
    + cbn [av_from_json]. rewrite from_json_go_dict, G1. reflexivity.
    + rewrite !canon_single. f_equal. f_equal.
      rewrite canon_sorted_dict, canon_dict, G2, <- canon_dict. rewrite canon_sorted_dict. reflexivity.
Qed.

Lemma av_round (v j : pyval) : dicts_nodup v -> av_to_json v = Some j -> av_ok v j.
Proof. apply (av_round_aux (pv_size v)). lia. Qed.

Lemma cursor_payload_dumps (lk : dict pyval) (idx srt : option string) (dumped : string) :
  dumps (PDict (sort_items lk)) = Some dumped ->
  dumps (PDict (cursor_entries lk idx srt)) =
  Some ("{" ++ String.concat ","
          (app [lastkey_field ++ dumped]
            (app (match idx with Some i => [index_field ++ dumps_str i] | None => [] end)
                 (match srt with Some s => [sort_field ++ dumps_str s] | None => [] end))) ++ "}").
Proof.
  intro H. rewrite dumps_dict. unfold cursor_entries.
  destruct idx as [i|], srt as [s|]; cbn [map_opt app]; unfold dump_member at 1; cbn [fst snd];
    rewrite H; try (unfold dump_member; cbn [fst snd dumps]); reflexivity.
Qed.

Lemma cursor_entries_json (lk : dict pyval) (idx srt : option string) :
  NoDup (dict_keys (sort_items lk)) -> Forall (fun kv => json_val (snd kv)) (sort_items lk) ->
  json_val (PDict (cursor_entries lk idx srt)).
Proof.
  intros Hk Hv. unfold cursor_entries.
  assert (Hl : json_val (PDict (sort_items lk))) by (constructor; assumption).
  destruct idx as [i|], srt as [s|]; cbn [app]; constructor;
    repeat constructor; cbn [snd]; try assumption; cbn [dict_keys map fst In];
    intuition discriminate.
Qed.

Lemma urlsafe_decode_empty : urlsafe_b64decode "" = Some "".
Proof. reflexivity. Qed.

Lemma decode_encoded_token (payload : string) (p : dict pyval) :
  payload <> "" -> json_loads payload = Some (PDict p) ->
  decode_cursor (urlsafe_b64encode payload) =
  match dict_get p "lastKey" with
  | Some (PDict lk) =>
      items <- of_option (ValueError "attribute value") (map_items av_from_json lk) ;;
      let idx := match dict_get p "index" with Some (PStr i) => Some i | _ => None end in
      srt <- match dict_get p "sort" with
             | Some (PStr s) =>
                 Ok (if String.eqb s "ASC" || String.eqb s "DESC" then Some s else None)
             | Some (PList _) | Some (PDict _) => Err (TypeError "unhashable type")
             | _ => Ok None
             end ;;
      Ok (mkCursor (sort_items items) idx srt)
  | _ => Err (ValueError "cursor lastKey is invalid")
  end.
Proof.
  intros Hp Hj. destruct (urlsafe_round_trip payload) as (R1 & R2 & R3).
  remember (urlsafe_b64encode payload) as tok eqn:Etok.
  unfold decode_cursor. rewrite (strip_keep tok R2).
  destruct (String.eqb tok "") eqn:Ee.
  { apply String.eqb_eq in Ee. subst tok. rewrite Ee, urlsafe_decode_empty in R1.
    injection R1 as R1. congruence. }
  rewrite R3. cbn [Nat.sub Nat.modulo]. 
  replace ((4 - 0) mod 4) with 0 by reflexivity. cbn [repeat_char]. rewrite str_app_nil_r, R1.
  cbn [of_option bind]. rewrite Hj. reflexivity.
Qed.

(** Claim C1: cursor round trip.  For every last key that [encode_cursor]
    accepts (a non-empty dict of wire attribute values, nested [L], [M] and
    binary [B]/[BS] included), every index name and every sort direction
    among [None], ["ASC"] and ["DESC"], [decode_cursor] gives back the key
    (equal as a Python dict: same items, in sorted order), the index and the
    sort; an empty or missing last key is encoded as the empty string. *)
Theorem cursor_round_trip :
  (forall (d : dict pyval) (idx srt : option string) (tok : string),
     dicts_nodup (PDict d) ->
     srt = None \/ srt = Some "ASC" \/ srt = Some "DESC" ->
     d <> [] ->
     encode_cursor (PDict d) idx srt = Ok tok ->
     exists c, decode_cursor tok = Ok c /\ py_eq (PDict (last_key c)) (PDict d)
               /\ index c = idx /\ sort c = srt)
  /\ (forall idx srt, encode_cursor PNone idx srt = Ok "" /\ encode_cursor (PDict []) idx srt = Ok "").
Proof.
  split; [|split; reflexivity].
  intros d idx srt tok Hn Hs Hne Henc.
  destruct d as [|kv0 d0]; [contradiction|]. remember (kv0 :: d0) as d eqn:Ed.
  unfold encode_cursor in Henc. rewrite Ed in Henc. cbn [py_truthy negb] in Henc. rewrite <- Ed in Henc.
  destruct (map_items av_to_json d) as [lk|] eqn:Hlk; [|discriminate]. cbn [of_option bind] in Henc.
  destruct (dumps (PDict (sort_items lk))) as [dumped|] eqn:Hd; [|discriminate]. cbn [of_option bind] in Henc.
  injection Henc as <-.
  pose proof (dicts_nodup_dict _ Hn) as [Hk Hnd].
  assert (HF : Forall2 (key_rel av_ok) d lk).
  { apply (Forall2_key_in_impl _ _ _ _ (map_items_rel _ _ _ Hlk)). intros k a b Ia Hab.
    apply av_round; [|exact Hab]. rewrite Forall_forall in Hnd. apply (Hnd (k, a)), Ia. }
  destruct (av_ok_dict _ _ (sort_items_rel _ _ _ HF)) as [J [K [d'' [G1 G2]]]].
  assert (Hk' : NoDup (dict_keys (sort_items lk))).
  { unfold dict_keys. rewrite K. apply (Permutation_NoDup (l := map fst d)); [|exact Hk].
    apply Permutation_map. symmetry. apply sort_items_perm. }
  rewrite (decode_encoded_token _ (cursor_entries lk idx srt)).
  2: { destruct idx, srt; discriminate. }
  2: { apply json_loads_dumps; [apply cursor_entries_json; assumption|].
       apply cursor_payload_dumps. exact Hd. }
  exists (mkCursor (sort_items d'') idx srt).
  split; [|split; [|split; reflexivity]].
  - unfold cursor_entries. destruct idx as [i|], Hs as [->|[->| ->]];
      cbn -[map_items sort_items av_from_json]; rewrite G1; reflexivity.
  - unfold py_eq. cbn [last_key].
    rewrite canon_sorted_dict, canon_dict, G2, <- canon_dict. apply canon_sorted_dict.
Qed.

Lemma cursor_round_trip_witness :
  exists tok, encode_cursor (PDict cursor_witness_key) (Some "gsi1") (Some "DESC") = Ok tok /\
  exists c, decode_cursor tok = Ok c /\ py_eq (PDict (last_key c)) (PDict cursor_witness_key)
            /\ index c = Some "gsi1" /\ sort c = Some "DESC".
Proof.
  eexists. split; [vm_compute; reflexivity|].
  apply (proj1 cursor_round_trip cursor_witness_key (Some "gsi1") (Some "DESC")).
  - simpl. repeat split; repeat constructor; simpl; intuition discriminate.
  - right. right. reflexivity.
  - discriminate.
  - vm_compute. reflexivity.
Defined.


(* ================================================================== *)
(** * Further properties of the code *)

(** Extra X1 ([_av_to_json], [_av_from_json]).  Whenever [_av_to_json]
    accepts an attribute value whose maps have distinct keys, its result is
    a JSON value, and [_av_from_json] turns it back into the same attribute
    value (up to the order of map entries). *)
Lemma av_json_round_trip (v j : pyval) :
  dicts_nodup v -> av_to_json v = Some j ->
  json_val j /\ exists w, av_from_json j = Some w /\ py_eq w v.
Proof.
  intros Hn Hj. destruct (av_round v j Hn Hj) as [J [w [H1 H2]]].
  split; [exact J|]. exists w. split; [exact H1|]. exact H2.
Qed.

Lemma chunked_aux_concat {A} (n k : nat) (l : list A) :
  0 < n -> length l <= k -> concat (chunked_aux k n l) = l.
Proof.
  intros Hn. revert l. induction k as [|k IH]; intros l Hl.
  - destruct l; [reflexivity|simpl in Hl; lia].
  - destruct l as [|x r]; [reflexivity|]. cbn [chunked_aux]. cbn [concat].
    rewrite IH. { apply firstn_skipn. }
    rewrite length_skipn. cbn [length] in Hl |- *. lia.
Qed.

Lemma chunked_concat {A} (l : list A) n : 0 < n -> concat (chunked l n) = l.
Proof. intros Hn. apply chunked_aux_concat; [exact Hn|apply le_n]. Qed.

Lemma chunked_aux_sizes {A} (n k : nat) (l : list A) :
  0 < n -> Forall (fun c => 0 < length c <= n) (chunked_aux k n l).
Proof.
  intros Hn. revert l. induction k as [|k IH]; intros l; [constructor|].
  destruct l as [|x r]; [constructor|]. cbn [chunked_aux]. constructor; [|apply IH].
  rewrite length_firstn. simpl. lia.
Qed.

Lemma chunked_sizes {A} (l : list A) n : 0 < n -> Forall (fun c => 0 < length c <= n) (chunked l n).
Proof. apply chunked_aux_sizes. Qed.

Lemma map_result_Forall2 {A B} (f : A -> result B) l l' :
  map_result f l = Ok l' <-> Forall2 (fun a b => f a = Ok b) l l'.
Proof.
  revert l'. induction l as [|x r IH]; intros l'; split.
  - intros H. injection H as <-. constructor.
  - intros H. inversion H. reflexivity.
  - intros H. rewrite map_result_cons in H.
    destruct (f x) as [y|e] eqn:Ey; cbn [bind] in H; [|discriminate].
    destruct (map_result f r) as [m|e] eqn:Em; cbn [bind] in H; [|discriminate].
    injection H as <-. constructor; [exact Ey|]. apply IH. reflexivity.
  - intros H. inversion H as [|? y ? r' Hy Hr]; subst.
    rewrite map_result_cons, Hy. apply IH in Hr. rewrite Hr. reflexivity.
Qed.

Lemma Forall2_firstn_skipn {A B} (R : A -> B -> Prop) n l l' :
  Forall2 R l l' -> Forall2 R (firstn n l) (firstn n l') /\ Forall2 R (skipn n l) (skipn n l').
Proof.
  revert l l'. induction n as [|n IH]; intros l l' H; [split; [constructor|exact H]|].
  destruct H as [|x y r r' Hxy Hr]; [split; constructor|].
  destruct (IH _ _ Hr) as [H1 H2]. split; [constructor; assumption|exact H2].
Qed.

Lemma chunked_aux_Forall2 {A B} (R : A -> B -> Prop) n k l l' :
  Forall2 R l l' ->
  Forall2 (fun c c' => Forall2 R c c') (chunked_aux k n l) (chunked_aux k n l').
Proof.
  revert l l'. induction k as [|k IH]; intros l l' H; [constructor|].
  destruct H as [|x y r r' Hxy Hr]; [constructor|].
  cbn [chunked_aux]. destruct (Forall2_firstn_skipn R n (x :: r) (y :: r')) as [H1 H2];
    [constructor; assumption|].
  constructor; [exact H1|]. apply IH. exact H2.
Qed.

Lemma chunked_Forall2 {A B} (R : A -> B -> Prop) n l l' :
  Forall2 R l l' -> Forall2 (fun c c' => Forall2 R c c') (chunked l n) (chunked l' n).
Proof.
  intros H. unfold chunked. rewrite (Forall2_length H). apply chunked_aux_Forall2. exact H.
Qed.

Lemma map_result_ok_map {A B} (f : A -> result B) (g : A -> B) l :
  (forall x, f x = Ok (g x)) -> map_result f l = Ok (map g l).
Proof.
  intros H. induction l as [|x r IH]; [reflexivity|].
  rewrite map_result_cons, H, IH. reflexivity.
Qed.

Lemma batch_get_loop_processed T (from_item : pyval -> result T) bgi resp g :
  (forall calls pending, bgi calls pending = BatchGetOk (resp pending) []) ->
  (forall x, from_item x = Ok (g x)) ->
  forall r pending calls out, pending <> [] ->
  batch_get_loop T from_item bgi r pending calls out = (Ok (app out (map g (resp pending))), app calls [pending]).
Proof.
  intros Hb Hf r pending calls out Hne. destruct pending as [|k ks]; [congruence|].
  destruct r; cbn [batch_get_loop]; rewrite Hb, (map_result_ok_map _ g _ Hf); reflexivity.
Qed.

Lemma batch_get_chunks_processed T (from_item : pyval -> result T) bgi resp g model sav :
  (forall calls pending, bgi calls pending = BatchGetOk (resp pending) []) ->
  (forall x, from_item x = Ok (g x)) ->
  forall r cs cs' calls out,
  Forall2 (fun c c' => map_result (fun '(p, s) => to_key model sav p s) c = Ok c' /\ c' <> []) cs cs' ->
  batch_get_chunks model sav T from_item bgi r cs calls out =
    (Ok (app out (flat_map (fun c => map g (resp c)) cs')), app calls cs').
Proof.
  intros Hb Hf r cs cs' calls out H. revert calls out.
  induction H as [|c c' cs cs' [Hc Hne] Hr IH]; intros calls out.
  - rewrite !app_nil_r. reflexivity.
  - cbn [batch_get_chunks]. rewrite Hc, (batch_get_loop_processed T from_item bgi resp g Hb Hf _ _ _ _ Hne).
    rewrite IH. cbn [flat_map]. rewrite <- !app_assoc. reflexivity.
Qed.

Lemma batch_write_loop_accepted bwi :
  (forall calls pending, bwi calls pending = BatchWriteOk []) ->
  forall r pending calls, pending <> [] -> batch_write_loop bwi r pending calls = (Ok tt, app calls [pending]).
Proof.
  intros Hb r pending calls Hne. destruct pending as [|k ks]; [congruence|].
  destruct r; cbn [batch_write_loop]; rewrite Hb; reflexivity.
Qed.

Lemma batch_write_chunks_accepted bwi :
  (forall calls pending, bwi calls pending = BatchWriteOk []) ->
  forall r cs calls, Forall (fun c => c <> []) cs -> batch_write_chunks bwi r cs calls = (Ok tt, app calls cs).
Proof.
  intros Hb r cs calls H. revert calls. induction H as [|c cs Hc Hr IH]; intros calls.
  - rewrite app_nil_r. reflexivity.
  - cbn [batch_write_chunks]. rewrite (batch_write_loop_accepted bwi Hb _ _ _ Hc), IH.
    rewrite <- app_assoc. reflexivity.
Qed.

(** Extra X5 ([Table.batch_get], [_chunked]).  When every key converts and
    the backend answers each request with all its items and no unprocessed
    keys, [batch_get] sends the keys in chunks of 1 to 100 that
    concatenate to the key list, one call per chunk, and returns the
    converted items of all responses in order. *)
Theorem batch_get_all_processed :
  forall (model : ModelDefinition) (sav : AttributeDefinition -> pyval -> result pyval)
         (T : Type) (from_item : pyval -> result T) bgi (resp : list (dict pyval) -> list pyval)
         (g : pyval -> T) keys normalized ks (max_retries : Z),
  (0 <= max_retries)%Z ->
  (forall calls pending, bgi calls pending = BatchGetOk (resp pending) []) ->
  (forall x, from_item x = Ok (g x)) ->
  map_result (normalize_key model) keys = Ok normalized ->
  map_result (fun '(p, s) => to_key model sav p s) normalized = Ok ks ->
  batch_get model sav T from_item bgi keys max_retries =
    (Ok (flat_map (fun c => map g (resp c)) (chunked ks 100)), chunked ks 100) /\
  concat (chunked ks 100) = ks /\ Forall (fun c => 0 < length c <= 100) (chunked ks 100).
Proof.
  intros model sav T from_item bgi resp g keys normalized ks max_retries Hm Hb Hf Hn Hk.
  split; [|split; [apply chunked_concat; lia|apply chunked_sizes; lia]].
  unfold batch_get. replace (max_retries <? 0)%Z with false by (symmetry; apply Z.ltb_ge; lia).
  destruct keys as [|k0 keys0].
  - injection Hn as <-. injection Hk as <-. reflexivity.
  - rewrite Hn. rewrite (batch_get_chunks_processed T from_item bgi resp g model sav Hb Hf
                           _ _ (chunked ks 100)); [reflexivity|].
    apply map_result_Forall2 in Hk.
    pose proof (chunked_Forall2 _ 100 _ _ Hk) as HC.
    pose proof (chunked_sizes ks 100 ltac:(lia)) as HS.
    revert HS. induction HC as [|c c' cs cs' Hcc Hr IH]; intros HS; constructor.
    + inversion HS as [|? ? Hsz _]; subst. split.
      * apply map_result_Forall2. exact Hcc.
      * intro E. subst c'. simpl in Hsz. lia.
    + apply IH. inversion HS. assumption.
Qed.

Lemma batch_get_all_processed_witness :
  exists normalized ks,
  map_result (normalize_key sample_model) sample_keys_150 = Ok normalized /\
  map_result (fun '(p, s) => to_key sample_model sample_serialize_attr p s) normalized = Ok ks /\
  batch_get sample_model sample_serialize_attr pyval sample_from_item echo_batch_get sample_keys_150 2 =
    (Ok (flat_map (fun c => map (fun x => x) (map PDict c)) (chunked ks 100)), chunked ks 100) /\
  concat (chunked ks 100) = ks /\ Forall (fun c => 0 < length c <= 100) (chunked ks 100).
Proof.
  eexists. eexists. split; [vm_compute; reflexivity|]. split; [vm_compute; reflexivity|].
  eapply (batch_get_all_processed sample_model sample_serialize_attr pyval sample_from_item echo_batch_get
           (map PDict) (fun x => x) sample_keys_150).
  - lia.
  - reflexivity.
  - reflexivity.
  - vm_compute. reflexivity.
  - vm_compute. reflexivity.
Defined.

(** Extra X6 ([Table.batch_write], [_chunked]).  When the write requests
    build and the backend leaves nothing unprocessed, [batch_write] succeeds
    after sending all put requests then all delete requests, in chunks of 1
    to 25 that concatenate to that list, one call per chunk. *)
Theorem batch_write_all_accepted :
  forall (model : ModelDefinition) (sav : AttributeDefinition -> pyval -> result pyval)
         bwi puts deletes requests (max_retries : Z),
  (0 <= max_retries)%Z ->
  (forall calls pending, bwi calls pending = BatchWriteOk []) ->
  write_requests model sav puts deletes = Ok requests ->
  batch_write model sav bwi puts deletes max_retries = (Ok tt, chunked requests 25) /\
  concat (chunked requests 25) = requests /\ Forall (fun c => 0 < length c <= 25) (chunked requests 25) /\
  exists items keys, requests = app (map PutRequest items) (map DeleteRequest keys) /\
                     length items = length puts /\ length keys = length deletes.
Proof.
  intros model sav bwi puts deletes requests max_retries Hm Hb Hr.
  split; [|split; [apply chunked_concat; lia|split; [apply chunked_sizes; lia|]]].
  - unfold batch_write. replace (max_retries <? 0)%Z with false by (symmetry; apply Z.ltb_ge; lia).
    rewrite Hr. apply batch_write_chunks_accepted; [exact Hb|].
    pose proof (chunked_sizes requests 25 ltac:(lia)) as HS.
    eapply Forall_impl; [|exact HS]. intros c [Hc _] E. subst c. simpl in Hc. lia.
  - unfold write_requests in Hr.
    destruct (map_result _ puts) as [ps|e] eqn:Hp; cbn [bind] in Hr; [|discriminate].
    destruct (map_result _ deletes) as [ds|e] eqn:Hd; cbn [bind] in Hr; [|discriminate].
    injection Hr as <-.
    apply map_result_Forall2 in Hp. apply map_result_Forall2 in Hd.
    assert (Gp : forall l l', Forall2 (fun a b => (i <- to_item model sav a ;; Ok (PutRequest i)) = Ok b) l l' ->
                 exists is, l' = map PutRequest is /\ length is = length l).
    { intros l l' H. induction H as [|a b l l' Hab _ [is [-> Hl]]]; [exists []; split; reflexivity|].
      destruct (to_item model sav a) as [i|e]; cbn [bind] in Hab; [|discriminate].
      injection Hab as <-. exists (i :: is). split; [reflexivity|simpl; lia]. }
    assert (Gd : forall l l', Forall2 (fun a b => (nk <- normalize_key model a ;;
                     k <- to_key model sav (fst nk) (snd nk) ;; Ok (DeleteRequest k)) = Ok b) l l' ->
                 exists ks, l' = map DeleteRequest ks /\ length ks = length l).
    { intros l l' H. induction H as [|a b l l' Hab _ [ks [-> Hl]]]; [exists []; split; reflexivity|].
      destruct (normalize_key model a) as [nk|e]; cbn [bind] in Hab; [|discriminate].
      destruct (to_key model sav (fst nk) (snd nk)) as [k|e]; cbn [bind] in Hab; [|discriminate].
      injection Hab as <-. exists (k :: ks). split; [reflexivity|simpl; lia]. }
    destruct (Gp _ _ Hp) as [is [-> Li]]. destruct (Gd _ _ Hd) as [ks [-> Lk]].
    exists is, ks. split; [reflexivity|split; assumption].
Qed.

Lemma batch_write_all_accepted_witness :
  exists requests,
  write_requests sample_model sample_serialize_attr [sample_item] [PStr "B"; PStr "C"] = Ok requests /\
  (batch_write sample_model sample_serialize_attr accept_batch_write [sample_item] [PStr "B"; PStr "C"] 1
     = (Ok tt, chunked requests 25) /\
   concat (chunked requests 25) = requests /\ Forall (fun c => 0 < length c <= 25) (chunked requests 25) /\
   exists items keys, requests = app (map PutRequest items) (map DeleteRequest keys) /\
                      length items = 1 /\ length keys = 2).
Proof.
  eexists. split; [vm_compute; reflexivity|].
  apply (batch_write_all_accepted sample_model sample_serialize_attr accept_batch_write
           [sample_item] [PStr "B"; PStr "C"]).
  - lia.
  - reflexivity.
  - vm_compute. reflexivity.
Defined.

Lemma av_json_round_trip_witness :
  exists j, av_to_json (PDict [("M", PDict cursor_witness_key)]) = Some j /\
  json_val j /\ exists w, av_from_json j = Some w /\ py_eq w (PDict [("M", PDict cursor_witness_key)]).
Proof.
  eexists. split; [vm_compute; reflexivity|].
  apply av_json_round_trip.
  - simpl. repeat split; repeat constructor; simpl; intuition discriminate.
  - vm_compute. reflexivity.
Defined.

Lemma marshal_go_list (l : list pyval) :
  (fix go (l : list pyval) : result (list pyval) :=
     match l with
     | [] => Ok []
     | x :: r => y <- marshal x ;; r' <- go r ;; Ok (y :: r')
     end) l = map_result marshal l.
Proof. induction l as [|x r IH]; [reflexivity|]. rewrite map_result_cons, <- IH. reflexivity. Qed.

Lemma marshal_go_dict (d : dict pyval) :
  (fix go (d : dict pyval) : dict (result pyval) :=
     match d with
     | [] => []
     | (k, x) :: r => (k, marshal x) :: go r
     end) d = map (fun kv => (fst kv, marshal (snd kv))) d.
Proof. induction d as [|[k x] r IH]; [reflexivity|]. cbn [map fst snd]. rewrite <- IH. reflexivity. Qed.

Lemma unmarshal_go_list (n : nat) (l : list pyval) :
  (fix go (l : list pyval) : result (list pyval) :=
     match l with
     | [] => Ok []
     | x :: r => y <- unmarshal n x ;; r' <- go r ;; Ok (y :: r')
     end) l = map_result (unmarshal n) l.
Proof. induction l as [|x r IH]; [reflexivity|]. rewrite map_result_cons, <- IH. reflexivity. Qed.

Lemma unmarshal_go_dict (n : nat) (d : dict pyval) :
  (fix go (d : dict pyval) : dict (result pyval) :=
     match d with
     | [] => []
     | (k, x) :: r => (k, unmarshal n x) :: go r
     end) d = map (fun kv => (fst kv, unmarshal n (snd kv))) d.
Proof. induction d as [|[k x] r IH]; [reflexivity|]. cbn [map fst snd]. rewrite <- IH. reflexivity. Qed.

Lemma unmarshal_L (n : nat) (l : list pyval) :
  unmarshal (S n) (PDict [("t", PStr "L"); ("l", PList l)]) =
  (l' <- map_result (unmarshal n) l ;; Ok (PDict [("L", PList l')])).
Proof. cbn -[map_result]. rewrite unmarshal_go_list. reflexivity. Qed.

Lemma unmarshal_M (n : nat) (d : dict pyval) :
  unmarshal (S n) (PDict [("t", PStr "M"); ("m", PDict d)]) =
  (d' <- sequence_items (map (fun kv => (fst kv, unmarshal n (snd kv))) d) ;; Ok (PDict [("M", PDict d')])).
Proof. cbn -[sequence_items]. rewrite unmarshal_go_dict. reflexivity. Qed.

Lemma sort_items_map_val {A B} (f : A -> B) (d : dict A) :
  sort_items (map (fun kv => (fst kv, f (snd kv))) d) = map (fun kv => (fst kv, f (snd kv))) (sort_items d).
Proof.
  assert (Hi : forall x l, insert_item (fst x, f (snd x)) (map (fun kv => (fst kv, f (snd kv))) l)
                           = map (fun kv => (fst kv, f (snd kv))) (insert_item x l)).
  { intros x l. induction l as [|y r IH]; simpl; [reflexivity|].
    destruct (String.leb (fst x) (fst y)); simpl; [reflexivity|]. rewrite IH. reflexivity. }
  induction d as [|x r IH]; simpl; [reflexivity|]. rewrite IH. apply Hi.
Qed.

Lemma map_result_exists {A B} (f : A -> result B) (Q : A -> B -> Prop) (l : list A) :
  Forall (fun x => exists y, f x = Ok y /\ Q x y) l ->
  exists l', map_result f l = Ok l' /\ Forall2 Q l l'.
Proof.
  intro H. induction H as [|x r [y [Fx Qx]] _ [r' [Er Hr]]].
  - exists []. split; [reflexivity|constructor].
  - exists (y :: r'). rewrite map_result_cons, Fx, Er. split; [reflexivity|constructor; assumption].
Qed.

Lemma map_result_rel {A B} (f : A -> result B) l l' :
  map_result f l = Ok l' -> Forall2 (fun a b => f a = Ok b) l l'.
Proof.
  revert l'. induction l as [|x r IH]; intros l' H.
  - injection H as <-. constructor.
  - rewrite map_result_cons in H. destruct (f x) as [y|e] eqn:Fx; cbn [bind] in H; [|discriminate].
    destruct (map_result f r) as [r'|e]; cbn [bind] in H; [|discriminate].
    injection H as <-. constructor; [exact Fx|apply IH; reflexivity].
Qed.

Lemma sequence_items_rel {A B} (f : A -> result B) (d : dict A) d' :
  sequence_items (map (fun kv => (fst kv, f (snd kv))) d) = Ok d' ->
  Forall2 (key_rel (fun a b => f a = Ok b)) (sort_items d) d'.
Proof.
  unfold sequence_items. rewrite sort_items_map_val. intro H. apply map_result_rel in H.
  remember (sort_items d) as s eqn:Es. clear Es. revert d' H.
  induction s as [|[k x] r IH]; intros d' H; inversion H as [|? [k' y] ? r' Hxy Hr]; subst; constructor.
  - cbn [fst snd] in Hxy. destruct (f x) as [z|e] eqn:Fx; cbn [bind] in Hxy; [|discriminate].
    injection Hxy as <- <-. split; [reflexivity|exact Fx].
  - apply IH. exact Hr.
Qed.

Lemma sequence_items_exists {A B} (f : A -> result B) (Q : A -> B -> Prop) (d : dict A) :
  Forall (fun kv => exists y, f (snd kv) = Ok y /\ Q (snd kv) y) d ->
  exists d', sequence_items (map (fun kv => (fst kv, f (snd kv))) d) = Ok d' /\
             Forall2 (key_rel Q) (sort_items d) d'.
Proof.
  intros H. unfold sequence_items. rewrite sort_items_map_val.
  assert (Hs : Forall (fun kv => exists y, f (snd kv) = Ok y /\ Q (snd kv) y) (sort_items d)).
  { eapply Permutation_Forall; [symmetry; apply sort_items_perm|exact H]. }
  remember (sort_items d) as s eqn:Es. clear Es H.
  induction Hs as [|[k x] r [y [Fx Qx]] _ [r' [Er Hr]]].
  - exists []. split; [reflexivity|constructor].
  - cbn [fst snd] in Fx, Qx. exists ((k, y) :: r'). cbn [map]. rewrite map_result_cons. cbn [fst snd]. rewrite Fx, Er.
    split; [reflexivity|]. constructor; [split; [reflexivity|exact Qx]|exact Hr].
Qed.

Lemma pv_size_pos (v : pyval) : 1 <= pv_size v.
Proof. destruct v; simpl; lia. Qed.

Lemma mar_atom (av m : pyval) : json_val m ->
  (forall k, exists w, unmarshal (S k) m = Ok w /\ canon w = canon av) -> mar_ok av m.
Proof.
  intros J H. split; [exact J|]. intros [|k] Hk; [pose proof (pv_size_pos m); lia|]. apply H.
Qed.

Lemma json_pair (a b : string) (x y : pyval) : a <> b -> json_val x -> json_val y ->
  json_val (PDict [(a, x); (b, y)]).
Proof.
  intros Hab Hx Hy. constructor.
  - constructor; [simpl; intuition congruence|]. constructor; [intros []|constructor].
  - repeat constructor; assumption.
Qed.

Lemma round_list (f : pyval -> result pyval) l l' :
  Forall2 (fun a b => exists w, f b = Ok w /\ canon w = canon a) l l' ->
  exists l'', map_result f l' = Ok l'' /\ map canon l'' = map canon l.
Proof.
  intro H. induction H as [|a b l l' [w [Fw Cw]] _ [l'' [E1 E2]]].
  - exists []. split; reflexivity.
  - exists (w :: l''). rewrite map_result_cons, Fw, E1. split; [reflexivity|]. simpl. congruence.
Qed.

Lemma round_dict (f : pyval -> result pyval) d d' :
  Forall2 (key_rel (fun a b => exists w, f b = Ok w /\ canon w = canon a)) d d' ->
  exists d'', map_result (fun '(k, r) => x <- r ;; Ok (k, x)) (map (fun kv => (fst kv, f (snd kv))) d') = Ok d''
              /\ map canon_item d'' = map canon_item d.
Proof.
  intro H. induction H as [|[k a] [k' b] d d' [Ek [w [Fw Cw]]] _ [d'' [E1 E2]]].
  - exists []. split; reflexivity.
  - cbn [fst snd] in *. subst k'. exists ((k, w) :: d''). cbn [map]. rewrite map_result_cons.
    cbn [fst snd]. rewrite Fw. cbn [bind]. rewrite E1. split; [reflexivity|].
    cbn [map]. rewrite E2. unfold canon_item at 1 3. cbn [fst snd]. rewrite Cw. reflexivity.
Qed.

Lemma Forall2_in_impl_r {A B} (R R' : A -> B -> Prop) l l' :
  Forall2 R l l' -> (forall a b, In b l' -> R a b -> R' a b) -> Forall2 R' l l'.
Proof.
  intros H HI. induction H as [|a b l l' Hab _ IH]; constructor.
  - apply HI; [left; reflexivity | exact Hab].
  - apply IH. intros x y Iy. apply HI. right. exact Iy.
Qed.

Lemma Forall2_key_in_impl_r {A B} (R R' : A -> B -> Prop) (d : dict A) (d' : dict B) :
  Forall2 (key_rel R) d d' -> (forall k a b, In (k, b) d' -> R a b -> R' a b) ->
  Forall2 (key_rel R') d d'.
Proof.
  intros H HI. induction H as [|a [k b] d d' [Ek Hab] _ IH]; constructor.
  - split; [exact Ek|]. apply (HI k); [left; reflexivity | exact Hab].
  - apply IH. intros k' x y Iy. apply (HI k'). right. exact Iy.
Qed.

Lemma mar_ok_unmarshal_list (k : nat) (l l' : list pyval) :
  Forall2 mar_ok l l' -> (forall b, In b l' -> pv_size b <= k) ->
  Forall2 (fun a b => exists w, unmarshal k b = Ok w /\ canon w = canon a) l l'.
Proof.
  intros HF HS. apply (Forall2_in_impl_r _ _ _ _ HF). intros a b Ib [_ Hb]. apply Hb, HS, Ib.
Qed.

Lemma Forall2_json (l l' : list pyval) : Forall2 mar_ok l l' -> Forall json_val l'.
Proof. intro H. induction H as [|a b l l' [Jb _] _ IHF]; constructor; assumption. Qed.

Lemma Forall2_key_json (d d' : dict pyval) : Forall2 (key_rel mar_ok) d d' ->
  Forall (fun kv => json_val (snd kv)) d' /\ map fst d' = map fst d.
Proof.
  intro H. induction H as [|[k a] [k' b] d d' [Ek [Jb _]] _ [IJ IK]]; [split; [constructor|reflexivity]|].
  cbn [fst snd] in *. split; [constructor; assumption|]. simpl. congruence.
Qed.

Lemma marshal_round_aux (n : nat) : forall av m, pv_size av <= n -> dicts_nodup av ->
  marshal av = Ok m -> mar_ok av m.
Proof.
  induction n as [|n IH]; intros av m Hs Hn Hm; [pose proof (pv_size_pos av); lia|].
  destruct av as [| | | | | | | | |d]; try discriminate.
  destruct d as [|[kind value] [|? ?]]; try discriminate.
  cbn [marshal] in Hm.
  destruct (kind =? "S")%string eqn:ES.
  { apply String.eqb_eq in ES. subst kind. destruct value; try discriminate. injection Hm as <-.
    apply mar_atom; [apply json_pair; [discriminate|constructor|constructor]|].
    intros k. eexists. split; reflexivity. }
  destruct (kind =? "N")%string eqn:EN.
  { apply String.eqb_eq in EN. subst kind. destruct value; try discriminate. injection Hm as <-.
    apply mar_atom; [apply json_pair; [discriminate|constructor|constructor]|].
    intros k. eexists. split; reflexivity. }
  destruct (kind =? "B")%string eqn:EB.
  { apply String.eqb_eq in EB. subst kind. destruct value; try discriminate. injection Hm as <-.
    apply mar_atom; [apply json_pair; [discriminate|constructor|constructor]|].
    intros k. eexists. split; [|reflexivity]. cbn -[b64decode b64encode]. rewrite b64_round. reflexivity. }
  destruct (kind =? "BOOL")%string eqn:EBo.
  { apply String.eqb_eq in EBo. subst kind. destruct value; try discriminate. injection Hm as <-.
    apply mar_atom; [apply json_pair; [discriminate|constructor|constructor]|].
    intros k. eexists. split; reflexivity. }
  destruct (kind =? "NULL")%string eqn:ENu.
  { apply String.eqb_eq in ENu. subst kind. destruct value as [|[|]| | | | | | | |]; try discriminate.
    injection Hm as <-.
    apply mar_atom; [apply json_pair; [discriminate|constructor|constructor]|].
    intros k. eexists. split; reflexivity. }
  destruct (kind =? "SS")%string eqn:ESS.
  { apply String.eqb_eq in ESS. subst kind. destruct value; try discriminate.
    destruct (forallb is_pstr l) eqn:F; [|discriminate]. injection Hm as <-.
    apply mar_atom; [apply json_pair; [discriminate|constructor|constructor; apply pstrs_json; exact F]|].
    intros k. eexists. split; [|reflexivity]. cbn -[forallb]. rewrite F. reflexivity. }
  destruct (kind =? "NS")%string eqn:ENS.
  { apply String.eqb_eq in ENS. subst kind. destruct value; try discriminate.
    destruct (forallb is_pstr l) eqn:F; [|discriminate]. injection Hm as <-.
    apply mar_atom; [apply json_pair; [discriminate|constructor|constructor; apply pstrs_json; exact F]|].
    intros k. eexists. split; [|reflexivity]. cbn -[forallb]. rewrite F. reflexivity. }
  destruct (kind =? "BS")%string eqn:EBS.
  { apply String.eqb_eq in EBS. subst kind. destruct value; try discriminate.
    destruct (forallb is_pbytes l) eqn:F; [|discriminate]. injection Hm as <-.
    fold bs_enc. destruct (bs_round l F) as [B1 B2].
    apply mar_atom; [apply json_pair; [discriminate|constructor|constructor; apply pstrs_json; exact B1]|].
    intros k. eexists. split; [|reflexivity]. cbn -[forallb map_opt map b64decode b64encode].
    fold bs_enc. rewrite B1.
    change (map_opt _ (map bs_enc l)) with (map_opt bs_dec (map bs_enc l)). rewrite B2. reflexivity. }
  pose proof (dicts_nodup_dict _ Hn) as [_ Hn1]. inversion Hn1 as [|? ? Hnv _]; subst. cbn [snd] in Hnv.
  assert (Hsv : pv_size value < S n).
  { pose proof (pv_size_dict [(kind, value)] kind value (or_introl eq_refl)). lia. }
  destruct (kind =? "L")%string eqn:EL.
  { apply String.eqb_eq in EL. subst kind. destruct value as [| | | | | | |l| |]; try discriminate.
    rewrite marshal_go_list in Hm. destruct (map_result marshal l) as [l'|e] eqn:Hl; cbn [bind] in Hm;
      [|discriminate].
    injection Hm as <-. apply map_result_rel in Hl.
    assert (HF : Forall2 mar_ok l l').
    { apply (Forall2_in_impl _ _ _ _ Hl). intros a b Ia Hab. apply IH; [| |exact Hab].
      - pose proof (pv_size_list l a Ia). lia.
      - apply dicts_nodup_list in Hnv. rewrite Forall_forall in Hnv. apply Hnv, Ia. }
    split.
    - apply json_pair; [discriminate|constructor|]. constructor. apply (Forall2_json l). exact HF.
    - intros [|k] Hk; [pose proof (pv_size_pos (PList l')); cbn [pv_size] in Hk; lia|].
      rewrite unmarshal_L.
      assert (HS : forall b, In b l' -> pv_size b <= k).
      { intros b Ib. pose proof (pv_size_list l' b Ib).
        change (pv_size (PDict [("t", PStr "L"); ("l", PList l')])) with (S (1 + (pv_size (PList l') + 0))) in Hk.
        lia. }
      destruct (round_list (unmarshal k) l l') as [l'' [E1 E2]].
      { apply mar_ok_unmarshal_list; assumption. }
      rewrite E1. eexists. split; [reflexivity|]. rewrite !canon_single. cbn [canon]. rewrite E2. reflexivity. }
  destruct (kind =? "M")%string eqn:EM; [|discriminate].
  apply String.eqb_eq in EM. subst kind.
  destruct value as [| | | | | | | | |d]; try discriminate.
  rewrite marshal_go_dict in Hm.
  destruct (sequence_items (map (fun kv => (fst kv, marshal (snd kv))) d)) as [d'|e] eqn:Hd; cbn [bind] in Hm;
    [|discriminate].
  injection Hm as <-. apply sequence_items_rel in Hd.
  pose proof (dicts_nodup_dict _ Hnv) as [Hk Hnd].
  assert (HF : Forall2 (key_rel mar_ok) (sort_items d) d').
  { apply (Forall2_key_in_impl _ _ _ _ Hd). intros k a b Ia Hab.
    assert (Ia' : In (k, a) d) by (eapply Permutation_in; [apply sort_items_perm|exact Ia]).
    apply IH; [| |exact Hab].
    - pose proof (pv_size_dict d k a Ia'). lia.
    - rewrite Forall_forall in Hnd. apply (Hnd (k, a)), Ia'. }
  destruct (Forall2_key_json _ _ HF) as [J K].
  split.
  - apply json_pair; [discriminate|constructor|]. constructor; [|exact J]. unfold dict_keys. rewrite K.
    apply (Permutation_NoDup (l := map fst d)); [|exact Hk].
    apply Permutation_map. symmetry. apply sort_items_perm.
  - intros [|k] Hk'; [pose proof (pv_size_pos (PDict d')); cbn [pv_size] in Hk'; lia|].
    rewrite unmarshal_M. unfold sequence_items. rewrite sort_items_map_val.
    assert (HS : forall kk b, In (kk, b) d' -> pv_size b <= k).
    { intros kk b Ib. pose proof (pv_size_dict d' kk b Ib).
      change (pv_size (PDict [("t", PStr "M"); ("m", PDict d')])) with (S (1 + (pv_size (PDict d') + 0))) in Hk'.
      lia. }
    pose proof (sort_items_rel _ _ _ HF) as HF2. rewrite sort_items_idem in HF2.
    destruct (round_dict (unmarshal k) (sort_items d) (sort_items d')) as [d'' [E1 E2]].
    { apply (Forall2_key_in_impl_r mar_ok _ _ _ HF2). intros kk a b Ib [_ Hb]. apply Hb.
      apply (HS kk). eapply Permutation_in; [apply sort_items_perm|exact Ib]. }
    rewrite E1. eexists. split; [reflexivity|]. rewrite !canon_single. f_equal. f_equal.
    rewrite !canon_dict. rewrite E2, <- sort_items_map_canon, sort_items_idem. reflexivity.
Qed.

Lemma pv_size_list_sum (l : list pyval) : pv_size (PList l) = S (list_sum (map pv_size l)).
Proof. induction l as [|x r IH]; [reflexivity|]. unfold list_sum in *. cbn [pv_size map fold_right] in *. lia. Qed.

Lemma pv_size_dict_sum (d : dict pyval) :
  pv_size (PDict d) = S (list_sum (map (fun kv => pv_size (snd kv)) d)).
Proof. induction d as [|[k x] r IH]; [reflexivity|]. unfold list_sum in *. cbn [pv_size map fold_right snd] in *. lia. Qed.

Lemma concat_length_ge (sep : string) (parts : list string) :
  list_sum (map String.length parts) + (length parts - 1) * String.length sep
  = String.length (String.concat sep parts).
Proof.
  induction parts as [|p r IH]; [reflexivity|].
  destruct r as [|q r]; [cbn [map list_sum fold_right String.concat length]; lia|].
  change (String.concat sep (p :: q :: r)) with (p ++ sep ++ String.concat sep (q :: r))%string.
  rewrite !str_length_app, <- IH. unfold list_sum in *. cbn [map fold_right length] in *. lia.
Qed.

Lemma sum_le_Forall2 {A} (f : A -> nat) (l : list A) (parts : list string) :
  Forall2 (fun x p => f x <= String.length p) l parts ->
  list_sum (map f l) <= list_sum (map String.length parts).
Proof. intro H. unfold list_sum. induction H; cbn [map fold_right]; lia. Qed.

Lemma dumps_size_aux (n : nat) : forall v, pv_size v <= n -> json_val v ->
  exists t, dumps v = Some t /\ pv_size v <= String.length t.
Proof.
  induction n as [|n IH]; intros v Hs J; [pose proof (pv_size_pos v); lia|].
  destruct J as [| b | s | l Jl | d Hk Jd].
  - eexists. split; [reflexivity|]. simpl. lia.
  - destruct b; eexists; (split; [reflexivity|]); simpl; lia.
  - eexists. split; [reflexivity|]. pose proof (dumps_str_length s). simpl. lia.
  - destruct (map_opt_exists dumps (fun x p => pv_size x <= String.length p) l) as [parts [E F]].
    { rewrite Forall_forall in Jl |- *. intros x Ix. apply IH; [|apply Jl, Ix].
      pose proof (pv_size_list l x Ix). lia. }
    rewrite dumps_list, E. cbn [option_map]. eexists. split; [reflexivity|].
    rewrite pv_size_list_sum, !str_length_app, <- concat_length_ge.
    pose proof (sum_le_Forall2 pv_size l parts F). cbn [String.length]. lia.
  - destruct (map_opt_exists dump_member (fun kv p => pv_size (snd kv) <= String.length p) d) as [parts [E F]].
    { rewrite Forall_forall in Jd |- *. intros [k x] Ix.
      destruct (IH x) as [a [Ea Sa]]; [pose proof (pv_size_dict d k x Ix); lia|apply (Jd (k, x)), Ix|].
      unfold dump_member. cbn [fst snd]. rewrite Ea. eexists. split; [reflexivity|].
      rewrite !str_length_app. cbn [String.length]. lia. }
    rewrite dumps_dict, E. cbn [option_map]. eexists. split; [reflexivity|].
    rewrite pv_size_dict_sum, !str_length_app, <- concat_length_ge.
    pose proof (sum_le_Forall2 (fun kv => pv_size (snd kv)) d parts F). cbn [String.length]. lia.
Qed.

Lemma dumps_size (v : pyval) : json_val v -> exists t, dumps v = Some t /\ pv_size v <= String.length t.
Proof. apply (dumps_size_aux (pv_size v)). lia. Qed.

Lemma dumps_some_size (v : pyval) (t : string) : json_val v -> dumps v = Some t -> pv_size v <= String.length t.
Proof. intros J E. destruct (dumps_size v J) as [t' [E' S]]. congruence. Qed.

Lemma marshal_round (av m : pyval) :
  dicts_nodup av -> marshal av = Ok m ->
  exists t, dumps m = Some t /\ json_loads t = Some m /\
            exists w, unmarshal (String.length t) m = Ok w /\ py_eq w av.
Proof.
  intros Hn Hm. destruct (marshal_round_aux (pv_size av) av m (le_n _) Hn Hm) as [J U].
  destruct (dumps_size m J) as [t [E S]]. exists t. split; [exact E|]. split.
  - apply json_loads_dumps; assumption.
  - apply U. exact S.
Qed.

(** Extra X3 ([marshal_attribute_value_json],
    [unmarshal_attribute_value_json]).  When marshalling accepts an
    attribute value whose maps have distinct keys, the result is dumped to
    JSON text, loads back to itself, and unmarshals (within the depth the
    text allows) to the original value up to the order of map entries. *)
Theorem marshal_round_trip (av m : pyval) :
  dicts_nodup av -> marshal av = Ok m ->
  exists t, dumps m = Some t /\ json_loads t = Some m /\
            exists w, unmarshal (String.length t) m = Ok w /\ py_eq w av.
Proof. apply marshal_round. Qed.

Lemma toy_aesgcm_correct (k n p ad ct : string) :
  toy_aesgcm_encrypt k n p ad = Some ct -> toy_aesgcm_decrypt k n ct ad = Some p.
Proof.
  unfold toy_aesgcm_encrypt, toy_aesgcm_decrypt. intro H. injection H as <-.
  rewrite toy_unframe_frame, String.eqb_refl. reflexivity.
Qed.

(** Extra X4 ([encrypt_attribute_value], [decrypt_attribute_value]).
    With an AEAD whose decryption inverts its encryption and a key service
    that returns the data key it generated, decrypting the envelope
    [encrypt_attribute_value] produced, under the same attribute name and
    key ARN, returns the original attribute value (up to the order of map
    entries). *)
Theorem encryption_round_trip
  (kgen : string -> kms_generate_reply) (kdec : string -> string -> kms_decrypt_reply)
  (rb : nat -> string) (enc dec : string -> string -> string -> string -> option string)
  (Haead : forall k n p ad ct, enc k n p ad = Some ct -> dec k n ct ad = Some p)
  (Hkms : forall arn dek edk, kgen arn = KmsDataKey (PBytes dek) (PBytes edk) ->
                              kdec edk arn = KmsPlaintext (PBytes dek))
  (av : pyval) (name arn : string) (env : dict pyval)
  (Hn : dicts_nodup av)
  (Henc : encrypt_attribute_value kgen rb enc av name arn = Ok env) :
  exists w, decrypt_attribute_value kdec dec env name arn = Ok w /\ py_eq w av.
Proof.
  unfold encrypt_attribute_value in Henc.
  destruct (kgen arn) as [pt blob|err] eqn:Hg; [|discriminate].
  destruct pt as [| | | | |dek| | | |]; try discriminate; destruct blob as [| | | | |edk| | | |]; try discriminate.
  destruct (marshal av) as [m|e] eqn:Hm; cbn [bind] in Henc; [|discriminate].
  destruct (dumps m) as [plaintext|] eqn:Hd; cbn [bind of_option] in Henc; [|discriminate].
  destruct (enc dek (rb 12) plaintext (aad name)) as [ct|] eqn:He; cbn [bind of_option] in Henc;
    [|discriminate].
  injection Henc as <-.
  destruct (marshal_round av m Hn Hm) as [t [Ht [Hl [w [Hu Hw]]]]].
  rewrite Hd in Ht. injection Ht as <-.
  exists w. split; [|exact Hw].
  unfold decrypt_attribute_value. cbn -[aad json_loads unmarshal].
  rewrite (Hkms arn dek edk Hg), (Haead _ _ _ _ _ He), Hl. exact Hu.
Qed.

Lemma encryption_round_trip_witness :
  exists env, encrypt_attribute_value toy_kms_generate toy_rand_bytes toy_aesgcm_encrypt
                (PDict [("M", PDict cursor_witness_key)]) "secret" "arn" = Ok env /\
  exists w, decrypt_attribute_value toy_kms_decrypt toy_aesgcm_decrypt env "secret" "arn" = Ok w /\
            py_eq w (PDict [("M", PDict cursor_witness_key)]).
Proof.
  eexists. split; [vm_compute; reflexivity|].
  apply (encryption_round_trip toy_kms_generate toy_kms_decrypt toy_rand_bytes
           toy_aesgcm_encrypt toy_aesgcm_decrypt toy_aesgcm_correct toy_kms_consistent).
  - simpl. repeat split; repeat constructor; simpl; intuition discriminate.
  - vm_compute. reflexivity.
Defined.

Lemma marshal_round_trip_witness :
  exists m, marshal (PDict [("M", PDict cursor_witness_key)]) = Ok m /\
  exists t, dumps m = Some t /\ json_loads t = Some m /\
            exists w, unmarshal (String.length t) m = Ok w /\ py_eq w (PDict [("M", PDict cursor_witness_key)]).
Proof.
  eexists. split; [vm_compute; reflexivity|].
  apply marshal_round_trip.
  - simpl. repeat split; repeat constructor; simpl; intuition discriminate.
  - vm_compute. reflexivity.
Defined.

Lemma retry_loop_spec {T F} f_pos f_mul f_min (fetch : nat -> result (Page T)) roe roerr verify md fa mr :
  forall fuel attempt delay last sleeps r calls sl,
  fuel + attempt = S mr ->
  retry_inv fetch mr attempt last ->
  @retry_loop T F f_pos f_mul f_min fetch roe roerr verify md fa mr fuel attempt delay last sleeps = (r, calls, sl) ->
  (0 < fuel -> attempt < calls) /\ attempt <= calls <= S mr /\ r = fetch (pred calls) /\
  (forall i, attempt <= i < pred calls -> retries_after roe roerr verify (fetch i) = true) /\
  (calls <= mr -> retries_after roe roerr verify (fetch (pred calls)) = false).
Proof.
  induction fuel as [|fuel IH]; intros attempt delay last sleeps r calls sl Hf Hi Hr.
  - cbn [retry_loop] in Hr.
    destruct Hi as [[-> ->]|[Hpos [[p [-> Hp]]|[e [He Hlt]]]]]; [lia| |lia].
    injection Hr as <- <- <-. split; [lia|]. split; [lia|]. split; [symmetry; exact Hp|].
    split; [intros; lia|]. intros; lia.
  - cbn [retry_loop] in Hr.
    assert (Hnext : forall last' delay' sleeps',
              retry_inv fetch mr (S attempt) last' ->
              retry_loop f_pos f_mul f_min fetch roe roerr verify md fa mr fuel (S attempt) delay' last' sleeps'
                = (r, calls, sl) ->
              retries_after roe roerr verify (fetch attempt) = true ->
              (0 < S fuel -> attempt < calls) /\ attempt <= calls <= S mr /\ r = fetch (pred calls) /\
              (forall i, attempt <= i < pred calls -> retries_after roe roerr verify (fetch i) = true) /\
              (calls <= mr -> retries_after roe roerr verify (fetch (pred calls)) = false)).
    { intros last' delay' sleeps' Hi' Hr' Ha.
      destruct (IH (S attempt) delay' last' sleeps' r calls sl ltac:(lia) Hi' Hr') as (C1 & C2 & C3 & C4 & C5).
      split; [intros _; lia|]. split; [lia|]. split; [exact C3|]. split; [|exact C5].
      intros i Hi2. destruct (Nat.eq_dec i attempt) as [->|Hne]; [exact Ha|]. apply C4. lia. }
    destruct (fetch attempt) as [page|e] eqn:Hfe.
    + destruct (accepts roe verify page) eqn:Hacc.
      * injection Hr as <- <- <-. cbn [pred]. split; [lia|]. split; [lia|]. split; [symmetry; exact Hfe|].
        split; [intros; lia|]. intros _. rewrite Hfe. cbn [retries_after]. rewrite Hacc. reflexivity.
      * assert (Hi' : retry_inv fetch mr (S attempt) (Some page)).
        { right. split; [lia|]. left. exists page. split; [reflexivity|exact Hfe]. }
        assert (Ha : retries_after roe roerr verify (fetch attempt) = true).
        { rewrite Hfe. cbn [retries_after]. rewrite Hacc. reflexivity. }
        destruct (attempt <? mr); (eapply Hnext; [exact Hi'|exact Hr|]); first [exact Ha | rewrite <- Hfe; exact Ha].
    + destruct (negb roerr || (attempt =? mr)) eqn:Hstop.
      * injection Hr as <- <- <-. cbn [pred]. split; [lia|]. split; [lia|]. split; [symmetry; exact Hfe|].
        split; [intros; lia|]. intros Hle. rewrite Hfe. cbn [retries_after].
        apply orb_true_iff in Hstop as [H|H]; [apply negb_true_iff in H; exact H|].
        apply Nat.eqb_eq in H. lia.
      * apply orb_false_iff in Hstop as [H1 H2]. apply negb_false_iff in H1. apply Nat.eqb_neq in H2.
        assert (Hi' : retry_inv fetch mr (S attempt) last).
        { right. split; [lia|]. right. exists e. split; [exact Hfe|lia]. }
        assert (Ha : retries_after roe roerr verify (fetch attempt) = true) by (rewrite Hfe; exact H1).
        destruct (attempt <? mr); (eapply Hnext; [exact Hi'|exact Hr|]); first [exact Ha | rewrite <- Hfe; exact Ha].
Qed.

(** Extra X7 ([Table.query_with_retry], [Table.scan_with_retry]).  With
    [max_retries >= 0], the loop calls the query at least once and at most
    [max_retries + 1] times, returns (or raises) the outcome of its last
    call, retried only after outcomes that call for a retry, and stops
    before the limit only at an outcome that does not. *)
Theorem retry_returns_last_outcome :
  forall (T F : Type) f_pos f_mul f_min (fetch : nat -> result (Page T)) (max_retries : Z)
         (initial max_delay factor : F) roe roerr verify r calls sl,
  (0 <= max_retries)%Z ->
  @query_with_retry T F f_pos f_mul f_min fetch max_retries initial max_delay factor roe roerr verify = (r, calls, sl)
  \/ @scan_with_retry T F f_pos f_mul f_min fetch max_retries initial max_delay factor roe roerr verify = (r, calls, sl) ->
  1 <= calls <= Z.to_nat max_retries + 1 /\ r = fetch (calls - 1) /\
  (forall i, i < calls - 1 -> retries_after roe roerr verify (fetch i) = true) /\
  (calls <= Z.to_nat max_retries -> retries_after roe roerr verify (fetch (calls - 1)) = false).
Proof.
  intros T F f_pos f_mul f_min fetch max_retries initial max_delay factor roe roerr verify r calls sl Hm Hr.
  assert (Hl : retry_loop f_pos f_mul f_min fetch roe roerr verify max_delay factor (Z.to_nat max_retries)
                 (S (Z.to_nat max_retries)) 0 initial None [] = (r, calls, sl)).
  { unfold query_with_retry, scan_with_retry in Hr.
    replace (max_retries <? 0)%Z with false in Hr by (symmetry; apply Z.ltb_ge; lia).
    destruct Hr as [Hr|Hr]; exact Hr. }
  destruct (retry_loop_spec f_pos f_mul f_min fetch roe roerr verify max_delay factor (Z.to_nat max_retries)
              (S (Z.to_nat max_retries)) 0 initial None [] r calls sl ltac:(lia) (or_introl (conj eq_refl eq_refl)) Hl) as (C1 & C2 & C3 & C4 & C5).
  rewrite <- Nat.sub_1_r in C3, C4, C5.
  split; [lia|]. split; [exact C3|]. split; [|exact C5].
  intros i Hi. apply C4. lia.
Qed.

Lemma retry_returns_last_outcome_witness :
  query_with_retry (fun _ : unit => true) (fun _ _ => tt) (fun _ _ => tt) sample_fetch 5 tt tt tt true true None
    = (Ok (mkPage [7] None), 3, [tt; tt]) /\
  1 <= 3 <= Z.to_nat 5 + 1 /\ Ok (mkPage [7] None) = sample_fetch (3 - 1) /\
  (forall i, i < 3 - 1 -> retries_after true true None (sample_fetch i) = true) /\
  (3 <= Z.to_nat 5 -> retries_after true true None (sample_fetch (3 - 1)) = false).
Proof.
  split; [reflexivity|].
  apply (retry_returns_last_outcome nat unit (fun _ => true) (fun _ _ => tt) (fun _ _ => tt) sample_fetch 5
           tt tt tt true true None (Ok (mkPage [7] None)) 3 [tt; tt]).
  - lia.
  - left. reflexivity.
Defined.

Lemma retry_loop_sleeps {T F} f_pos f_mul f_min (fetch : nat -> result (Page T)) roe roerr verify md fa mr :
  (forall d, f_pos d = true -> f_pos (f_min md (f_mul d fa)) = true) ->
  forall fuel attempt delay last sleeps r calls sl,
  fuel + attempt = S mr -> f_pos delay = true ->
  @retry_loop T F f_pos f_mul f_min fetch roe roerr verify md fa mr fuel attempt delay last sleeps = (r, calls, sl) ->
  (0 < fuel -> attempt < calls) /\ sl = app sleeps (backoff_delays f_mul f_min md fa delay (calls - 1 - attempt)).
Proof.
  intros Hstep. induction fuel as [|fuel IH]; intros attempt delay last sleeps r calls sl Hf Hp Hr.
  - cbn [retry_loop] in Hr. destruct last; injection Hr as <- <- <-; (split; [lia|]);
      replace (attempt - 1 - attempt) with 0 by lia; symmetry; apply app_nil_r.
  - cbn [retry_loop] in Hr.
    assert (Hnext : forall last',
              (if attempt <? mr then
                 retry_loop f_pos f_mul f_min fetch roe roerr verify md fa mr fuel (S attempt)
                   (f_min md (f_mul delay fa)) last' (if f_pos delay then app sleeps [delay] else sleeps)
               else retry_loop f_pos f_mul f_min fetch roe roerr verify md fa mr fuel (S attempt) delay last' sleeps)
              = (r, calls, sl) ->
              (0 < S fuel -> attempt < calls) /\
              sl = app sleeps (backoff_delays f_mul f_min md fa delay (calls - 1 - attempt))).
    { intros last' H. destruct (attempt <? mr) eqn:Hlt.
      - apply Nat.ltb_lt in Hlt. rewrite Hp in H.
        destruct (IH (S attempt) _ _ _ _ _ _ ltac:(lia) (Hstep _ Hp) H) as [C1 C2].
        specialize (C1 ltac:(lia)). split; [intros; lia|]. rewrite C2, <- app_assoc.
        replace (calls - 1 - attempt) with (S (calls - 1 - S attempt)) by lia. reflexivity.
      - apply Nat.ltb_ge in Hlt. destruct (IH (S attempt) _ _ _ _ _ _ ltac:(lia) Hp H) as [_ C2].
        assert (Hf0 : fuel = 0) by lia. subst fuel.
        cbn [retry_loop] in H. destruct last'; injection H as <- <- <-;
          (split; [lia|]); replace (S attempt - 1 - attempt) with 0 by lia; symmetry; apply app_nil_r. }
    destruct (fetch attempt) as [page|e].
    + destruct (accepts roe verify page).
      * injection Hr as <- <- <-. split; [lia|]. replace (S attempt - 1 - attempt) with 0 by lia.
        symmetry; apply app_nil_r.
      * apply Hnext in Hr. exact Hr.
    + destruct (negb roerr || (attempt =? mr)).
      * injection Hr as <- <- <-. split; [lia|]. replace (S attempt - 1 - attempt) with 0 by lia.
        symmetry; apply app_nil_r.
      * apply Hnext in Hr. exact Hr.
Qed.

(** Extra X8 ([Table.query_with_retry], [Table.scan_with_retry]).  With a
    positive initial delay (and a delay update that keeps it positive), the
    loop sleeps exactly once between two consecutive calls, and the delays
    slept are [initial], then each the previous times [backoff_factor]
    capped at [max_delay_seconds]. *)
Theorem retry_sleeps_between_attempts :
  forall (T F : Type) f_pos f_mul f_min (fetch : nat -> result (Page T)) (max_retries : Z)
         (initial max_delay factor : F) roe roerr verify r calls sl,
  (0 <= max_retries)%Z ->
  f_pos initial = true ->
  (forall d, f_pos d = true -> f_pos (f_min max_delay (f_mul d factor)) = true) ->
  @query_with_retry T F f_pos f_mul f_min fetch max_retries initial max_delay factor roe roerr verify = (r, calls, sl)
  \/ @scan_with_retry T F f_pos f_mul f_min fetch max_retries initial max_delay factor roe roerr verify = (r, calls, sl) ->
  sl = backoff_delays f_mul f_min max_delay factor initial (calls - 1).
Proof.
  intros T F f_pos f_mul f_min fetch max_retries initial max_delay factor roe roerr verify r calls sl Hm Hp Hs Hr.
  assert (Hl : retry_loop f_pos f_mul f_min fetch roe roerr verify max_delay factor (Z.to_nat max_retries)
                 (S (Z.to_nat max_retries)) 0 initial None [] = (r, calls, sl)).
  { unfold query_with_retry, scan_with_retry in Hr.
    replace (max_retries <? 0)%Z with false in Hr by (symmetry; apply Z.ltb_ge; lia).
    destruct Hr as [Hr|Hr]; exact Hr. }
  destruct (retry_loop_sleeps f_pos f_mul f_min fetch roe roerr verify max_delay factor (Z.to_nat max_retries) Hs
              (S (Z.to_nat max_retries)) 0 initial None [] r calls sl ltac:(lia) Hp Hl) as [_ C].
  rewrite C, Nat.sub_0_r. reflexivity.
Qed.

Lemma retry_sleeps_between_attempts_witness :
  scan_with_retry (fun d => 0 <? d) Nat.mul nat_min sample_fetch 5 100 250 2 true true None
    = (Ok (mkPage [7] None), 3, [100; 200]) /\
  [100; 200] = backoff_delays Nat.mul nat_min 250 2 100 (3 - 1).
Proof.
  split; [reflexivity|].
  apply (retry_sleeps_between_attempts nat nat (fun d => 0 <? d) Nat.mul nat_min sample_fetch 5 100 250 2
           true true None (Ok (mkPage [7] None))).
  - lia.
  - reflexivity.
  - intros d Hd. apply Nat.ltb_lt in Hd. apply Nat.ltb_lt. unfold nat_min.
    destruct (d * 2 <? 250); lia.
  - right. reflexivity.
Defined.

Lemma b64_char_body (n : nat) : n < 64 -> b64_body_char (b64_char n) = true.
Proof.
  intro H. destruct (b64_char_facts n H) as (_ & E & O). unfold b64_body_char. rewrite E, O. reflexivity.
Qed.

Lemma b2a_pad_shape (k : nat) (s : string) : String.length s <= k ->
  exists U p, b2a_base64 s = (U ++ repeat_char "="%char p)%string /\ p <= 2 /\
              str_all b64_body_char U = true /\ (s <> EmptyString -> U <> EmptyString).
Proof.
  revert s. induction k as [|k IH]; intros s Hs.
  - destruct s; [|simpl in Hs; lia]. exists EmptyString, 0. repeat split; auto.
  - destruct s as [|a [|b [|c r]]].
    + exists EmptyString, 0. repeat split; auto.
    + pose proof (nat_ascii_bounded a) as Ha. cbn [b2a_base64].
      remember (nat_of_ascii a) as x eqn:Ex.
      exists (String (b64_char (x / 4)) (String (b64_char (x mod 4 * 16)) EmptyString)), 2.
      split; [reflexivity|]. split; [lia|]. split; [|discriminate].
      cbn [str_all]. rewrite !b64_char_body by lia. reflexivity.
    + pose proof (nat_ascii_bounded a) as Ha. pose proof (nat_ascii_bounded b) as Hb. cbn [b2a_base64].
      remember (nat_of_ascii a) as x eqn:Ex. remember (nat_of_ascii b) as y eqn:Ey.
      exists (String (b64_char (x / 4)) (String (b64_char (x mod 4 * 16 + y / 16))
                (String (b64_char (y mod 16 * 4)) EmptyString))), 1.
      split; [reflexivity|]. split; [lia|]. split; [|discriminate].
      cbn [str_all]. rewrite !b64_char_body by lia. reflexivity.
    + pose proof (nat_ascii_bounded a) as Ha. pose proof (nat_ascii_bounded b) as Hb.
      pose proof (nat_ascii_bounded c) as Hc. cbn [b2a_base64].
      remember (nat_of_ascii a) as x eqn:Ex. remember (nat_of_ascii b) as y eqn:Ey.
      remember (nat_of_ascii c) as z eqn:Ez.
      destruct (IH r) as [U [p [E [Hp [HU _]]]]]; [simpl in Hs; lia|].
      rewrite E.
      exists (String (b64_char (x / 4)) (String (b64_char (x mod 4 * 16 + y / 16))
                (String (b64_char (y mod 16 * 4 + z / 64)) (String (b64_char (z mod 64)) U)))), p.
      split; [reflexivity|]. split; [exact Hp|]. split; [|discriminate].
      cbn [str_all]. rewrite !b64_char_body by lia. rewrite HU. reflexivity.
Qed.

Lemma map_string_app (f : ascii -> ascii) (a b : string) :
  map_string f (a ++ b) = (map_string f a ++ map_string f b)%string.
Proof. induction a as [|c r IH]; simpl; [reflexivity|]. rewrite IH. reflexivity. Qed.

Lemma map_string_pad (p : nat) : map_string url_swap (repeat_char "="%char p) = repeat_char "="%char p.
Proof. induction p as [|p IH]; simpl; [reflexivity|]. rewrite IH. reflexivity. Qed.

Lemma url_map_body (t : string) : str_all b64_body_char t = true ->
  str_all url_body_char (map_string url_swap t) = true.
Proof.
  induction t as [|c r IH]; [reflexivity|].
  cbn [str_all map_string]. intro H. apply andb_prop in H as [Hc Hr].
  rewrite IH by exact Hr. rewrite andb_true_r.
  unfold url_swap, swap_char.
  destruct (Ascii.eqb_spec c "+"%char) as [->|N3]; [reflexivity|].
  destruct (Ascii.eqb_spec c "/"%char) as [->|N4]; [reflexivity|].
  unfold b64_body_char, b64_out_char in Hc. unfold url_body_char, url_out_char.
  apply andb_prop in Hc as [Hc H5]. apply andb_prop in Hc as [Hc H4].
  apply andb_prop in Hc as [Hc _]. apply andb_prop in Hc as [Hc _].
  rewrite Hc, H4, H5. reflexivity.
Qed.

Lemma urlsafe_pad_shape (s : string) : s <> EmptyString ->
  exists U p, urlsafe_b64encode s = (U ++ repeat_char "="%char p)%string /\ p <= 2 /\
              str_all url_body_char U = true /\ U <> EmptyString.
Proof.
  intro Hs. destruct (b2a_pad_shape (String.length s) s (le_n _)) as [U [p [E [Hp [HU Hne]]]]].
  exists (map_string url_swap U), p.
  replace (urlsafe_b64encode s) with (map_string url_swap (b2a_base64 s)) by reflexivity.
  rewrite E, map_string_app, map_string_pad. split; [reflexivity|]. split; [exact Hp|].
  split; [apply url_map_body; exact HU|]. destruct U; [intros _; exact (Hne Hs eq_refl)|cbn; discriminate].
Qed.

Lemma repeat_char_length (c : ascii) (n : nat) : String.length (repeat_char c n) = n.
Proof. induction n as [|n IH]; simpl; [reflexivity|]. rewrite IH. reflexivity. Qed.

Lemma strip_app_pad (c : ascii) (U U0 : string) (k p : nat) :
  str_all (fun x => negb (Ascii.eqb x c)) U0 = true ->
  (U ++ repeat_char c k = U0 ++ repeat_char c p)%string ->
  exists j, k + j = p /\ U = (U0 ++ repeat_char c j)%string.
Proof.
  revert U. induction U0 as [|x U0 IH]; intros U H E.
  - cbn [append] in E. revert p E. induction U as [|y U IHU]; intros p E.
    + exists 0. cbn [append] in E. split; [|reflexivity].
      assert (L : String.length (repeat_char c k) = String.length (repeat_char c p)) by (rewrite E; reflexivity).
      rewrite !repeat_char_length in L. lia.
    + destruct p as [|p]; [discriminate|]. cbn in E. injection E as -> E.
      destruct (IHU p E) as [j [Hj ->]]. exists (S j). split; [lia|reflexivity].
  - cbn [str_all] in H. apply andb_prop in H as [Hx H].
    destruct U as [|y U].
    + cbn [append] in E. destruct k as [|k]; cbn in E.
      * destruct p; discriminate.
      * injection E as Ey _. subst x. rewrite Ascii.eqb_refl in Hx. discriminate.
    + cbn in E. injection E as -> E. destruct (IH U H E) as [j [Hj ->]]. exists j. split; [exact Hj|reflexivity].
Qed.

Lemma repeat_char_add (c : ascii) (a b : nat) :
  (repeat_char c a ++ repeat_char c b)%string = repeat_char c (a + b).
Proof. induction a as [|a IH]; simpl; [reflexivity|]. rewrite IH. reflexivity. Qed.

Lemma rev_str_app (a b acc : string) : rev_str (a ++ b) acc = rev_str b (rev_str a acc).
Proof. revert acc. induction a as [|c r IH]; intro acc; simpl; [reflexivity|]. apply IH. Qed.

Lemma lstrip_ws_char (cp : Z) (t : string) :
  In cp py_whitespace -> lstrip (utf8_char cp ++ t) = lstrip t.
Proof. intro H. repeat (destruct H as [<-|H]; [reflexivity|]). destruct H. Qed.

Lemma lstrip_rev_ws_char (cp : Z) (acc : string) :
  In cp py_whitespace -> lstrip_rev (rev_str (utf8_char cp) acc) = lstrip_rev acc.
Proof. intro H. repeat (destruct H as [<-|H]; [reflexivity|]). destruct H. Qed.

Lemma lstrip_ws_app (cps : list Z) (t : string) :
  Forall (fun cp => In cp py_whitespace) cps -> lstrip (utf8_str cps ++ t) = lstrip t.
Proof.
  induction cps as [|cp r IH]; intro H; [reflexivity|].
  inversion H as [|? ? Hcp Hr]; subst. cbn [utf8_str].
  rewrite str_app_assoc, lstrip_ws_char by exact Hcp. apply IH. exact Hr.
Qed.

Lemma lstrip_rev_ws (cps : list Z) (acc : string) :
  Forall (fun cp => In cp py_whitespace) cps -> lstrip_rev (rev_str (utf8_str cps) acc) = lstrip_rev acc.
Proof.
  revert acc. induction cps as [|cp r IH]; intros acc H; [reflexivity|].
  inversion H as [|? ? Hcp Hr]; subst. cbn [utf8_str].
  rewrite rev_str_app, IH by exact Hr. apply lstrip_rev_ws_char. exact Hcp.
Qed.

Lemma strip_surrounded (cps1 cps2 : list Z) (V : string) :
  Forall (fun cp => In cp py_whitespace) cps1 -> Forall (fun cp => In cp py_whitespace) cps2 ->
  str_all url_out_char V = true -> strip (utf8_str cps1 ++ V ++ utf8_str cps2) = V.
Proof.
  intros H1 H2 HV. unfold strip.
  rewrite lstrip_ws_app by exact H1.
  destruct V as [|c r] eqn:EV.
  - cbn [append]. rewrite <- (str_app_nil_r (utf8_str cps2)), lstrip_ws_app by exact H2.
    reflexivity.
  - destruct (url_out_head c r HV) as [Hc Hs].
    replace (String c r ++ utf8_str cps2)%string with (String c (r ++ utf8_str cps2)) by reflexivity.
    rewrite lstrip_ascii by assumption.
    replace (String c (r ++ utf8_str cps2)) with (String c r ++ utf8_str cps2)%string by reflexivity.
    rewrite <- EV in *.
    rewrite rev_str_app, lstrip_rev_ws by exact H2.
    rewrite lstrip_rev_keep by (apply str_all_rev_str; [exact HV | reflexivity]).
    rewrite rev_str_rev_str. cbn [rev_str]. apply str_app_nil_r.
Qed.

Lemma url_body_out (U : string) : str_all url_body_char U = true -> str_all url_out_char U = true.
Proof.
  induction U as [|c r IH]; [reflexivity|]. cbn [str_all]. intro H. apply andb_prop in H as [Hc Hr].
  unfold url_body_char in Hc. apply andb_prop in Hc as [Hc _]. rewrite Hc, IH by exact Hr. reflexivity.
Qed.

Lemma url_body_no_pad (U : string) : str_all url_body_char U = true ->
  str_all (fun x => negb (Ascii.eqb x "="%char)) U = true.
Proof.
  induction U as [|c r IH]; [reflexivity|]. cbn [str_all]. intro H. apply andb_prop in H as [Hc Hr].
  unfold url_body_char in Hc. apply andb_prop in Hc as [_ Hc]. rewrite Hc, IH by exact Hr. reflexivity.
Qed.

Lemma pad_out (p : nat) : str_all url_out_char (repeat_char "="%char p) = true.
Proof. induction p as [|p IH]; [reflexivity|]. cbn [repeat_char str_all]. rewrite IH. reflexivity. Qed.

Lemma str_all_app (f : ascii -> bool) (a b : string) :
  str_all f a = true -> str_all f b = true -> str_all f (a ++ b) = true.
Proof.
  induction a as [|c r IH]; intros Ha Hb; [exact Hb|]. cbn [str_all append] in *.
  apply andb_prop in Ha as [Hc Hr]. rewrite Hc, IH by assumption. reflexivity.
Qed.

Lemma encode_cursor_shape (lk : pyval) (idx srt : option string) (tok : string) :
  encode_cursor lk idx srt = Ok tok ->
  tok = EmptyString \/ exists payload, payload <> EmptyString /\ tok = urlsafe_b64encode payload.
Proof.
  unfold encode_cursor. destruct (negb (py_truthy lk)).
  - intro H. injection H as <-. left. reflexivity.
  - destruct lk; try discriminate.
    destruct (map_items av_to_json d) as [lj|]; [|discriminate]. cbn [of_option bind].
    destruct (dumps _) as [t|]; [|discriminate]. cbn [of_option bind].
    intro H. injection H as <-. right. eexists. split; [|reflexivity]. discriminate.
Qed.

Lemma decode_cursor_same_raw (x y : string) :
  strip x <> EmptyString -> strip y <> EmptyString ->
  (strip x ++ repeat_char "="%char ((4 - String.length (strip x) mod 4) mod 4))%string =
  (strip y ++ repeat_char "="%char ((4 - String.length (strip y) mod 4) mod 4))%string ->
  decode_cursor x = decode_cursor y.
Proof.
  intros Hx Hy E. unfold decode_cursor.
  destruct (String.eqb_spec (strip x) "") as [C|_]; [contradiction|].
  destruct (String.eqb_spec (strip y) "") as [C|_]; [contradiction|].
  rewrite E. reflexivity.
Qed.

(** Extra X2 ([decode_cursor]).  A token made by [encode_cursor] still
    decodes to the same result (success or error) when any of its trailing
    [=] padding is dropped and Python whitespace (any of the characters
    [str.isspace()] holds for, ASCII or not, given by their code points) is
    added around it. *)
Theorem cursor_token_padding_optional (lk : pyval) (idx srt : option string) (tok U : string) (k : nat)
    (cps1 cps2 : list Z) :
  encode_cursor lk idx srt = Ok tok ->
  tok = (U ++ repeat_char "="%char k)%string ->
  Forall (fun cp => In cp py_whitespace) cps1 -> Forall (fun cp => In cp py_whitespace) cps2 ->
  decode_cursor (utf8_str cps1 ++ U ++ utf8_str cps2) = decode_cursor tok.
Proof.
  intros Henc Htok H1 H2.
  destruct (encode_cursor_shape _ _ _ _ Henc) as [E0 | [payload [Hp Et]]].
  - subst tok. destruct U; [|discriminate]. destruct k; [|discriminate].
    unfold decode_cursor. rewrite (strip_surrounded cps1 cps2 EmptyString H1 H2 eq_refl).
    reflexivity.
  - destruct (urlsafe_pad_shape payload Hp) as [U0 [p [Ep [Hp2 [HU0 Hne]]]]].
    destruct (urlsafe_round_trip payload) as [_ [Hout Hlen]].
    rewrite <- Et in Hout, Hlen, Ep.
    rewrite Htok in Ep.
    destruct (strip_app_pad "="%char U U0 k p (url_body_no_pad U0 HU0) Ep) as [j [Hj EU]].
    assert (HUout : str_all url_out_char U = true)
      by (rewrite EU; apply str_all_app; [apply url_body_out; exact HU0 | apply pad_out]).
    assert (S1 : strip (utf8_str cps1 ++ U ++ utf8_str cps2) = U) by (apply strip_surrounded; assumption).
    assert (S2 : strip tok = tok) by (apply strip_keep; exact Hout).
    assert (HUne : U <> EmptyString) by (rewrite EU; destruct U0; [contradiction|discriminate]).
    apply decode_cursor_same_raw.
    + rewrite S1. exact HUne.
    + rewrite S2. rewrite Htok. destruct U; [contradiction|discriminate].
    + rewrite S1, S2, Hlen. replace ((4 - 0) mod 4) with 0 by reflexivity.
      cbn [repeat_char]. rewrite str_app_nil_r.
      rewrite Htok in Hlen |- *. f_equal. f_equal.
      rewrite str_length_app, repeat_char_length in Hlen.
      set (m := String.length U) in *.
      assert (Hd := Nat.div_mod_eq (m + k) 4). rewrite Hlen in Hd.
      assert (Hm := Nat.div_mod_eq m 4). assert (Hb := Nat.mod_upper_bound m 4 ltac:(lia)).
      destruct k as [|[|[|k]]]; try lia;
        first [ replace (m mod 4) with 0 by lia | replace (m mod 4) with 3 by lia
              | replace (m mod 4) with 2 by lia ]; reflexivity.
Qed.

Lemma cursor_token_padding_optional_witness :
  let U := "eyJsYXN0S2V5Ijp7ImRhdGEiOnsiTSI6eyJiaW4iOnsiQiI6ImFHa2gifSwiaXRlbXMiOnsiTCI6W3siTiI6IjcifSx7IkJTIjpbImVBPT0iXX1dfX19LCJwayI6eyJTIjoiQSMxIn19fQ" in
  encode_cursor (PDict cursor_witness_key) None None = Ok (U ++ repeat_char "="%char 2)%string /\
  decode_cursor (utf8_str [32; 12288]%Z ++ U ++ utf8_str [160; 10]%Z) =
  decode_cursor (U ++ repeat_char "="%char 2)%string.
Proof.
  intro U. split; [vm_compute; reflexivity|].
  apply (cursor_token_padding_optional (PDict cursor_witness_key) None None _ U 2 [32; 12288]%Z [160; 10]%Z).
  - vm_compute. reflexivity.
  - reflexivity.
  - repeat (apply Forall_cons; [cbn [In py_whitespace]; repeat (first [left; reflexivity | right]) |]).
    apply Forall_nil.
  - repeat (apply Forall_cons; [cbn [In py_whitespace]; repeat (first [left; reflexivity | right]) |]).
    apply Forall_nil.
Defined.

Lemma parse_refresh_condition :
  parse_condition refresh_condition = Some [[CondCompare "=" "#tok" ":tok"; CondCompare ">" "#exp" ":now"]].
Proof. vm_compute. reflexivity. Qed.

Lemma parse_release_condition :
  parse_condition "#tok = :tok" = Some [[CondCompare "=" "#tok" ":tok"]].
Proof. vm_compute. reflexivity. Qed.

Lemma compare_eq_eqb (x y : string) :
  compare_op "=" (String.compare x y) = String.eqb x y.
Proof.
  change (compare_op "=" (String.compare x y)) with
    (match String.compare x y with Eq => true | _ => false end).
  destruct (String.eqb_spec x y) as [->|N].
  - assert (E : String.compare y y = Eq) by (pose proof (String.compare_antisym y y) as A; destruct (String.compare y y); try discriminate; reflexivity).
    rewrite E. reflexivity.
  - destruct (String.compare x y) eqn:E; try reflexivity.
    apply String.compare_eq_iff in E. contradiction.
Qed.

(** The token atom [#tok = :tok] against a row. *)
Lemma eval_token_atom (names : dict string) (values : dict pyval) (m : LeaseManager) (r : dict pyval) (tok : string) :
  dict_get names "#tok" = Some (token_attr m) -> dict_get values ":tok" = Some (attr_S tok) ->
  eval_atom names values (Some r) (CondCompare "=" "#tok" ":tok") =
    Some (match s_attr r (token_attr m) with Some x => String.eqb x tok | None => false end).
Proof.
  intros Hn Hv. cbn [eval_atom]. rewrite Hn, Hv. unfold s_attr.
  destruct (dict_get r (token_attr m)) as [sv|]; [|reflexivity].
  replace (n_value (attr_S tok)) with (@None string) by reflexivity.
  replace (s_value (attr_S tok)) with (Some tok) by reflexivity.
  destruct (n_value sv); destruct (s_value sv) as [x|]; try reflexivity;
    rewrite compare_eq_eqb; reflexivity.
Qed.

Lemma eval_expiry_atom (names : dict string) (values : dict pyval) (m : LeaseManager) (r : dict pyval) (now : Z) :
  dict_get names "#exp" = Some (expires_at_attr m) -> dict_get values ":now" = Some (attr_N now) ->
  eval_atom names values (Some r) (CondCompare ">" "#exp" ":now") =
    Some (match dict_get r (expires_at_attr m) with
          | Some stored =>
              match n_value stored with
              | Some x => match number_of x with Some e => (now <? e)%Z | None => false end
              | None => false
              end
          | None => false
          end).
Proof.
  intros Hn Hv. cbn [eval_atom]. rewrite Hn, Hv.
  destruct (dict_get r (expires_at_attr m)) as [stored|]; [|reflexivity].
  replace (n_value (attr_N now)) with (Some (str_of_Z now)) by reflexivity.
  replace (s_value (attr_N now)) with (@None string) by reflexivity.
  rewrite number_of_str_of_Z.
  destruct (n_value stored) as [x|].
  - destruct (number_of x) as [e|]; [|reflexivity].
    change (compare_op ">" (e ?= now)%Z) with (match (e ?= now)%Z with Gt => true | _ => false end).
    destruct (Z.compare_spec e now) as [E|E|E]; f_equal; symmetry; apply Z.ltb_ge || apply Z.ltb_lt; lia.
  - destruct (s_value stored); reflexivity.
Qed.

Lemma refresh_request_fields (m : LeaseManager) (now : Z) (l : Lease) (secs : Z) :
  let req := refresh_request m now l secs in
  ui_key req = lease_key_item m (key l) /\
  ui_condition_expression req = refresh_condition /\
  parse_set (ui_update_expression req) = Some (refresh_sets m) /\
  dict_get (ui_names req) "#tok" = Some (token_attr m) /\
  dict_get (ui_names req) "#exp" = Some (expires_at_attr m) /\
  dict_get (ui_values req) ":tok" = Some (attr_S (token l)) /\
  dict_get (ui_values req) ":now" = Some (attr_N now) /\
  (forall r, apply_set (ui_names req) (ui_values req) (refresh_sets m) r =
             Some (refreshed_row m r (now + secs))).
Proof.
  unfold refresh_request, refresh_sets, refreshed_row. cbv zeta.
  destruct (negb _ && _); cbn [ui_key ui_condition_expression ui_update_expression ui_names ui_values].
  all: repeat split; try reflexivity; try (intro; reflexivity).
Qed.

Lemma eval_refresh_condition (m : LeaseManager) (now : Z) (l : Lease) (secs : Z) (row : option (dict pyval)) :
  let req := refresh_request m now l secs in
  eval_any (eval_all (eval_atom (ui_names req) (ui_values req) row))
    [[CondCompare "=" "#tok" ":tok"; CondCompare ">" "#exp" ":now"]] =
  Some (lease_held_by m row (token l) now).
Proof.
  cbv zeta. destruct (refresh_request_fields m now l secs) as (_ & _ & _ & N1 & N2 & V1 & V2 & _).
  destruct row as [r|].
  - unfold eval_any, eval_all. cbn [fold_right].
    rewrite (eval_token_atom _ _ m r (token l) N1 V1), (eval_expiry_atom _ _ m r now N2 V2).
    unfold lease_held_by.
    destruct (s_attr r (token_attr m)) as [x|]; destruct (dict_get r (expires_at_attr m)) as [st|];
      rewrite ?andb_true_r, ?orb_false_r; try reflexivity.
    destruct (String.eqb x (token l)); reflexivity.
  - unfold eval_any, eval_all. cbn [fold_right eval_atom]. rewrite N1, N2, V1, V2. reflexivity.
Qed.

Lemma valid_key_false (k : LeaseKey) :
  lease_pk k <> "" -> lease_sk k <> "" ->
  (String.eqb (lease_pk k) "" || String.eqb (lease_sk k) "") = false.
Proof. intros H1 H2. apply orb_false_iff. split; apply String.eqb_neq; assumption. Qed.

(** Extra X9 ([LeaseManager.refresh]).  (1) Against a DynamoDB table, for a
    lease with non-empty key and token and [lease_seconds > 0], [refresh]
    succeeds exactly when the row under the lease key stores the lease's
    token and an expiry after [now]; it then sets the expiry (and ttl) of
    that row and returns the lease with expiry [now + lease_seconds].
    Otherwise it raises [LeaseNotOwnedError] and leaves the table as it
    was.  (2) Against any backend, a condition failure of the update
    raises [LeaseNotOwnedError] with its message. *)
Theorem lease_refresh_conditional :
  (forall m t clock l lease_seconds,
     lease_pk (key l) <> "" -> lease_sk (key l) <> "" -> token l <> "" -> (0 < lease_seconds)%Z ->
     let now := int_of_clock clock in
     let k := lease_key_item m (key l) in
     refresh ddb_table ddb_update_item m t clock l lease_seconds =
       match find_row t k with
       | Some r =>
           if lease_held_by m (Some r) (token l) now
           then (Ok (mkLease (key l) (token l) (now + lease_seconds)),
                 mkDdbTable (hash_key t) (range_key t)
                   (refreshed_row m r (now + lease_seconds)
                      :: filter (fun r => negb (same_key t k r)) (rows t)))
           else (Err (LeaseNotOwnedError "The conditional request failed"), t)
       | None => (Err (LeaseNotOwnedError "The conditional request failed"), t)
       end) /\
  (forall (Store : Type) (update_item : Store -> UpdateItemRequest -> option ClientError * Store)
          m st clock l lease_seconds err st',
     lease_pk (key l) <> "" -> lease_sk (key l) <> "" -> token l <> "" -> (0 < lease_seconds)%Z ->
     update_item st (refresh_request m (int_of_clock clock) l lease_seconds) = (Some err, st') ->
     error_code err = "ConditionalCheckFailedException" ->
     refresh Store update_item m st clock l lease_seconds = (Err (LeaseNotOwnedError (error_message err)), st')).
Proof.
  split.
  - intros m t clock l secs Hpk Hsk Htok Hs. cbv zeta.
    unfold refresh. rewrite (valid_key_false _ Hpk Hsk).
    replace (String.eqb (token l) "") with false by (symmetry; apply String.eqb_neq; exact Htok).
    replace (secs <=? 0)%Z with false by (symmetry; apply Z.leb_gt; exact Hs).
    cbv zeta. set (now := int_of_clock clock).
    destruct (refresh_request_fields m now l secs) as (Hk & Hc & Hp & _ & _ & _ & _ & Ha).
    pose proof (eval_refresh_condition m now l secs) as He. cbv zeta in He.
    unfold ddb_update_item. rewrite Hc, parse_refresh_condition, Hp, He, Hk.
    destruct (find_row t (lease_key_item m (key l))) as [r|] eqn:Hrow.
    + destruct (lease_held_by m (Some r) (token l) now); [|reflexivity].
      rewrite Ha. reflexivity.
    + reflexivity.
  - intros Store update_item m st clock l secs err st' Hpk Hsk Htok Hs Hu Hcode.
    unfold refresh. rewrite (valid_key_false _ Hpk Hsk).
    replace (String.eqb (token l) "") with false by (symmetry; apply String.eqb_neq; exact Htok).
    replace (secs <=? 0)%Z with false by (symmetry; apply Z.leb_gt; exact Hs).
    rewrite Hu. unfold map_client_error. rewrite Hcode. reflexivity.
Qed.

Lemma eval_release_condition (m : LeaseManager) (l : Lease) (row : option (dict pyval)) :
  let req := release_request m l in
  eval_any (eval_all (eval_atom (di_names req) (di_values req) row)) [[CondCompare "=" "#tok" ":tok"]] =
  Some (match row with
        | Some r => match s_attr r (token_attr m) with Some x => String.eqb x (token l) | None => false end
        | None => false
        end).
Proof.
  cbv zeta. destruct row as [r|].
  - unfold eval_any, eval_all. cbn [fold_right].
    rewrite (eval_token_atom (di_names (release_request m l)) (di_values (release_request m l)) m r (token l) eq_refl eq_refl).
    destruct (s_attr r (token_attr m)) as [x|]; [|reflexivity].
    destruct (String.eqb x (token l)); reflexivity.
  - reflexivity.
Qed.

(** Extra X10 ([LeaseManager.release]).  (1) Against a DynamoDB table, for
    a lease with non-empty key and token, [release] always returns without
    error; it deletes the row under the lease key exactly when that row
    stores the lease's token (whatever its expiry), and otherwise leaves the
    table as it was.  (2) Against any backend, a condition failure of the
    delete is ignored. *)
Theorem lease_release_conditional :
  (forall m t l,
     lease_pk (key l) <> "" -> lease_sk (key l) <> "" -> token l <> "" ->
     let k := lease_key_item m (key l) in
     release ddb_table ddb_delete_item m t l =
       (Ok tt,
        match find_row t k with
        | Some r =>
            match s_attr r (token_attr m) with
            | Some x => if String.eqb x (token l) then drop_key t k else t
            | None => t
            end
        | None => t
        end)) /\
  (forall (Store : Type) (delete_item : Store -> DeleteItemRequest -> option ClientError * Store)
          m st l err st',
     lease_pk (key l) <> "" -> lease_sk (key l) <> "" -> token l <> "" ->
     delete_item st (release_request m l) = (Some err, st') ->
     error_code err = "ConditionalCheckFailedException" ->
     release Store delete_item m st l = (Ok tt, st')).
Proof.
  split.
  - intros m t l Hpk Hsk Htok. cbv zeta.
    unfold release. rewrite (valid_key_false _ Hpk Hsk).
    replace (String.eqb (token l) "") with false by (symmetry; apply String.eqb_neq; exact Htok).
    pose proof (eval_release_condition m l) as He. cbv zeta in He.
    unfold ddb_delete_item.
    replace (di_condition_expression (release_request m l)) with "#tok = :tok" by reflexivity.
    rewrite parse_release_condition, He.
    replace (di_key (release_request m l)) with (lease_key_item m (key l)) by reflexivity.
    destruct (find_row t (lease_key_item m (key l))) as [r|]; [|reflexivity].
    destruct (s_attr r (token_attr m)) as [x|]; [|reflexivity].
    destruct (String.eqb x (token l)); reflexivity.
  - intros Store delete_item m st l err st' Hpk Hsk Htok Hd Hcode.
    unfold release. rewrite (valid_key_false _ Hpk Hsk).
    replace (String.eqb (token l) "") with false by (symmetry; apply String.eqb_neq; exact Htok).
    rewrite Hd. unfold map_client_error. rewrite Hcode. reflexivity.
Qed.

Lemma acquire_item_attrs (m : LeaseManager) (now : Z) (tok : string) (k : LeaseKey) (secs : Z) :
  NoDup [pk_attr m; sk_attr m; token_attr m; expires_at_attr m; ttl_attr m] ->
  let item := pi_item (acquire_request m now tok k secs) in
  s_attr item (pk_attr m) = Some (lease_pk k) /\ s_attr item (sk_attr m) = Some (lease_sk k) /\
  s_attr item (token_attr m) = Some tok.
Proof.
  intros Hnd. cbv zeta.
  apply NoDup_cons_iff in Hnd as [N1 Hd]. apply NoDup_cons_iff in Hd as [N2 Hd].
  apply NoDup_cons_iff in Hd as [N3 _]. simpl in N1, N2, N3.
  unfold acquire_request. cbv zeta. cbn [pi_item].
  assert (Hbase : forall d, d = dict_set (dict_set (dict_set (dict_set [] (pk_attr m) (attr_S (lease_pk k)))
                                 (sk_attr m) (attr_S (lease_sk k))) (token_attr m) (attr_S tok))
                                 (expires_at_attr m) (attr_N (now + secs)) ->
    s_attr d (pk_attr m) = Some (lease_pk k) /\ s_attr d (sk_attr m) = Some (lease_sk k) /\
    s_attr d (token_attr m) = Some tok).
  { intros d ->.
    assert (Nte : token_attr m <> expires_at_attr m) by (intro E; apply N3; rewrite E; auto 6).
    assert (Nse : sk_attr m <> expires_at_attr m) by (intro E; apply N2; rewrite E; auto 6).
    assert (Nst : sk_attr m <> token_attr m) by (intro E; apply N2; rewrite E; auto 6).
    assert (Npe : pk_attr m <> expires_at_attr m) by (intro E; apply N1; rewrite E; auto 6).
    assert (Npt : pk_attr m <> token_attr m) by (intro E; apply N1; rewrite E; auto 6).
    assert (Nps : pk_attr m <> sk_attr m) by (intro E; apply N1; rewrite E; auto 6).
    split; [|split].
    - rewrite !s_attr_dict_set_other by assumption. rewrite s_attr_dict_set_same. reflexivity.
    - rewrite s_attr_dict_set_other by exact Nse. rewrite s_attr_dict_set_other by exact Nst.
      rewrite s_attr_dict_set_same. reflexivity.
    - rewrite s_attr_dict_set_other by exact Nte. rewrite s_attr_dict_set_same. reflexivity. }
  destruct (negb _ && _).
  - destruct (Hbase _ eq_refl) as (B1 & B2 & B3).
    rewrite !(s_attr_dict_set_other _ (ttl_attr m)).
    + split; [exact B1|split; [exact B2|exact B3]].
    + intro E. apply N3. rewrite E. auto 6.
    + intro E. apply N2. rewrite E. auto 6.
    + intro E. apply N1. rewrite E. auto 6.
  - apply Hbase. reflexivity.
Qed.

Lemma lease_key_item_attrs (m : LeaseManager) (k : LeaseKey) :
  pk_attr m <> sk_attr m ->
  s_attr (lease_key_item m k) (pk_attr m) = Some (lease_pk k) /\
  s_attr (lease_key_item m k) (sk_attr m) = Some (lease_sk k).
Proof.
  intro N. unfold lease_key_item. split.
  - rewrite s_attr_dict_set_other by exact N. rewrite s_attr_dict_set_same. reflexivity.
  - rewrite s_attr_dict_set_same. reflexivity.
Qed.

Lemma same_key_ext (t t' : ddb_table) (a b r : dict pyval) :
  hash_key t = hash_key t' -> range_key t = range_key t' ->
  s_attr a (hash_key t) = s_attr b (hash_key t) -> s_attr a (range_key t) = s_attr b (range_key t) ->
  same_key t a r = same_key t' b r.
Proof. intros H1 H2 H3 H4. unfold same_key. rewrite <- H1, <- H2, H3, H4. reflexivity. Qed.

Lemma find_filter_negb {A} (f g : A -> bool) (l : list A) :
  (forall x, f x = g x) -> find f (filter (fun x => negb (g x)) l) = None.
Proof.
  intros H. induction l as [|x r IH]; [reflexivity|]. cbn [filter].
  destruct (g x) eqn:E; cbn [negb]; [exact IH|]. cbn [find]. rewrite H, E. exact IH.
Qed.

Lemma ddb_put_item_ok (t t1 : ddb_table) (req : PutItemRequest) :
  ddb_put_item t req = (None, t1) ->
  t1 = mkDdbTable (hash_key t) (range_key t)
         (pi_item req :: filter (fun r => negb (same_key t (pi_item req) r)) (rows t)).
Proof.
  unfold ddb_put_item. destruct (parse_condition _); [|discriminate].
  destruct (eval_any _ _) as [[|]|]; try discriminate. intro H. injection H as <-. reflexivity.
Qed.

Lemma acquire_ddb_ok (m : LeaseManager) (t t1 : ddb_table) (clock : Q) (tok : string) (k : LeaseKey)
    (secs : Z) (l : Lease) :
  acquire ddb_table ddb_put_item m t clock tok k secs = (Ok l, t1) ->
  let req := acquire_request m (int_of_clock clock) tok k secs in
  l = mkLease k tok (int_of_clock clock + secs) /\
  t1 = mkDdbTable (hash_key t) (range_key t)
         (pi_item req :: filter (fun r => negb (same_key t (pi_item req) r)) (rows t)).
Proof.
  unfold acquire. destruct (_ || _); [discriminate|]. destruct (secs <=? 0)%Z; [discriminate|].
  cbv zeta. destruct (ddb_put_item t _) as [[e|] t'] eqn:Hp.
  - destruct (map_client_error e); discriminate.
  - intro H. injection H as <- <-. split; [reflexivity|]. apply ddb_put_item_ok. exact Hp.
Qed.

(** Extra X11 ([LeaseManager.acquire], [LeaseManager.release]).  After an
    acquire succeeds on a DynamoDB table keyed by the manager's attributes,
    releasing the returned lease removes its row, and a later acquire of the
    same key by any token and at any clock reading succeeds. *)
Theorem lease_release_frees_key (m : LeaseManager) (t t1 : ddb_table) (clock clock2 : Q)
    (tok tok2 : string) (k : LeaseKey) (secs secs2 : Z) (l : Lease) :
  lease_pk k <> "" -> lease_sk k <> "" -> tok <> "" -> (0 < secs2)%Z ->
  hash_key t = pk_attr m -> range_key t = sk_attr m ->
  NoDup [pk_attr m; sk_attr m; token_attr m; expires_at_attr m; ttl_attr m] ->
  acquire ddb_table ddb_put_item m t clock tok k secs = (Ok l, t1) ->
  release ddb_table ddb_delete_item m t1 l = (Ok tt, drop_key t1 (lease_key_item m k)) /\
  fst (acquire ddb_table ddb_put_item m (drop_key t1 (lease_key_item m k)) clock2 tok2 k secs2) =
    Ok (mkLease k tok2 (int_of_clock clock2 + secs2)).
Proof.
  intros Hpk Hsk Htok Hs2 Hh Hr Hnd Hacq.
  destruct (acquire_ddb_ok _ _ _ _ _ _ _ _ Hacq) as [-> Ht1]. cbv zeta in Ht1.
  set (item := pi_item (acquire_request m (int_of_clock clock) tok k secs)) in Ht1.
  set (kk := lease_key_item m k).
  assert (Npk : pk_attr m <> sk_attr m).
  { intro E. apply NoDup_cons_iff in Hnd as [N1 _]. apply N1. rewrite E. left. reflexivity. }
  destruct (acquire_item_attrs m (int_of_clock clock) tok k secs Hnd) as (I1 & I2 & I3).
  fold item in I1, I2, I3.
  destruct (lease_key_item_attrs m k Npk) as [K1 K2]. fold kk in K1, K2.
  assert (Hsame : same_key t1 kk item = true).
  { subst t1. unfold same_key. cbn [hash_key range_key]. rewrite Hh, Hr, K1, K2, I1, I2.
    rewrite !String.eqb_refl. reflexivity. }
  assert (Hfind : find_row t1 kk = Some item).
  { unfold find_row. rewrite Ht1 at 2. cbn [rows find]. rewrite Hsame. reflexivity. }
  split.
  - unfold release. cbn [key token]. rewrite (valid_key_false _ Hpk Hsk).
    replace (String.eqb tok "") with false by (symmetry; apply String.eqb_neq; exact Htok).
    pose proof (eval_release_condition m (mkLease k tok (int_of_clock clock + secs))) as He.
    cbv zeta in He. unfold ddb_delete_item.
    replace (di_condition_expression _) with "#tok = :tok" by reflexivity.
    rewrite parse_release_condition, He.
    replace (di_key _) with kk by reflexivity.
    rewrite Hfind, I3. cbn [token]. rewrite String.eqb_refl. reflexivity.
  - set (t2 := drop_key t1 kk).
    unfold acquire. rewrite (valid_key_false _ Hpk Hsk).
    replace (secs2 <=? 0)%Z with false by (symmetry; apply Z.leb_gt; exact Hs2).
    cbv zeta. set (now2 := int_of_clock clock2).
    destruct (acquire_request_condition m now2 tok2 k secs2) as [Hc [Hn Hv]].
    destruct (acquire_item_attrs m now2 tok2 k secs2 Hnd) as (J1 & J2 & _).
    assert (Hnone : find_row t2 (pi_item (acquire_request m now2 tok2 k secs2)) = None).
    { unfold find_row, t2, drop_key. cbn [rows]. apply find_filter_negb. intro r.
      assert (Hk1 : hash_key t1 = pk_attr m) by (rewrite Ht1; exact Hh).
      assert (Hk2 : range_key t1 = sk_attr m) by (rewrite Ht1; exact Hr).
      apply same_key_ext; cbn [hash_key range_key]; try reflexivity.
      - rewrite Hk1, J1, K1. reflexivity.
      - rewrite Hk2, J2, K2. reflexivity. }
    unfold ddb_put_item. rewrite Hc, parse_acquire_condition, Hn, Hv, Hnone. reflexivity.
Qed.

Lemma lease_refresh_conditional_witness :
  fst (refresh ddb_table ddb_update_item default_lease_manager held_job_table 1010
         (mkLease job_key "t1" 1030) 60) = Ok (mkLease job_key "t1" 1070) /\
  fst (refresh ddb_table ddb_update_item default_lease_manager held_job_table 1010
         (mkLease job_key "t2" 1030) 60) = Err (LeaseNotOwnedError "The conditional request failed") /\
  refresh nat (fun n _ => (Some (mkClientError "ConditionalCheckFailedException" "lost" [] "UpdateItem"), n))
    default_lease_manager 0 1010 (mkLease job_key "t1" 1030) 60 = (Err (LeaseNotOwnedError "lost"), 0).
Proof.
  destruct lease_refresh_conditional as [H1 H2]. split; [|split].
  - rewrite (H1 default_lease_manager held_job_table 1010%Q (mkLease job_key "t1" 1030) 60%Z);
      [vm_compute; reflexivity | discriminate | discriminate | discriminate | lia].
  - rewrite (H1 default_lease_manager held_job_table 1010%Q (mkLease job_key "t2" 1030) 60%Z);
      [vm_compute; reflexivity | discriminate | discriminate | discriminate | lia].
  - apply (H2 nat (fun n _ => (Some (mkClientError "ConditionalCheckFailedException" "lost" [] "UpdateItem"), n))
             default_lease_manager 0 1010%Q (mkLease job_key "t1" 1030) 60%Z
             (mkClientError "ConditionalCheckFailedException" "lost" [] "UpdateItem") 0);
      first [discriminate | lia | reflexivity].
Defined.

Lemma lease_release_conditional_witness :
  release ddb_table ddb_delete_item default_lease_manager held_job_table (mkLease job_key "t1" 1030) =
    (Ok tt, mkDdbTable "pk" "sk" []) /\
  release ddb_table ddb_delete_item default_lease_manager held_job_table (mkLease job_key "t2" 1030) =
    (Ok tt, held_job_table) /\
  release nat (fun n _ => (Some (mkClientError "ConditionalCheckFailedException" "gone" [] "DeleteItem"), n))
    default_lease_manager 0 (mkLease job_key "t1" 1030) = (Ok tt, 0).
Proof.
  destruct lease_release_conditional as [H1 H2]. split; [|split].
  - rewrite (H1 default_lease_manager held_job_table (mkLease job_key "t1" 1030));
      [vm_compute; reflexivity | discriminate | discriminate | discriminate].
  - rewrite (H1 default_lease_manager held_job_table (mkLease job_key "t2" 1030));
      [vm_compute; reflexivity | discriminate | discriminate | discriminate].
  - apply (H2 nat (fun n _ => (Some (mkClientError "ConditionalCheckFailedException" "gone" [] "DeleteItem"), n))
             default_lease_manager 0 (mkLease job_key "t1" 1030)
             (mkClientError "ConditionalCheckFailedException" "gone" [] "DeleteItem") 0);
      first [discriminate | reflexivity].
Defined.

Lemma lease_release_frees_key_witness :
  release ddb_table ddb_delete_item default_lease_manager held_job_table (mkLease job_key "t1" 1030) =
    (Ok tt, drop_key held_job_table (lease_key_item default_lease_manager job_key)) /\
  fst (acquire ddb_table ddb_put_item default_lease_manager
         (drop_key held_job_table (lease_key_item default_lease_manager job_key)) 1001 "t2" job_key 30) =
    Ok (mkLease job_key "t2" 1031).
Proof.
  apply (lease_release_frees_key default_lease_manager empty_lease_table held_job_table 1000%Q 1001%Q
           "t1" "t2" job_key 30%Z 30%Z (mkLease job_key "t1" 1030));
    first [discriminate | lia | reflexivity | (vm_compute; repeat constructor; simpl; intuition discriminate)].
Defined.
